(** * The diagnostic reasoning engine of the troubleshooting assistant

    A shallow embedding of [src/knowledge_base.py] (class [KnowledgeBase])
    and [src/inference_engine.py] (class [InferenceEngine]), followed by the
    properties of the rule matcher, the ranker and the two chaining
    procedures.

    Conventions of the embedding:
    - a Python [dict] that is iterated (a rule's [conditions], the caller's
      [symptoms]) is an association list in iteration order; the working
      memory, which is only looked up, is a [gmap];
    - Python numbers are kept abstract behind the class [PyNum]; one instance
      is IEEE binary64 (the primitive floats, what CPython computes with),
      another the exact rationals;
    - the methods of [InferenceEngine] are computations in a state and
      exception monad over the engine's attributes and a heap of trace
      lists, because [diagnose] hands out the very list object that the
      engine keeps appending to;
    - [str.lower] is modelled on ASCII letters; other bytes are unchanged;
    - what the theorems need of the numbers (the order away from NaN, the
      quotient of two lengths) is proved for binary64 from the
      specification of the primitive floats, and for the rationals. *)

From Stdlib Require Import ZArith QArith Qround Ascii String.
From Stdlib Require Import Floats.PrimFloat Floats.FloatOps Floats.SpecFloat Floats.FloatAxioms Uint63.
From Stdlib Require Import Sorting.Sorted Permutation.
From stdpp Require Import base option list strings pretty gmap.

Local Open Scope string_scope.
Local Open Scope list_scope.
Local Open Scope nat_scope.

(** ** Python strings *)

Module PyStr.

Definition lower_ascii (c : ascii) : ascii :=
  let n := nat_of_ascii c in
  if (65 <=? n) && (n <=? 90) then ascii_of_nat (n + 32) else c.

(** [s.lower()] *)
Fixpoint lower (s : string) : string :=
  match s with
  | EmptyString => EmptyString
  | String c s' => String (lower_ascii c) (lower s')
  end.

(** [s.replace(a, b)] for one-character [a] and [b] *)
Fixpoint replace (a b : ascii) (s : string) : string :=
  match s with
  | EmptyString => EmptyString
  | String c s' => String (if Ascii.eqb c a then b else c) (replace a b s')
  end.

(** [s.startswith(p)] *)
Fixpoint startswith (p s : string) : bool :=
  match p, s with
  | EmptyString, _ => true
  | String a p', String b s' => Ascii.eqb a b && startswith p' s'
  | String _ _, EmptyString => false
  end.

(** [needle in hay] *)
Fixpoint contains (needle hay : string) : bool :=
  startswith needle hay ||
  match hay with
  | EmptyString => false
  | String _ hay' => contains needle hay'
  end.

(** [sep.join(parts)] *)
Fixpoint join (sep : string) (parts : list string) : string :=
  match parts with
  | [] => ""
  | [p] => p
  | p :: rest => p +:+ sep +:+ join sep rest
  end.

(** [x in [a, b, c]] for strings *)
Definition in_list (x : string) (l : list string) : bool :=
  existsb (String.eqb x) l.

End PyStr.

(** ** Python values met as rule conditions and as facts

    JSON rule files give booleans and strings; callers give strings and
    booleans. [None] and integers are kept to cover the third branch of the
    comparison policy and Python's [True == 1]. *)

Inductive Value :=
  | VNone
  | VBool (b : bool)
  | VInt (z : Z)
  | VStr (s : string).

Module PyVal.

Definition int_of_bool (b : bool) : Z := if b then 1%Z else 0%Z.

(** [a == b] *)
Definition eq (a b : Value) : bool :=
  match a, b with
  | VNone, VNone => true
  | VBool x, VBool y => Bool.eqb x y
  | VBool x, VInt y => Z.eqb (int_of_bool x) y
  | VInt x, VBool y => Z.eqb x (int_of_bool y)
  | VInt x, VInt y => Z.eqb x y
  | VStr x, VStr y => String.eqb x y
  | _, _ => false
  end.

(** [str(v)], also what an f-string prints for [{v}] *)
Definition str (v : Value) : string :=
  match v with
  | VNone => "None"
  | VBool true => "True"
  | VBool false => "False"
  | VInt z => pretty z
  | VStr s => s
  end.

End PyVal.

(** ** Python numbers *)

(** The operations the engine performs on numbers. [of_nat] embeds a Python
    [int]; [ndiv] is [/], [nmul] is [*]; [nleb], [nltb], [neqb] are [<=],
    [<], [==]; [fmt2f] is the format specification [:.2f]. *)
Class PyNum (num : Type) := {
  of_nat : nat -> num;
  ndiv : num -> num -> num;
  nmul : num -> num -> num;
  nleb : num -> num -> bool;
  nltb : num -> num -> bool;
  neqb : num -> num -> bool;
  lit_0_3 : num;
  lit_0_5 : num;
  lit_0_8 : num;
  fmt2f : num -> string
}.

(** [a >= b] *)
Definition ngeb {num} `{PyNum num} (a b : num) : bool := nleb b a.

(** [x == x]: false of a NaN and of nothing else. *)
Definition defined {num} `{PyNum num} (x : num) : bool := neqb x x.

(** What the ranking theorems need of the order. Binary64 has these laws as
    they stand: [<=] is transitive, [<] and [==] are derived from it, a
    comparison with a NaN is false, and two numbers neither of which is a
    NaN are comparable. *)
Class PyNumLaws (num : Type) `{PyNum num} : Prop := {
  nleb_total : forall a b,
    defined a = true -> defined b = true -> nleb a b = true \/ nleb b a = true;
  nleb_trans : forall a b c, nleb a b = true -> nleb b c = true -> nleb a c = true;
  nleb_defined : forall a b, nleb a b = true -> defined a = true /\ defined b = true;
  nltb_nleb : forall a b, nltb a b = nleb a b && negb (nleb b a);
  neqb_nleb : forall a b, neqb a b = nleb a b && nleb b a;
  zero_defined : defined (of_nat 0) = true
}.

(** What the score theorems need of the quotient of two lengths, the
    denominator at most [limit]: it lies between 0 and 1 and grows with the
    numerator. The rationals have this for every [limit], binary64 for the
    lengths below [2^53], which are floats as they stand. *)
Class PyNumQuotients (num : Type) `{PyNum num} (limit : nat) : Prop := {
  zero_le_zero : nleb (of_nat 0) (of_nat 0) = true;
  zero_le_one : nleb (of_nat 0) (of_nat 1) = true;
  ndiv_nonneg : forall m n, 0 < n -> n <= limit -> m <= n ->
    nleb (of_nat 0) (ndiv (of_nat m) (of_nat n)) = true;
  ndiv_le_1 : forall m n, 0 < n -> n <= limit -> m <= n ->
    nleb (ndiv (of_nat m) (of_nat n)) (of_nat 1) = true;
  ndiv_mono : forall m m' n, 0 < n -> n <= limit -> m <= m' -> m' <= n ->
    nleb (ndiv (of_nat m) (of_nat n)) (ndiv (of_nat m') (of_nat n)) = true
}.

(** *** Fixed-point formatting, [f"{x:.2f}"]

    The exact value is rounded to hundredths, ties to even. *)
Module Fmt.

(** nearest integer to a non-negative rational, ties to even *)
Definition round_half_even (q : Q) : Z :=
  let f := Qfloor q in
  let r := Qminus q (inject_Z f) in
  match Qcompare r (1 # 2) with
  | Lt => f
  | Gt => (f + 1)%Z
  | Eq => if Z.even f then f else (f + 1)%Z
  end.

Definition two_digits (z : Z) : string :=
  if (z <? 10)%Z then "0" +:+ pretty z else pretty z.

(** [q] is non-negative *)
Definition fixed2_abs (q : Q) : string :=
  let n := round_half_even (Qmult q (inject_Z 100)) in
  pretty (n / 100)%Z +:+ "." +:+ two_digits (n mod 100)%Z.

Definition fixed2 (q : Q) : string :=
  match Qcompare q 0 with
  | Lt => "-" +:+ fixed2_abs (Qopp q)
  | _ => fixed2_abs q
  end.

(** the rational a finite binary64 magnitude stands for *)
Definition Q_of_mant (m : positive) (e : Z) : Q :=
  match e with
  | Z0 => inject_Z (Zpos m)
  | Zpos p => inject_Z (Zpos m * 2 ^ Zpos p)
  | Zneg p => Qmake (Zpos m) (2 ^ p)
  end.

Definition fixed2_float (x : float) : string :=
  match Prim2SF x with
  | S754_zero s => (if s then "-" else "") +:+ "0.00"
  | S754_infinity s => (if s then "-" else "") +:+ "inf"
  | S754_nan => "nan"
  | S754_finite s m e => (if s then "-" else "") +:+ fixed2_abs (Q_of_mant m e)
  end.

End Fmt.

(** Exact rationals. *)
#[export] Instance QNum : PyNum Q := {|
  of_nat n := inject_Z (Z.of_nat n);
  ndiv := Qdiv;
  nmul := Qmult;
  nleb := Qle_bool;
  nltb a b := negb (Qle_bool b a);
  neqb := Qeq_bool;
  lit_0_3 := 3 # 10;
  lit_0_5 := 1 # 2;
  lit_0_8 := 4 # 5;
  fmt2f := Fmt.fixed2
|}.

(** IEEE binary64, the numbers of CPython. The literals are the doubles
    nearest to 0.3, 0.5 and 0.8. A length below [2^53] is a float as it
    stands, and the quotient of two such lengths is what [/] gives for the
    two [int]s; the score theorems are stated for these lengths. *)
#[export] Instance FloatNum : PyNum float := {|
  of_nat n := PrimFloat.of_uint63 (Uint63.of_Z (Z.of_nat n));
  ndiv := PrimFloat.div;
  nmul := PrimFloat.mul;
  nleb := PrimFloat.leb;
  nltb := PrimFloat.ltb;
  neqb := PrimFloat.eqb;
  lit_0_3 := 0x1.3333333333333p-2%float;
  lit_0_5 := 0x1p-1%float;
  lit_0_8 := 0x1.999999999999ap-1%float;
  fmt2f := Fmt.fixed2_float
|}.


(** ** Exceptions *)

(** [KeyError] is what a subscript [rule['id']] raises on a record without
    the key; [AttributeError], [TypeError] and [OverflowError] are what
    the load of a rule file of the wrong shape raises. [DataLoadError] is
    the name the specification uses for a rejected rule source. *)
Inductive Exn :=
  | KeyError (key : string)
  | AttributeError
  | TypeError
  | OverflowError
  | DataLoadError.

Inductive Res (A : Type) :=
  | Ok (a : A)
  | Raise (e : Exn).

Arguments Ok {A} a.
Arguments Raise {A} e.

Section Model.

Context {num : Type} {NumOps : PyNum num}.

(** ** The knowledge base, [knowledge_base.py] *)

(** A rule record as [json.load] returns it: every key may be missing.
    [rule.get("k")] is the field [r_k]; [rule.get("k", d)] is
    [default d (r_k rule)]. *)
Record Rule := mkRule {
  r_id : option string;
  r_category : option string;
  r_conditions : option (list (string * Value));
  r_cause : option string;
  r_cause_ar : option string;
  r_solutions : option (list string);
  r_solutions_ar : option (list string);
  r_confidence : option num
}.

(** The parsed content of one rule file: [data.get("rules", [])]. *)
Record RuleFile := mkRuleFile {
  rules : option (list Rule)
}.

Record KnowledgeBase := mkKnowledgeBase {
  computer_rules : list Rule;
  mobile_rules : list Rule;
  all_rules : list Rule
}.

(** [KnowledgeBase._load_rules] on files that have the shape of the data
    model, an object whose ["rules"], when present, is a list of records;
    an argument is [None] when [os.path.exists] says the file is not
    there. The method on every value [json.load] can return is
    [Parsed._load_rules] below, and it agrees with this one on such files
    (lemma [load_rules_typed]). *)
Definition _load_rules (computer_file mobile_file : option RuleFile) : Res KnowledgeBase :=
  let computer :=
    match computer_file with
    | Some data => default [] (rules data)
    | None => []
    end in
  let mobile :=
    match mobile_file with
    | Some data => default [] (rules data)
    | None => []
    end in
  Ok {| computer_rules := computer;
        mobile_rules := mobile;
        all_rules := computer ++ mobile |}.

(** [KnowledgeBase.get_rules_by_device] *)
Definition get_rules_by_device (self : KnowledgeBase) (device_type : string) : list Rule :=
  if String.eqb (PyStr.lower device_type) "computer" then computer_rules self
  else if String.eqb (PyStr.lower device_type) "mobile" then mobile_rules self
  else all_rules self.

(** [KnowledgeBase.get_rules_by_category]; [if device_type:] holds for a
    non-empty string. *)
Definition get_rules_by_category (self : KnowledgeBase) (category : string)
    (device_type : option string) : list Rule :=
  let rules :=
    match device_type with
    | Some (String _ _ as dt) => get_rules_by_device self dt
    | _ => all_rules self
    end in
  List.filter
    (fun rule => match r_category rule with
                 | Some c => String.eqb c category
                 | None => false
                 end)
    rules.

(** The comparison of one fact with the expected value, the body of the
    loop of [match_conditions] once the key is known to be present. *)
Definition condition_met (user_value expected_value : Value) : bool :=
  match expected_value with
  | VBool _ => PyVal.eq user_value expected_value
  | VStr expected =>
      String.eqb (PyStr.lower (PyVal.str user_value)) (PyStr.lower expected)
  | _ => PyVal.eq user_value expected_value
  end.

(** One turn of the loop over [conditions.items()]. *)
Definition match_step (user_symptoms : gmap string Value)
    (acc : list string * list string) (item : string * Value) : list string * list string :=
  let '(matched, unmatched) := acc in
  let '(key, expected_value) := item in
  match user_symptoms !! key with
  | Some user_value =>
      if condition_met user_value expected_value
      then (matched ++ [key], unmatched)
      else (matched, unmatched ++ [key])
  | None => (matched, unmatched ++ [key])
  end.

(** [KnowledgeBase.match_conditions] *)
Definition match_conditions (rule : Rule) (user_symptoms : gmap string Value)
    : num * list string * list string :=
  let conditions := default [] (r_conditions rule) in
  let '(matched, unmatched) := fold_left (match_step user_symptoms) conditions ([], []) in
  let total_conditions := length conditions in
  let match_score :=
    if Nat.eqb total_conditions 0 then of_nat 0
    else ndiv (of_nat (length matched)) (of_nat total_conditions) in
  (match_score, matched, unmatched).

(** An entry of the list [find_matching_rules] returns. *)
Record Match := mkMatch {
  m_rule : Rule;
  m_match_score : num;
  m_matched_conditions : list string;
  m_unmatched_conditions : list string
}.

(** The sort key [(x["match_score"], x["rule"].get("confidence", 0))]. *)
Definition sort_key (x : Match) : num * num :=
  (m_match_score x, default (of_nat 0) (r_confidence (m_rule x))).

(** [a < b] on pairs: the first component that differs decides. *)
Definition tuple_lt (a b : num * num) : bool :=
  if negb (neqb (fst a) (fst b)) then nltb (fst a) (fst b)
  else if negb (neqb (snd a) (snd b)) then nltb (snd a) (snd b)
  else false.

(** [matches.sort(key=..., reverse=True)]. Python's sort is stable, also
    with [reverse=True]: entries with equal keys keep their order. The
    stable insertion sort into descending order stands for it. *)
Fixpoint insert_desc (x : Match) (sorted : list Match) : list Match :=
  match sorted with
  | [] => [x]
  | y :: rest =>
      if tuple_lt (sort_key x) (sort_key y) then y :: insert_desc x rest
      else x :: y :: rest
  end.

Definition sort_reverse (matches : list Match) : list Match :=
  foldr insert_desc [] matches.

(** One turn of the loop [for rule in rules] of [find_matching_rules]. *)
Definition collect_step (user_symptoms : gmap string Value) (min_match_score : num)
    (matches : list Match) (rule : Rule) : list Match :=
  let '(match_score, matched, unmatched) := match_conditions rule user_symptoms in
  if ngeb match_score min_match_score
  then matches ++ [ {| m_rule := rule;
                       m_match_score := match_score;
                       m_matched_conditions := matched;
                       m_unmatched_conditions := unmatched |} ]
  else matches.

(** The candidate pool of [find_matching_rules]. *)
Definition relevant_rules (self : KnowledgeBase) (device_type category : option string)
    : list Rule :=
  match category with
  | Some (String _ _ as c) => get_rules_by_category self c device_type
  | _ =>
      match device_type with
      | Some (String _ _ as dt) => get_rules_by_device self dt
      | _ => all_rules self
      end
  end.

(** [KnowledgeBase.find_matching_rules] *)
Definition find_matching_rules (self : KnowledgeBase) (user_symptoms : gmap string Value)
    (device_type category : option string) (min_match_score : num) : list Match :=
  let rules := relevant_rules self device_type category in
  let matches := fold_left (collect_step user_symptoms min_match_score) rules [] in
  sort_reverse matches.

(** ** The inference engine, [inference_engine.py] *)

(** The attributes of an [InferenceEngine] and the store of the list
    objects its traces live in. [inference_trace] is a reference into
    [heap]: the result of [diagnose] carries the same reference. *)
Record State := mkState {
  heap : list (list string);
  kb : KnowledgeBase;
  working_memory : gmap string Value;
  inference_trace : nat;
  fired_rules : list Rule
}.

(** A method: it may raise, and the state it leaves is kept either way. *)
Definition M (A : Type) : Type := State -> Res A * State.

Definition ret {A} (a : A) : M A := fun st => (Ok a, st).

Definition raise {A} (e : Exn) : M A := fun st => (Raise e, st).

Definition bind {A B} (c : M A) (k : A -> M B) : M B :=
  fun st =>
    match c st with
    | (Ok a, st') => k a st'
    | (Raise e, st') => (Raise e, st')
    end.

Definition gets {A} (f : State -> A) : M A := fun st => (Ok (f st), st).

Definition modify (f : State -> State) : M unit := fun st => (Ok tt, f st).

Notation "'let*' x ':=' c 'in' k" := (bind c (fun x => k))
  (at level 10, x name, c at level 100, k at level 200).
Notation "c1 ';;' c2" := (bind c1 (fun _ => c2))
  (at level 100, c2 at level 200, right associativity).

(** [InferenceEngine.__init__] with a knowledge base given. *)
Definition init (knowledge_base : KnowledgeBase) : State :=
  {| heap := [[]];
     kb := knowledge_base;
     working_memory := ∅;
     inference_trace := 0;
     fired_rules := [] |}.

(** [InferenceEngine.reset]: three fresh objects. *)
Definition reset : M unit :=
  modify (fun st =>
    {| heap := heap st ++ [[]];
       kb := kb st;
       working_memory := ∅;
       inference_trace := length (heap st);
       fired_rules := [] |}).

(** [self.inference_trace.append(line)] *)
Definition trace_append (line : string) : M unit :=
  modify (fun st =>
    {| heap := alter (fun l => l ++ [line]) (inference_trace st) (heap st);
       kb := kb st;
       working_memory := working_memory st;
       inference_trace := inference_trace st;
       fired_rules := fired_rules st |}).

(** [self.working_memory[key] = value] *)
Definition set_fact (key : string) (value : Value) : M unit :=
  modify (fun st =>
    {| heap := heap st;
       kb := kb st;
       working_memory := <[key := value]> (working_memory st);
       inference_trace := inference_trace st;
       fired_rules := fired_rules st |}).

(** [self.fired_rules.append(rule)] *)
Definition fired_append (rule : Rule) : M unit :=
  modify (fun st =>
    {| heap := heap st;
       kb := kb st;
       working_memory := working_memory st;
       inference_trace := inference_trace st;
       fired_rules := fired_rules st ++ [rule] |}).

(** [rule['id']] *)
Definition subscript_id (rule : Rule) : M string :=
  match r_id rule with
  | Some i => ret i
  | None => raise (KeyError "id")
  end.

(** [InferenceEngine.add_fact] *)
Definition add_fact (key : string) (value : Value) : M unit :=
  set_fact key value ;;
  trace_append ("Added fact: " +:+ key +:+ " = " +:+ PyVal.str value).

(** [InferenceEngine.add_facts] *)
Fixpoint add_facts (facts : list (string * Value)) : M unit :=
  match facts with
  | [] => ret tt
  | (key, value) :: rest => add_fact key value ;; add_facts rest
  end.

(** [InferenceEngine._generate_explanation] *)
Definition _generate_explanation (rule : Rule) (matched_conditions : list string) : M string :=
  let* wm := gets working_memory in
  let conditions_text :=
    map (fun cond =>
           let value := default (VStr "unknown") (wm !! cond) in
           PyStr.replace "_" " " cond +:+ " = " +:+ PyVal.str value)
        matched_conditions in
  match conditions_text with
  | _ :: _ =>
      let conditions_str := PyStr.join ", " conditions_text in
      ret ("The system concluded '" +:+ default "this issue" (r_cause rule) +:+ "' because "
           +:+ "the following conditions were met: " +:+ conditions_str +:+ ".")
  | [] =>
      ret ("The system identified a potential issue: "
           +:+ default "unknown" (r_cause rule) +:+ ".")
  end.

(** An entry of the list [forward_chain] returns. *)
Record Diagnosis := mkDiagnosis {
  d_rule_id : string;
  d_category : string;
  d_cause : string;
  d_cause_ar : string;
  d_solutions : list string;
  d_solutions_ar : list string;
  d_confidence : num;
  d_matched_conditions : list string;
  d_explanation : string
}.

(** The loop [for match in matches] of [forward_chain]. *)
Fixpoint fire_loop (min_confidence : num) (matches : list Match)
    (diagnoses : list Diagnosis) : M (list Diagnosis) :=
  match matches with
  | [] => ret diagnoses
  | m :: rest =>
      let rule := m_rule m in
      let match_score := m_match_score m in
      let matched_conditions := m_matched_conditions m in
      let rule_confidence := default lit_0_8 (r_confidence rule) in
      let final_confidence := nmul match_score rule_confidence in
      if ngeb final_confidence min_confidence then
        fired_append rule ;;
        let* i := subscript_id rule in
        trace_append ("Fired rule: " +:+ i +:+ " (confidence: "
                      +:+ fmt2f final_confidence +:+ ")") ;;
        let* rule_id := subscript_id rule in
        let* explanation := _generate_explanation rule matched_conditions in
        let diagnosis :=
          {| d_rule_id := rule_id;
             d_category := default "unknown" (r_category rule);
             d_cause := default "Unknown cause" (r_cause rule);
             d_cause_ar := default (default "Unknown cause" (r_cause rule)) (r_cause_ar rule);
             d_solutions := default [] (r_solutions rule);
             d_solutions_ar := default (default [] (r_solutions rule)) (r_solutions_ar rule);
             d_confidence := final_confidence;
             d_matched_conditions := matched_conditions;
             d_explanation := explanation |} in
        fire_loop min_confidence rest (diagnoses ++ [diagnosis])
      else fire_loop min_confidence rest diagnoses
  end.

(** [InferenceEngine.forward_chain] *)
Definition forward_chain (device_type category : option string) (min_confidence : num)
    : M (list Diagnosis) :=
  trace_append "Starting Forward Chaining..." ;;
  let* self_kb := gets kb in
  let* wm := gets working_memory in
  let matches := find_matching_rules self_kb wm device_type category min_confidence in
  let* diagnoses := fire_loop min_confidence matches [] in
  trace_append ("Forward chaining complete. Found "
                +:+ pretty (length diagnoses) +:+ " diagnoses.") ;;
  ret diagnoses.

(** [InferenceEngine._values_match] *)
Definition _values_match (actual expected : Value) : bool :=
  match expected with
  | VBool e =>
      match actual with
      | VStr a =>
          if e then PyStr.in_list (PyStr.lower a) ["yes"; "true"; "1"]
          else PyStr.in_list (PyStr.lower a) ["no"; "false"; "0"]
      | _ => PyVal.eq actual expected
      end
  | VStr e => String.eqb (PyStr.lower (PyVal.str actual)) (PyStr.lower e)
  | _ => PyVal.eq actual expected
  end.

(** One turn of the inner loop of [backward_chain] over
    [conditions.items()]; the pair is [(required_facts, all_satisfied)]. *)
Definition require_step (wm : gmap string Value) (acc : list string * bool)
    (item : string * Value) : list string * bool :=
  let '(required_facts, all_satisfied) := acc in
  let '(key, expected_value) := item in
  match wm !! key with
  | Some actual_value =>
      if negb (_values_match actual_value expected_value)
      then (required_facts ++ [key +:+ " should be " +:+ PyVal.str expected_value], false)
      else (required_facts, all_satisfied)
  | None => (required_facts ++ ["Need to know: " +:+ key], false)
  end.

(** The inner loop for one rule, started from [([], True)]. *)
Definition check_rule (wm : gmap string Value) (rule : Rule) : list string * bool :=
  fold_left (require_step wm) (default [] (r_conditions rule)) ([], true).

(** The loop [for rule in supporting_rules] of [backward_chain] and the
    [return] after it; [required_facts] is the variable the last turn
    left bound. *)
Fixpoint prove_loop (supporting_rules : list Rule) (required_facts : list string)
    : M (bool * list string) :=
  match supporting_rules with
  | [] => ret (false, required_facts)
  | rule :: rest =>
      let* wm := gets working_memory in
      let '(required_facts, all_satisfied) := check_rule wm rule in
      if all_satisfied then
        let* i := subscript_id rule in
        trace_append ("Hypothesis PROVEN by rule: " +:+ i) ;;
        ret (true, [])
      else
        let* i := subscript_id rule in
        trace_append ("Rule " +:+ i +:+ " needs: " +:+ PyStr.join ", " required_facts) ;;
        prove_loop rest required_facts
  end.

(** The rules whose cause text contains the hypothesis. *)
Definition supporting (hypothesis : string) (rules : list Rule) : list Rule :=
  List.filter
    (fun r => PyStr.contains (PyStr.lower hypothesis) (PyStr.lower (default "" (r_cause r))))
    rules.

(** [InferenceEngine.backward_chain] *)
Definition backward_chain (hypothesis : string) (device_type : option string)
    : M (bool * list string) :=
  trace_append ("Starting Backward Chaining for hypothesis: " +:+ hypothesis) ;;
  let* self_kb := gets kb in
  let rules :=
    match device_type with
    | Some (String _ _ as dt) => get_rules_by_device self_kb dt
    | _ => all_rules self_kb
    end in
  let supporting_rules := supporting hypothesis rules in
  match supporting_rules with
  | [] =>
      trace_append ("No rules found that support hypothesis: " +:+ hypothesis) ;;
      ret (false, [])
  | _ :: _ => prove_loop supporting_rules []
  end.

(** The table of [_get_general_solutions]. *)
Definition general_solutions : list (string * list string) :=
  [ ("overheating",
      [ "Ensure proper ventilation around the device";
        "Clean dust from vents and fans";
        "Avoid using in direct sunlight or hot environments";
        "Consider replacing thermal paste (for computers)" ]);
    ("slow_performance",
      [ "Close unused applications";
        "Restart the device";
        "Check for available updates";
        "Free up storage space";
        "Scan for malware" ]);
    ("battery_issues",
      [ "Check battery health in settings";
        "Reduce screen brightness";
        "Close background applications";
        "Use original charger";
        "Consider battery replacement if old" ]);
    ("network_issues",
      [ "Toggle airplane mode on and off";
        "Restart the router/modem";
        "Forget and reconnect to network";
        "Update network drivers";
        "Check for service outages" ]);
    ("startup_failure",
      [ "Perform a hard reset";
        "Check power connections";
        "Try booting in safe mode";
        "Check for recent hardware changes" ]);
    ("screen_problems",
      [ "Restart the device";
        "Check display connections";
        "Adjust display settings";
        "Update display drivers" ]);
    ("storage_issues",
      [ "Delete unnecessary files";
        "Clear app caches";
        "Move files to cloud storage";
        "Check for disk errors" ]);
    ("audio_problems",
      [ "Check volume settings";
        "Ensure correct output device is selected";
        "Update audio drivers";
        "Test with different audio source" ]);
    ("app_crashes",
      [ "Update the application";
        "Clear app cache and data";
        "Reinstall the application";
        "Check for system updates" ]);
    ("hardware_failure",
      [ "Restart the device";
        "Check all connections";
        "Run hardware diagnostics";
        "Consult a professional technician" ]) ].

(** [d.get(key)] on a dict literal *)
Fixpoint dict_get {V} (d : list (string * V)) (key : string) : option V :=
  match d with
  | [] => None
  | (k, v) :: rest => if String.eqb k key then Some v else dict_get rest key
  end.

(** [InferenceEngine._get_general_solutions] *)
Definition _get_general_solutions (category device_type : string) : list string :=
  default ["Restart the device and try again"; "Consult technical support"]
          (dict_get general_solutions category).

(** The value under ["diagnosis"] in the result of [diagnose]; a key the
    fallback branch does not write is [None]. *)
Record DiagnosisInfo := mkDiagnosisInfo {
  cause : string;
  cause_ar : option string;
  category : string;
  confidence : num;
  solutions : list string;
  solutions_ar : option (list string);
  explanation : string;
  rule_id : option string
}.

(** The dict [diagnose] returns; ["inference_trace"] is the engine's own
    list object, held by reference. *)
Record DiagnosisResult := mkDiagnosisResult {
  success : bool;
  diagnosis : DiagnosisInfo;
  alternative_diagnoses : list Diagnosis;
  trace_ref : nat
}.

(** [InferenceEngine.diagnose] *)
Definition diagnose (device_type category : string) (symptoms : list (string * Value))
    : M DiagnosisResult :=
  reset ;;
  add_fact "device" (VStr device_type) ;;
  add_facts symptoms ;;
  let* diagnoses := forward_chain (Some device_type) (Some category) lit_0_3 in
  let* trace := gets inference_trace in
  match diagnoses with
  | best :: others =>
      ret {| success := true;
             diagnosis :=
               {| cause := d_cause best;
                  cause_ar := Some (d_cause_ar best);
                  category := d_category best;
                  confidence := d_confidence best;
                  solutions := d_solutions best;
                  solutions_ar := Some (d_solutions_ar best);
                  explanation := d_explanation best;
                  rule_id := Some (d_rule_id best) |};
             alternative_diagnoses := take 2 others;
             trace_ref := trace |}
  | [] =>
      ret {| success := false;
             diagnosis :=
               {| cause := "General " +:+ PyStr.replace "_" " " category +:+ " issue";
                  cause_ar := None;
                  category := category;
                  confidence := lit_0_5;
                  solutions := _get_general_solutions category device_type;
                  solutions_ar := None;
                  explanation :=
                    "Based on the symptoms provided, this appears to be a "
                    +:+ PyStr.replace "_" " " category +:+ " problem. Consider the general "
                    +:+ "troubleshooting steps recommended.";
                  rule_id := None |};
             alternative_diagnoses := [];
             trace_ref := trace |}
  end.

(** What a caller reads in a result: the dict with its trace list looked up
    in the store as it is at that moment. *)
Definition observe (st : State) (r : DiagnosisResult)
    : bool * DiagnosisInfo * list Diagnosis * list string :=
  (success r, diagnosis r, alternative_diagnoses r, default [] (heap st !! trace_ref r)).

End Model.

(** ** The laws in the two number models *)

(** The rationals satisfy the order laws. *)
#[export] Instance QNumLaws : PyNumLaws Q.
Proof.
  split; unfold defined; cbn [nleb nltb neqb of_nat ndiv QNum].
  - intros a b _ _. destruct (Qlt_le_dec b a) as [Hlt | Hle].
    + right. apply Qle_bool_iff. now apply Qlt_le_weak.
    + left. now apply Qle_bool_iff.
  - intros a b c Hab Hbc. apply Qle_bool_iff.
    apply Qle_bool_iff in Hab. apply Qle_bool_iff in Hbc. eapply Qle_trans; eauto.
  - intros a b _. split; apply Qeq_bool_iff; reflexivity.
  - intros a b. destruct (Qle_bool b a) eqn:E; cbn; [now rewrite andb_false_r|].
    rewrite andb_true_r. symmetry. apply Qle_bool_iff.
    destruct (Qlt_le_dec a b) as [Hlt | Hle]; [now apply Qlt_le_weak|].
    apply Qle_bool_iff in Hle. congruence.
  - intros a b. apply eq_true_iff_eq. rewrite andb_true_iff, Qeq_bool_iff, !Qle_bool_iff.
    split.
    + intros Heq. rewrite Heq. split; apply Qle_refl.
    + intros [Hab Hba]. now apply Qle_antisym.
  - reflexivity.
Qed.

(** The quotients of lengths of any size behave in the rationals. *)
#[export] Instance QNumQuotients (limit : nat) : PyNumQuotients Q limit.
Proof.
  split; cbn [nleb of_nat ndiv QNum].
  - reflexivity.
  - reflexivity.
  - intros m n Hn _ _. apply Qle_bool_iff. apply Qle_shift_div_l.
    + replace 0%Q with (inject_Z 0) by reflexivity. rewrite <- Zlt_Qlt. lia.
    + rewrite Qmult_0_l. replace 0%Q with (inject_Z 0) by reflexivity.
      rewrite <- Zle_Qle. lia.
  - intros m n Hn _ Hmn. apply Qle_bool_iff. apply Qle_shift_div_r.
    + replace 0%Q with (inject_Z 0) by reflexivity. rewrite <- Zlt_Qlt. lia.
    + rewrite Qmult_1_l. rewrite <- Zle_Qle. lia.
  - intros m m' n Hn _ Hmm _. apply Qle_bool_iff. unfold Qdiv.
    apply Qmult_le_compat_r.
    + rewrite <- Zle_Qle. lia.
    + apply Qinv_le_0_compat. replace 0%Q with (inject_Z 0) by reflexivity.
      rewrite <- Zle_Qle. lia.
Qed.

(** *** The order of binary64

    The comparison of two floats neither of which is a NaN is the
    comparison of their places on a line: the negative infinity, the
    negative finite numbers by falling exponent and mantissa, the zeros,
    the positive finite numbers by rising exponent and mantissa, the
    positive infinity. *)
Module Binary64.

Local Open Scope Z_scope.

Definition place (x : spec_float) : Z * Z * Z :=
  match x with
  | S754_infinity true => (-2, 0, 0)
  | S754_finite true m e => (-1, - e, Zneg m)
  | S754_zero _ => (0, 0, 0)
  | S754_nan => (0, 0, 0)
  | S754_finite false m e => (1, e, Zpos m)
  | S754_infinity false => (2, 0, 0)
  end.

Definition compare_places (a b : Z * Z * Z) : comparison :=
  match fst (fst a) ?= fst (fst b) with
  | Eq => match snd (fst a) ?= snd (fst b) with
          | Eq => snd a ?= snd b
          | c => c
          end
  | c => c
  end.

Definition is_nan (x : spec_float) : bool :=
  match x with
  | S754_nan => true
  | _ => false
  end.

Lemma SFcompare_nan_l y : SFcompare S754_nan y = None.
Proof. reflexivity. Qed.

Lemma SFcompare_nan_r x : SFcompare x S754_nan = None.
Proof. destruct x as [[]|[]| |[] m e]; reflexivity. Qed.

Lemma SFcompare_places x y :
  is_nan x = false -> is_nan y = false ->
  SFcompare x y = Some (compare_places (place x) (place y)).
Proof.
  assert (Hopp : forall a b, (- a ?= - b) = CompOpp (a ?= b)).
  { intros a b. rewrite Z.compare_opp. now rewrite Z.compare_antisym. }
  destruct x as [[]|[]| |[] m1 e1], y as [[]|[]| |[] m2 e2];
    cbn [is_nan]; try discriminate; intros _ _; try reflexivity;
    unfold SFcompare, compare_places, place; cbn [fst snd Z.compare]; f_equal.
  change (CompOpp (1 ?= 1)%positive) with Eq. cbv iota.
  rewrite Hopp. destruct (e1 ?= e2); reflexivity.
Qed.

(** The four comparisons of two places. *)
Definition le (a b : Z * Z * Z) : Prop :=
  fst (fst a) < fst (fst b) \/
  (fst (fst a) = fst (fst b) /\
   (snd (fst a) < snd (fst b) \/ (snd (fst a) = snd (fst b) /\ snd a <= snd b))).

Lemma compare_places_le a b : compare_places a b <> Gt <-> le a b.
Proof.
  unfold compare_places, le.
  destruct (Z.compare_spec (fst (fst a)) (fst (fst b)));
    destruct (Z.compare_spec (snd (fst a)) (snd (fst b)));
    destruct (Z.compare_spec (snd a) (snd b));
    split; try congruence; try lia; intros _; discriminate.
Qed.

Lemma le_total a b : le a b \/ le b a.
Proof. unfold le. lia. Qed.

Lemma le_trans a b c : le a b -> le b c -> le a c.
Proof. unfold le. lia. Qed.

Lemma compare_places_eq a b : compare_places a b = Eq <-> le a b /\ le b a.
Proof.
  unfold compare_places, le.
  destruct (Z.compare_spec (fst (fst a)) (fst (fst b)));
    destruct (Z.compare_spec (snd (fst a)) (snd (fst b)));
    destruct (Z.compare_spec (snd a) (snd b));
    split; try congruence; try lia; intros _; discriminate.
Qed.

Lemma compare_places_lt a b : compare_places a b = Lt <-> le a b /\ ~ le b a.
Proof.
  unfold compare_places, le.
  destruct (Z.compare_spec (fst (fst a)) (fst (fst b)));
    destruct (Z.compare_spec (snd (fst a)) (snd (fst b)));
    destruct (Z.compare_spec (snd a) (snd b));
    split; try congruence; try lia; intros _; discriminate.
Qed.

Lemma SFleb_spec x y :
  SFleb x y = true <-> is_nan x = false /\ is_nan y = false /\ le (place x) (place y).
Proof.
  unfold SFleb. destruct (is_nan x) eqn:Hx.
  { destruct x; try discriminate. cbn. intuition discriminate. }
  destruct (is_nan y) eqn:Hy.
  { destruct y; try discriminate. rewrite SFcompare_nan_r. intuition discriminate. }
  rewrite SFcompare_places by assumption. rewrite <- compare_places_le.
  destruct (compare_places (place x) (place y)); intuition congruence.
Qed.

Lemma SFeqb_spec x y : SFeqb x y = SFleb x y && SFleb y x.
Proof.
  apply eq_true_iff_eq. rewrite andb_true_iff, !SFleb_spec. unfold SFeqb.
  destruct (is_nan x) eqn:Hx.
  { destruct x; try discriminate. cbn. intuition discriminate. }
  destruct (is_nan y) eqn:Hy.
  { destruct y; try discriminate. rewrite SFcompare_nan_r. intuition discriminate. }
  rewrite SFcompare_places by assumption.
  pose proof (compare_places_eq (place x) (place y)) as H.
  destruct (compare_places (place x) (place y)); intuition congruence.
Qed.

Lemma SFltb_spec x y : SFltb x y = SFleb x y && negb (SFleb y x).
Proof.
  apply eq_true_iff_eq. rewrite andb_true_iff, negb_true_iff, <- not_true_iff_false, !SFleb_spec.
  unfold SFltb. destruct (is_nan x) eqn:Hx.
  { destruct x; try discriminate. cbn. intuition discriminate. }
  destruct (is_nan y) eqn:Hy.
  { destruct y; try discriminate. rewrite SFcompare_nan_r. intuition discriminate. }
  rewrite SFcompare_places by assumption.
  pose proof (compare_places_lt (place x) (place y)) as H.
  destruct (compare_places (place x) (place y)); intuition congruence.
Qed.

Lemma le_refl a : le a a.
Proof. unfold le. lia. Qed.

Lemma defined_spec (x : float) : (x =? x)%float = negb (is_nan (Prim2SF x)).
Proof.
  rewrite FloatAxioms.eqb_spec, SFeqb_spec, andb_diag. apply eq_true_iff_eq.
  rewrite SFleb_spec, negb_true_iff. pose proof (le_refl (place (Prim2SF x))). tauto.
Qed.

End Binary64.

(** Binary64 satisfies the order laws. *)
#[export] Instance FloatNumLaws : PyNumLaws float.
Proof.
  split; unfold defined; cbn [nleb nltb neqb of_nat FloatNum].
  - intros a b. rewrite !Binary64.defined_spec, !negb_true_iff, !FloatAxioms.leb_spec. intros Ha Hb.
    destruct (Binary64.le_total (Binary64.place (Prim2SF a)) (Binary64.place (Prim2SF b)));
      [left | right]; apply Binary64.SFleb_spec; auto.
  - intros a b c. rewrite !FloatAxioms.leb_spec, !Binary64.SFleb_spec.
    intros (Ha & Hb & Hab) (_ & Hc & Hbc). eauto using Binary64.le_trans.
  - intros a b. rewrite !Binary64.defined_spec, !negb_true_iff, FloatAxioms.leb_spec, Binary64.SFleb_spec.
    tauto.
  - intros a b. rewrite FloatAxioms.ltb_spec, !FloatAxioms.leb_spec. apply Binary64.SFltb_spec.
  - intros a b. rewrite FloatAxioms.eqb_spec, !FloatAxioms.leb_spec. apply Binary64.SFeqb_spec.
  - vm_compute. reflexivity.
Qed.

(** *** The quotients of lengths in binary64

    The float of an integer below [2^53] has the integer for its value, and
    the quotient of two such floats is their exact quotient rounded to 53
    significant bits, to nearest and ties to even; so the quotient of two
    lengths grows with the numerator and is at most 1 when the numerator is
    at most the denominator. What follows derives this from the
    specification of the primitive division. *)
Module Binary64Quotient.

Local Open Scope Z_scope.

Lemma digits2_size p : digits2_pos p = Pos.size p.
Proof. induction p; cbn; congruence. Qed.

Lemma size_log2 p : Zpos (Pos.size p) = Z.log2 (Zpos p) + 1.
Proof.
  destruct p; cbn [Z.log2]; rewrite ?Pos2Z.inj_succ; cbn; lia.
Qed.

Lemma Zdigits2_log2 q : 0 < q -> Zdigits2 q = Z.log2 q + 1.
Proof. destruct q; try lia. intros _. cbn [Zdigits2]. now rewrite digits2_size, size_log2. Qed.


(** Round to nearest, ties to even: [h] with the rest [r] out of [d]. *)
Definition rne (h r d : Z) : Z :=
  h + (if (d <? 2 * r) || ((2 * r =? d) && Z.odd h) then 1 else 0).

(** The quotient [N / D], at least [2^52], rounded to 53 significant bits. *)
Definition round53 (N D : Z) : Z :=
  let k := Z.log2 (N / D) - 52 in
  rne (N / (D * 2 ^ k)) (N mod (D * 2 ^ k)) (D * 2 ^ k) * 2 ^ k.

Lemma rne_bounds h r d : h <= rne h r d <= h + 1.
Proof. unfold rne. destruct (_ || _); lia. Qed.

Lemma rne_mono h r h' r' d :
  0 <= r < d -> 0 <= r' < d -> h * d + r <= h' * d + r' -> rne h r d <= rne h' r' d.
Proof.
  intros Hr Hr' Hle. destruct (Z.eq_dec h h') as [<-|Hne].
  - unfold rne. assert (r <= r') by nia.
    destruct (d <? 2 * r) eqn:E1, (d <? 2 * r') eqn:E2, (2 * r =? d) eqn:E3,
      (2 * r' =? d) eqn:E4, (Z.odd h); cbn; lia.
  - assert (h < h') by nia. pose proof (rne_bounds h r d). pose proof (rne_bounds h' r' d). lia.
Qed.

Lemma rne_double h r d : rne h (2 * r) (2 * d) = rne h r d.
Proof.
  unfold rne.
  replace (2 * d <? 2 * (2 * r)) with (d <? 2 * r)
    by (destruct (d <? 2 * r) eqn:E1, (2 * d <? 2 * (2 * r)) eqn:E2; lia).
  replace (2 * (2 * r) =? 2 * d) with (2 * r =? d)
    by (destruct (2 * r =? d) eqn:E1, (2 * (2 * r) =? 2 * d) eqn:E2; lia).
  reflexivity.
Qed.

Section Round53.

Variables N D : Z.
Hypothesis HD : 0 < D.
Hypothesis HN : 2 ^ 52 * D <= N.

Let k := Z.log2 (N / D) - 52.

Lemma round53_quot : 2 ^ 52 <= N / D.
Proof. apply Z.div_le_lower_bound; lia. Qed.

Lemma round53_k : 0 <= k.
Proof.
  unfold k. pose proof round53_quot.
  assert (Z.log2 (2 ^ 52) <= Z.log2 (N / D)) by now apply Z.log2_le_mono.
  rewrite Z.log2_pow2 in * by lia. lia.
Qed.

Lemma round53_head : 2 ^ 52 <= N / (D * 2 ^ k) < 2 ^ 53.
Proof.
  pose proof round53_k as Hk. pose proof round53_quot as Hq.
  rewrite <- Z.div_div by lia.
  destruct (Z.log2_spec (N / D)) as [Hlo Hhi]; [lia|].
  replace (Z.log2 (N / D)) with (52 + k) in Hlo by (unfold k; lia).
  replace (Z.succ (Z.log2 (N / D))) with (53 + k) in Hhi by (unfold k; lia).
  rewrite Z.pow_add_r in Hlo, Hhi by lia. split.
  - apply Z.div_le_lower_bound; lia.
  - apply Z.div_lt_upper_bound; lia.
Qed.

End Round53.

Lemma round53_mono N N' D :
  0 < D -> 2 ^ 52 * D <= N -> N <= N' -> round53 N D <= round53 N' D.
Proof.
  intros HD HN Hle. assert (HN' : 2 ^ 52 * D <= N') by lia.
  pose proof (round53_k N D HD HN) as Hk. pose proof (round53_k N' D HD HN') as Hk'.
  pose proof (round53_head N D HD HN) as Hh. pose proof (round53_head N' D HD HN') as Hh'.
  cbv zeta in *. unfold round53.
  set (k := Z.log2 (N / D) - 52) in *. set (k' := Z.log2 (N' / D) - 52) in *.
  assert (Hkk : k <= k').
  { unfold k, k'. assert (N / D <= N' / D) by (apply Z.div_le_mono; lia).
    assert (Z.log2 (N / D) <= Z.log2 (N' / D)) by now apply Z.log2_le_mono. lia. }
  assert (Hp : 0 < 2 ^ k) by (apply Z.pow_pos_nonneg; lia).
  assert (Hp' : 0 < 2 ^ k') by (apply Z.pow_pos_nonneg; lia).
  destruct (Z.eq_dec k k') as [<-|Hne].
  - apply Z.mul_le_mono_nonneg_r; [lia|].
    assert (Ha : 0 < D * 2 ^ k) by lia.
    apply rne_mono; try (apply Z.mod_pos_bound; lia).
    rewrite !(Z.mul_comm _ (D * 2 ^ k)), <- !Z.div_mod by lia. exact Hle.
  - pose proof (rne_bounds (N / (D * 2 ^ k)) (N mod (D * 2 ^ k)) (D * 2 ^ k)).
    pose proof (rne_bounds (N' / (D * 2 ^ k')) (N' mod (D * 2 ^ k')) (D * 2 ^ k')).
    assert (H2 : 2 ^ k' = 2 ^ (k' - k - 1) * 2 * 2 ^ k).
    { replace k' with ((k' - k - 1) + 1 + k) at 1 by lia.
      rewrite !Z.pow_add_r by lia. now rewrite Z.pow_1_r. }
    assert (0 < 2 ^ (k' - k - 1)) by (apply Z.pow_pos_nonneg; lia).
    set (A := rne (N / (D * 2 ^ k)) (N mod (D * 2 ^ k)) (D * 2 ^ k)) in *.
    set (B := rne (N' / (D * 2 ^ k')) (N' mod (D * 2 ^ k')) (D * 2 ^ k')) in *.
    rewrite H2. clear H2.
    set (Q := 2 ^ (k' - k - 1)) in *.
    replace (2 ^ 53) with (2 * 2 ^ 52) in * by reflexivity.
    set (c := 2 ^ 52) in *.
    assert (A <= B * (Q * 2)) by nia.
    replace (B * (Q * 2 * 2 ^ k)) with (B * (Q * 2) * 2 ^ k) by ring.
    apply Z.mul_le_mono_nonneg_r; lia.
Qed.

Lemma round53_double N D :
  0 < D -> 2 ^ 52 * D <= N -> round53 (2 * N) D = 2 * round53 N D.
Proof.
  intros HD HN. pose proof (round53_k N D HD HN) as Hk. pose proof (round53_quot N D HD HN) as Hq.
  cbv zeta in *. unfold round53.
  assert (Hlog : Z.log2 (2 * N / D) = Z.log2 (N / D) + 1).
  { assert (Hc : 2 * N / D = 2 * (N / D) \/ 2 * N / D = 2 * (N / D) + 1).
    { pose proof (Z.div_mod N D ltac:(lia)) as Hdm.
      pose proof (Z.mod_pos_bound N D HD) as Hb.
      destruct (Z_lt_le_dec (2 * (N mod D)) D).
      - left. symmetry. apply (Z.div_unique _ _ _ (2 * (N mod D))); lia.
      - right. symmetry. apply (Z.div_unique _ _ _ (2 * (N mod D) - D)); lia. }
    destruct Hc as [-> | ->]; [rewrite Z.log2_double | rewrite Z.log2_succ_double]; lia. }
  rewrite Hlog. set (k := Z.log2 (N / D) - 52) in *.
  replace (Z.log2 (N / D) + 1 - 52) with (k + 1) by (unfold k; lia).
  assert (Hp : 0 < 2 ^ k) by (apply Z.pow_pos_nonneg; lia).
  rewrite Z.pow_add_r, Z.pow_1_r by lia.
  replace (D * (2 ^ k * 2)) with (2 * (D * 2 ^ k)) by lia.
  rewrite Z.div_mul_cancel_l by lia. rewrite Z.mul_mod_distr_l by lia.
  rewrite rne_double. lia.
Qed.

(** ** The rounding of [SpecFloat] on a mantissa of 53 or 54 bits *)

Lemma fexp_normal e : -1021 <= e -> fexp prec emax e = e - 53.
Proof. intros H. unfold fexp, emin, prec, emax. lia. Qed.

(** The float of mantissa [R], between [2^52] and [2^53], and exponent [e]. *)
Definition normal (R e : Z) : spec_float :=
  if R <? 2 ^ 53 then S754_finite false (Z.to_pos R) e
  else S754_finite false (Z.to_pos (2 ^ 52)) (e + 1).

Lemma shr_fexp_53 m e l :
  2 ^ 52 <= m < 2 ^ 53 -> -1074 <= e ->
  shr_fexp prec emax m e l = (shr_record_of_loc m l, e).
Proof.
  intros Hm He. unfold shr_fexp. rewrite Zdigits2_log2 by lia.
  rewrite (Z.log2_unique m 52) by (cbn; lia).
  rewrite fexp_normal by lia. replace (52 + 1 + e - 53 - e) with 0 by lia. reflexivity.
Qed.

Lemma shr_fexp_54 m e l :
  2 ^ 53 <= m < 2 ^ 54 -> -1075 <= e ->
  shr_fexp prec emax m e l = (shr_1 (shr_record_of_loc m l), e + 1).
Proof.
  intros Hm He. unfold shr_fexp. rewrite Zdigits2_log2 by lia.
  rewrite (Z.log2_unique m 53) by (cbn; lia).
  rewrite fexp_normal by lia. replace (53 + 1 + e - 53 - e) with 1 by lia. reflexivity.
Qed.

Lemma binary_round_aux_finish R e :
  2 ^ 52 <= R <= 2 ^ 53 -> -1074 <= e <= 969 ->
  (let '(mrs, e'') := shr_fexp prec emax R e loc_Exact in
   match shr_m mrs with
   | Z0 => S754_zero false
   | Zpos m => if Z.leb e'' (emax - prec) then S754_finite false m e'' else S754_infinity false
   | Zneg _ => S754_nan
   end) = normal R e.
Proof.
  intros HR He. unfold normal. destruct (R <? 2 ^ 53) eqn:E.
  - rewrite shr_fexp_53 by lia. cbn [shr_record_of_loc shr_m].
    destruct R; try lia. cbn [Z.to_pos].
    replace (e <=? emax - prec) with true by (unfold emax, prec; lia). reflexivity.
  - assert (R = 2 ^ 53) as -> by lia.
    rewrite shr_fexp_54 by lia. cbn [shr_record_of_loc shr_1 shr_m].
    replace (e + 1 <=? emax - prec) with true by (unfold emax, prec; lia). reflexivity.
Qed.

Lemma round_nearest_even_bounds m l : m <= round_nearest_even m l <= m + 1.
Proof. destruct l as [|[]]; cbn; try lia. destruct (Z.even m); lia. Qed.

Lemma shr_record_of_loc_m m l : shr_m (shr_record_of_loc m l) = m.
Proof. destruct l as [|[]]; reflexivity. Qed.

Lemma loc_of_shr_record_of_loc m l : loc_of_shr_record (shr_record_of_loc m l) = l.
Proof. destruct l as [|[]]; reflexivity. Qed.

Lemma binary_round_aux_53 q e l :
  2 ^ 52 <= q < 2 ^ 53 -> -1074 <= e <= 969 ->
  binary_round_aux prec emax false q e l = normal (round_nearest_even q l) e.
Proof.
  intros Hq He. unfold binary_round_aux. rewrite shr_fexp_53 by lia.
  rewrite shr_record_of_loc_m, loc_of_shr_record_of_loc.
  apply binary_round_aux_finish; [|lia].
  pose proof (round_nearest_even_bounds q l). lia.
Qed.

(** The record after one shift to the right. *)
Lemma shr_1_spec m r s :
  0 < m ->
  shr_1 {| shr_m := m; shr_r := r; shr_s := s |}
  = {| shr_m := m / 2; shr_r := Z.odd m; shr_s := r || s |}.
Proof.
  intros Hm. destruct m as [|p|p]; try lia. destruct p; cbn [shr_1 Z.odd].
  - f_equal. rewrite Pos2Z.inj_xI. apply (Z.div_unique _ _ _ 1); lia.
  - f_equal. rewrite Pos2Z.inj_xO. apply (Z.div_unique _ _ _ 0); lia.
  - reflexivity.
Qed.

Definition inexact (l : location) : bool :=
  match l with
  | loc_Exact => false
  | _ => true
  end.

Lemma shr_1_of_loc m l :
  0 < m ->
  shr_1 (shr_record_of_loc m l)
  = {| shr_m := m / 2; shr_r := Z.odd m; shr_s := inexact l |}.
Proof. intros Hm. destruct l as [|[]]; cbn [shr_record_of_loc]; now rewrite shr_1_spec. Qed.

Lemma binary_round_aux_54 q e l :
  2 ^ 53 <= q < 2 ^ 54 -> -1075 <= e <= 968 ->
  binary_round_aux prec emax false q e l
  = normal (round_nearest_even (q / 2)
              (loc_of_shr_record {| shr_m := q / 2; shr_r := Z.odd q; shr_s := inexact l |}))
           (e + 1).
Proof.
  intros Hq He. unfold binary_round_aux. rewrite shr_fexp_54 by lia.
  rewrite shr_1_of_loc by lia. cbn [shr_m].
  apply binary_round_aux_finish; [|lia].
  pose proof (round_nearest_even_bounds (q / 2)
    (loc_of_shr_record {| shr_m := q / 2; shr_r := Z.odd q; shr_s := inexact l |})).
  assert (2 ^ 52 <= q / 2 < 2 ^ 53).
  { split; [apply Z.div_le_lower_bound | apply Z.div_lt_upper_bound]; lia. }
  lia.
Qed.

(** ** The location of a remainder and the rounding it gives *)

Lemma inexact_new_location d r :
  inexact (new_location d r) = negb (r =? 0).
Proof.
  unfold new_location, new_location_even, new_location_odd.
  destruct (Z.even d), (r =? 0); reflexivity.
Qed.

Lemma round_new_location q r d :
  0 < d -> 0 <= r < d -> round_nearest_even q (new_location d r) = rne q r d.
Proof.
  intros Hd Hr. unfold new_location, new_location_even, new_location_odd, rne.
  rewrite <- Z.negb_even.
  destruct (Z.even d) eqn:Ed.
  - destruct (Z.eqb_spec r 0) as [->|Hne].
    + cbn [round_nearest_even]. replace (d <? 2 * 0) with false by lia.
      replace (2 * 0 =? d) with false by lia. cbn. lia.
    + destruct (Z.compare_spec (2 * r) d); cbn [round_nearest_even].
      * replace (d <? 2 * r) with false by lia. replace (2 * r =? d) with true by lia.
        cbn. destruct (Z.even q); cbn; lia.
      * replace (d <? 2 * r) with false by lia. replace (2 * r =? d) with false by lia.
        cbn. lia.
      * replace (d <? 2 * r) with true by lia. cbn. lia.
  - assert (Hodd : Z.odd d = true) by (rewrite <- Z.negb_even, Ed; reflexivity).
    apply Z.odd_spec in Hodd as [d' Hd'].
    destruct (Z.eqb_spec r 0) as [->|Hne].
    + cbn [round_nearest_even]. replace (d <? 2 * 0) with false by lia.
      replace (2 * 0 =? d) with false by lia. cbn. lia.
    + destruct (Z.compare_spec (2 * r + 1) d); cbn [round_nearest_even].
      * replace (d <? 2 * r) with false by lia. replace (2 * r =? d) with false by lia.
        cbn. lia.
      * replace (d <? 2 * r) with false by lia. replace (2 * r =? d) with false by lia.
        cbn. lia.
      * replace (d <? 2 * r) with true by lia. cbn. lia.
Qed.

Lemma round_shifted q r d :
  0 < d -> 0 <= r < d -> 0 <= q ->
  round_nearest_even (q / 2)
    (loc_of_shr_record
       {| shr_m := q / 2; shr_r := Z.odd q; shr_s := inexact (new_location d r) |})
  = rne ((q * d + r) / (d * 2)) ((q * d + r) mod (d * 2)) (d * 2).
Proof.
  intros Hd Hr Hq. rewrite inexact_new_location.
  pose proof (Z.div_mod q 2 ltac:(lia)) as Hq2.
  pose proof (Z.mod_pos_bound q 2 ltac:(lia)) as Hb.
  assert (Hdiv : (q * d + r) / (d * 2) = q / 2).
  { symmetry. apply (Z.div_unique _ _ _ ((q mod 2) * d + r)); nia. }
  assert (Hmod : (q * d + r) mod (d * 2) = (q mod 2) * d + r).
  { symmetry. apply (Z.mod_unique _ _ (q / 2)); nia. }
  rewrite Hdiv, Hmod. unfold rne. rewrite Zmod_odd in *.
  destruct (Z.odd q), (Z.eqb_spec r 0) as [->|Hne]; cbn [negb loc_of_shr_record round_nearest_even].
  - replace (d * 2 <? 2 * (1 * d + 0)) with false by lia.
    replace (2 * (1 * d + 0) =? d * 2) with true by lia. cbn [orb andb negb].
    rewrite <- Z.negb_even. destruct (Z.even (q / 2)); cbn [orb andb negb]; lia.
  - replace (d * 2 <? 2 * (1 * d + r)) with true by lia. cbn [orb andb negb]. lia.
  - replace (d * 2 <? 2 * (0 * d + 0)) with false by lia.
    replace (2 * (0 * d + 0) =? d * 2) with false by lia. cbn [orb andb negb]. lia.
  - replace (d * 2 <? 2 * (0 * d + r)) with false by lia.
    replace (2 * (0 * d + r) =? d * 2) with false by lia. cbn [orb andb negb]. lia.
Qed.

(** ** The quotient of two floats with mantissas of 53 bits *)

Lemma SFdiv_normal (mx my : positive) (ex ey : Z) :
  2 ^ 52 <= Zpos mx < 2 ^ 53 -> 2 ^ 52 <= Zpos my < 2 ^ 53 ->
  -52 <= ex <= 0 -> -52 <= ey <= 0 ->
  exists R k,
    0 <= k <= 1 /\ 2 ^ 52 <= R <= 2 ^ 53 /\
    R * 2 ^ k = round53 (Zpos mx * 2 ^ 53) (Zpos my) /\
    SF64div (S754_finite false mx ex) (S754_finite false my ey)
    = normal R (ex - ey - 53 + k).
Proof.
  intros Hmx Hmy Hex Hey.
  unfold SF64div, SFdiv, SFdiv_core_binary. cbn [xorb].
  rewrite !Zdigits2_log2 by lia.
  rewrite (Z.log2_unique (Zpos mx) 52), (Z.log2_unique (Zpos my) 52) by (cbn; lia).
  rewrite fexp_normal by lia.
  replace (Z.min (52 + 1 + ex - (52 + 1 + ey) - 53) (ex - ey)) with (ex - ey - 53) by lia.
  replace (ex - ey - (ex - ey - 53)) with 53 by lia.
  rewrite Z.shiftl_mul_pow2 by lia.
  set (N := Zpos mx * 2 ^ 53).
  pose proof (Z.div_mod N (Zpos my) ltac:(lia)) as Hdm.
  pose proof (Z.mod_pos_bound N (Zpos my) ltac:(lia)) as Hr.
  assert (Hq : 2 ^ 52 <= N / Zpos my < 2 ^ 54).
  { split; [apply Z.div_le_lower_bound | apply Z.div_lt_upper_bound]; unfold N; lia. }
  destruct (Z.div_eucl N (Zpos my)) as [q r] eqn:Eqr.
  assert (q = N / Zpos my) as Eq by (unfold Z.div; now rewrite Eqr).
  assert (r = N mod Zpos my) as Er by (unfold Z.modulo; now rewrite Eqr).
  rewrite <- Eq, <- Er in *. clear Eqr.
  destruct (Z_lt_le_dec q (2 ^ 53)) as [Hlt|Hge].
  - exists (rne q r (Zpos my)), 0. split; [lia|]. split; [|split].
    + pose proof (rne_bounds q r (Zpos my)). lia.
    + unfold round53. rewrite <- Eq. rewrite (Z.log2_unique q 52) by (cbn; lia).
      replace (52 - 52) with 0 by lia. rewrite Z.pow_0_r, !Z.mul_1_r, <- Eq, <- Er. reflexivity.
    + rewrite binary_round_aux_53 by lia. rewrite round_new_location by lia.
      f_equal. lia.
  - exists (rne (N / (Zpos my * 2)) (N mod (Zpos my * 2)) (Zpos my * 2)), 1.
    split; [lia|]. split; [|split].
    + pose proof (rne_bounds (N / (Zpos my * 2)) (N mod (Zpos my * 2)) (Zpos my * 2)).
      assert (2 ^ 52 <= N / (Zpos my * 2) < 2 ^ 53).
      { rewrite <- Z.div_div by lia. rewrite <- Eq.
        split; [apply Z.div_le_lower_bound | apply Z.div_lt_upper_bound]; lia. }
      lia.
    + unfold round53. rewrite <- Eq. rewrite (Z.log2_unique q 53) by (cbn; lia).
      replace (53 - 52) with 1 by lia. rewrite Z.pow_1_r. reflexivity.
    + rewrite binary_round_aux_54 by lia. rewrite round_shifted by lia.
      replace (q * Zpos my + r) with N by lia. reflexivity.
Qed.

(** ** The float of an integer below [2^53] *)

Lemma pos_iter_xO p k : Zpos (Pos.iter xO p k) = Zpos p * 2 ^ Zpos k.
Proof.
  induction k as [|k IH] using Pos.peano_ind.
  - cbn [Pos.iter]. rewrite Pos2Z.inj_xO. change (2 ^ 1) with 2. lia.
  - rewrite Pos.iter_succ, Pos2Z.inj_xO, IH, Pos2Z.inj_succ, Z.pow_succ_r by lia. lia.
Qed.

(** Mantissa and exponent of the integer [z]. *)
Definition mantissa (z : Z) : Z := z * 2 ^ (52 - Z.log2 z).
Definition exponent (z : Z) : Z := Z.log2 z - 52.

Lemma mantissa_bounds z : 0 < z < 2 ^ 53 -> 2 ^ 52 <= mantissa z < 2 ^ 53.
Proof.
  intros Hz. unfold mantissa.
  destruct (Z.log2_spec z) as [Hlo Hhi]; [lia|].
  assert (Hl : 0 <= Z.log2 z) by apply Z.log2_nonneg.
  assert (Hl' : Z.log2 z < 53) by (apply Z.log2_lt_pow2; lia).
  assert (H52 : 2 ^ 52 = 2 ^ Z.log2 z * 2 ^ (52 - Z.log2 z)).
  { rewrite <- Z.pow_add_r by lia. f_equal. lia. }
  assert (H53 : 2 ^ 53 = 2 ^ Z.succ (Z.log2 z) * 2 ^ (52 - Z.log2 z)).
  { rewrite <- Z.pow_add_r by lia. f_equal. lia. }
  assert (0 < 2 ^ (52 - Z.log2 z)) by (apply Z.pow_pos_nonneg; lia).
  rewrite H52 at 1. rewrite H53. split.
  - apply Z.mul_le_mono_nonneg_r; lia.
  - apply Z.mul_lt_mono_pos_r; lia.
Qed.

Lemma exponent_bounds z : 0 < z < 2 ^ 53 -> -52 <= exponent z <= 0.
Proof.
  intros Hz. unfold exponent.
  assert (Hl : 0 <= Z.log2 z) by apply Z.log2_nonneg.
  assert (Hl' : Z.log2 z < 53) by (apply Z.log2_lt_pow2; lia). lia.
Qed.

Lemma binary_normalize_int z :
  0 < z < 2 ^ 53 ->
  binary_normalize prec emax z 0 false
  = S754_finite false (Z.to_pos (mantissa z)) (exponent z).
Proof.
  intros Hz. pose proof (mantissa_bounds z Hz) as Hm. pose proof (exponent_bounds z Hz) as He.
  destruct z as [|p|p]; try lia. cbn [binary_normalize]. unfold binary_round.
  rewrite digits2_size, size_log2, fexp_normal by (pose proof (Z.log2_nonneg (Zpos p)); lia).
  replace (Z.log2 (Zpos p) + 1 + 0 - 53) with (exponent (Zpos p)) by (unfold exponent; lia).
  assert (Hal : shl_align p 0 (exponent (Zpos p))
                = (Z.to_pos (mantissa (Zpos p)), exponent (Zpos p))).
  { unfold shl_align, mantissa. rewrite Z.sub_0_r.
    replace (52 - Z.log2 (Zpos p)) with (- exponent (Zpos p)) by (unfold exponent; lia).
    destruct (exponent (Zpos p)) as [|k|k] eqn:E; try lia.
    - change (- 0) with 0. rewrite Z.pow_0_r, Z.mul_1_r. reflexivity.
    - change (- Z.neg k) with (Z.pos k). rewrite <- pos_iter_xO. reflexivity. }
  rewrite Hal. rewrite Z2Pos.id by lia.
  rewrite binary_round_aux_53 by lia. cbn [round_nearest_even]. unfold normal.
  replace (mantissa (Zpos p) <? 2 ^ 53) with true by lia. reflexivity.
Qed.

(** ** Order of two floats from the order of their values *)

Lemma order_of_values M1 E1 M2 E2 e :
  2 ^ 52 <= M1 < 2 ^ 53 -> 2 ^ 52 <= M2 < 2 ^ 53 -> e <= E1 -> e <= E2 ->
  M1 * 2 ^ (E1 - e) <= M2 * 2 ^ (E2 - e) ->
  E1 < E2 \/ (E1 = E2 /\ M1 <= M2).
Proof.
  intros H1 H2 He1 He2 Hle.
  assert (Hp : 0 < 2 ^ (E2 - e)) by (apply Z.pow_pos_nonneg; lia).
  destruct (Z.lt_trichotomy E1 E2) as [Hlt|[->|Hgt]]; [now left| |].
  - right. split; [reflexivity|]. now apply (Z.mul_le_mono_pos_r _ _ (2 ^ (E2 - e))).
  - exfalso. replace (E1 - e) with ((E1 - E2 - 1) + 1 + (E2 - e)) in Hle by lia.
    rewrite !Z.pow_add_r, Z.pow_1_r in Hle by lia.
    assert (0 < 2 ^ (E1 - E2 - 1)) by (apply Z.pow_pos_nonneg; lia).
    replace (2 ^ 53) with (2 * 2 ^ 52) in * by reflexivity.
    set (c := 2 ^ 52) in *. set (P := 2 ^ (E2 - e)) in *. set (Q := 2 ^ (E1 - E2 - 1)) in *.
    assert (Hc : 0 < c) by (unfold c; lia). clearbody c P Q.
    assert (M2 * P < 2 * c * P) by (apply Z.mul_lt_mono_pos_r; lia).
    assert (2 * c <= M1 * (Q * 2)) by nia.
    assert (2 * c * P <= M1 * (Q * 2) * P) by (apply Z.mul_le_mono_nonneg_r; lia).
    replace (M1 * (Q * 2 * P)) with (M1 * (Q * 2) * P) in Hle by ring. lia.
Qed.

(** Mantissa and exponent of [normal R E]. *)
Lemma normal_spec R E e :
  2 ^ 52 <= R <= 2 ^ 53 -> e <= E ->
  exists M E',
    normal R E = S754_finite false (Z.to_pos M) E' /\
    2 ^ 52 <= M < 2 ^ 53 /\ e <= E' /\ M * 2 ^ (E' - e) = R * 2 ^ (E - e).
Proof.
  intros HR He. unfold normal. destruct (R <? 2 ^ 53) eqn:E53.
  - exists R, E. repeat split; lia.
  - exists (2 ^ 52), (E + 1). assert (R = 2 ^ 53) as -> by lia.
    split; [reflexivity|]. split; [lia|]. split; [lia|].
    replace (E + 1 - e) with (1 + (E - e)) by lia.
    rewrite Z.pow_add_r, Z.pow_1_r by lia. replace (2 ^ 53) with (2 ^ 52 * 2) by reflexivity.
    ring.
Qed.

Lemma SFleb_normal R1 E1 R2 E2 e :
  2 ^ 52 <= R1 <= 2 ^ 53 -> 2 ^ 52 <= R2 <= 2 ^ 53 -> e <= E1 -> e <= E2 ->
  R1 * 2 ^ (E1 - e) <= R2 * 2 ^ (E2 - e) ->
  SFleb (normal R1 E1) (normal R2 E2) = true.
Proof.
  intros H1 H2 He1 He2 Hle.
  destruct (normal_spec R1 E1 e H1 He1) as (M1 & F1 & -> & HM1 & HF1 & Hv1).
  destruct (normal_spec R2 E2 e H2 He2) as (M2 & F2 & -> & HM2 & HF2 & Hv2).
  apply Binary64.SFleb_spec. split; [reflexivity|]. split; [reflexivity|].
  unfold Binary64.le, Binary64.place. cbn [fst snd]. right. split; [reflexivity|].
  rewrite !Z2Pos.id by lia.
  apply (order_of_values M1 F1 M2 F2 e); try assumption. lia.
Qed.

Lemma round53_pow2 j : 0 <= j -> forall N D,
  0 < D -> 2 ^ 52 * D <= N -> round53 (2 ^ j * N) D = 2 ^ j * round53 N D.
Proof.
  intros Hj. pattern j. apply natlike_ind; [| |exact Hj].
  - intros N D HD HN. rewrite Z.pow_0_r. now rewrite !Z.mul_1_l.
  - intros i Hi IH N D HD HN. rewrite Z.pow_succ_r by lia.
    assert (0 < 2 ^ i) by (apply Z.pow_pos_nonneg; lia).
    rewrite <- !Z.mul_assoc, round53_double by nia. now rewrite IH.
Qed.

Lemma round53_exact j D : 0 < D -> 52 <= j -> round53 (D * 2 ^ j) D = 2 ^ j.
Proof.
  intros HD Hj. unfold round53.
  rewrite (Z.mul_comm D), Z.div_mul by lia. rewrite Z.log2_pow2 by lia.
  replace (2 ^ j) with (2 ^ 52 * 2 ^ (j - 52)) at 1 2
    by (rewrite <- Z.pow_add_r by lia; f_equal; lia).
  assert (Hp : 0 < 2 ^ (j - 52)) by (apply Z.pow_pos_nonneg; lia).
  replace (2 ^ 52 * 2 ^ (j - 52) * D) with (2 ^ 52 * (D * 2 ^ (j - 52))) by ring.
  rewrite Z.div_mul, Z.mod_mul by lia. unfold rne.
  replace (D * 2 ^ (j - 52) <? 2 * 0) with false by lia.
  replace (2 * 0 =? D * 2 ^ (j - 52)) with false by lia. cbn [orb andb].
  rewrite Z.add_0_r, <- Z.pow_add_r by lia. f_equal. lia.
Qed.

(** ** The quotient of two lengths in binary64 *)

Lemma of_nat_spec (n : nat) :
  Z.of_nat n < 2 ^ 53 ->
  Prim2SF (of_nat n) =
  match n with
  | O => S754_zero false
  | S _ => S754_finite false (Z.to_pos (mantissa (Z.of_nat n))) (exponent (Z.of_nat n))
  end.
Proof.
  intros Hn. cbn [of_nat FloatNum]. rewrite FloatAxioms.of_uint63_spec, Uint63.of_Z_spec.
  rewrite Z.mod_small by (change wB with (2 ^ 63); lia).
  destruct n as [|n]; [reflexivity|]. apply binary_normalize_int. lia.
Qed.

Lemma quotient_spec (m n : nat) :
  (0 < m)%nat -> (0 < n)%nat -> Z.of_nat m < 2 ^ 53 -> Z.of_nat n < 2 ^ 53 ->
  exists R E,
    2 ^ 52 <= R <= 2 ^ 53 /\
    -105 - exponent (Z.of_nat n) <= E /\
    R * 2 ^ (E - (-105 - exponent (Z.of_nat n)))
      = round53 (Z.of_nat m * 2 ^ 105) (mantissa (Z.of_nat n)) /\
    Prim2SF (ndiv (of_nat m) (of_nat n)) = normal R E.
Proof.
  intros Hm Hn Hm53 Hn53. cbn [ndiv FloatNum]. rewrite FloatAxioms.div_spec, !of_nat_spec by assumption.
  destruct m as [|m']; [lia|]. destruct n as [|n']; [lia|].
  set (zm := Z.of_nat (S m')) in *. set (zn := Z.of_nat (S n')) in *.
  pose proof (mantissa_bounds zm ltac:(lia)) as Hmx.
  pose proof (mantissa_bounds zn ltac:(lia)) as Hmy.
  pose proof (exponent_bounds zm ltac:(lia)) as Hex.
  pose proof (exponent_bounds zn ltac:(lia)) as Hey.
  destruct (SFdiv_normal (Z.to_pos (mantissa zm)) (Z.to_pos (mantissa zn))
              (exponent zm) (exponent zn)) as (R & k & Hk & HR & Hval & Hdiv);
    rewrite ?Z2Pos.id by lia; try assumption.
  rewrite !Z2Pos.id in Hval by lia.
  exists R, (exponent zm - exponent zn - 53 + k).
  split; [exact HR|]. split; [lia|]. split; [|exact Hdiv].
  replace (exponent zm - exponent zn - 53 + k - (-105 - exponent zn))
    with (k + Z.log2 zm) by (unfold exponent; lia).
  assert (Hl : 0 <= Z.log2 zm) by apply Z.log2_nonneg.
  rewrite Z.pow_add_r, Z.mul_assoc, Hval by lia.
  rewrite Z.mul_comm, <- round53_pow2 by (try lia; nia).
  f_equal. unfold mantissa.
  replace (2 ^ 105) with (2 ^ (52 - Z.log2 zm) * 2 ^ 53 * 2 ^ Z.log2 zm).
  - ring.
  - rewrite <- !Z.pow_add_r by (unfold exponent in Hex; lia). f_equal. lia.
Qed.

(** The quotient of a length by a length that is not 0: a zero when the
    numerator is 0, a normal float otherwise. *)
Lemma quotient_cases (m n : nat) :
  (0 < n)%nat -> Z.of_nat m < 2 ^ 53 -> Z.of_nat n < 2 ^ 53 ->
  (m = O /\ Prim2SF (ndiv (of_nat m) (of_nat n)) = S754_zero false) \/
  ((0 < m)%nat /\
   exists R E,
     2 ^ 52 <= R <= 2 ^ 53 /\
     -105 - exponent (Z.of_nat n) <= E /\
     R * 2 ^ (E - (-105 - exponent (Z.of_nat n)))
       = round53 (Z.of_nat m * 2 ^ 105) (mantissa (Z.of_nat n)) /\
     Prim2SF (ndiv (of_nat m) (of_nat n)) = normal R E).
Proof.
  intros Hn Hm53 Hn53. destruct m as [|m'].
  - left. split; [reflexivity|]. cbn [ndiv FloatNum].
    rewrite FloatAxioms.div_spec, !of_nat_spec by assumption.
    destruct n; [lia|]. reflexivity.
  - right. split; [lia|]. apply quotient_spec; lia.
Qed.

Lemma SFleb_zero_normal R E :
  2 ^ 52 <= R <= 2 ^ 53 -> SFleb (S754_zero false) (normal R E) = true.
Proof.
  intros HR. destruct (normal_spec R E E HR (Z.le_refl E)) as (M & E' & -> & _). reflexivity.
Qed.

Lemma round53_numerator (m n : nat) :
  (0 < m)%nat -> (0 < n)%nat -> Z.of_nat n < 2 ^ 53 ->
  2 ^ 52 * mantissa (Z.of_nat n) <= Z.of_nat m * 2 ^ 105.
Proof.
  intros Hm Hn Hn53. pose proof (mantissa_bounds (Z.of_nat n) ltac:(lia)) as Hmy.
  replace (2 ^ 105) with (2 ^ 52 * 2 ^ 53) by reflexivity. nia.
Qed.

End Binary64Quotient.

(** The length up to which a Python [int] is a float as it stands:
    [2^53 - 1]. *)
Definition max_conditions : nat := Z.to_nat (2 ^ 53 - 1).

Section Binary64Lengths.

Import Binary64Quotient.

Local Open Scope Z_scope.

Lemma below_max_conditions (n : nat) : (n <= max_conditions)%nat -> Z.of_nat n < 2 ^ 53.
Proof. unfold max_conditions. lia. Qed.

Lemma binary64_quotients : PyNumQuotients float max_conditions.
Proof.
  split.
  - vm_compute. reflexivity.
  - vm_compute. reflexivity.
  - intros m n Hn Hlim Hmn. apply below_max_conditions in Hlim.
    cbn [nleb FloatNum]. rewrite FloatAxioms.leb_spec.
    rewrite (of_nat_spec 0) by (cbn; lia).
    destruct (quotient_cases m n Hn ltac:(lia) Hlim)
      as [[-> ->]|[Hm (R & E & HR & _ & _ & ->)]]; [reflexivity|].
    now apply SFleb_zero_normal.
  - intros m n Hn Hlim Hmn. apply below_max_conditions in Hlim.
    cbn [nleb FloatNum]. rewrite FloatAxioms.leb_spec.
    rewrite (of_nat_spec 1) by (cbn; lia).
    change (S754_finite false (Z.to_pos (mantissa (Z.of_nat 1))) (exponent (Z.of_nat 1)))
      with (normal (2 ^ 52) (-52)).
    destruct (quotient_cases m n Hn ltac:(lia) Hlim)
      as [[-> ->]|[Hm (R & E & HR & HE & Hval & ->)]]; [reflexivity|].
    pose proof (exponent_bounds (Z.of_nat n) ltac:(lia)) as Hey.
    pose proof (mantissa_bounds (Z.of_nat n) ltac:(lia)) as Hmy.
    apply (SFleb_normal R E (2 ^ 52) (-52) (-105 - exponent (Z.of_nat n)));
      try assumption; try lia.
    rewrite Hval.
    transitivity (round53 (Z.of_nat n * 2 ^ 105) (mantissa (Z.of_nat n))).
    + apply round53_mono; [lia|now apply round53_numerator|nia].
    + replace (Z.of_nat n * 2 ^ 105)
        with (mantissa (Z.of_nat n) * 2 ^ (105 + exponent (Z.of_nat n))).
      * rewrite round53_exact by lia.
        rewrite <- Z.pow_add_r by lia. apply Z.eq_le_incl. f_equal. lia.
      * unfold mantissa. rewrite <- Z.mul_assoc, <- Z.pow_add_r by (unfold exponent in *; lia).
        f_equal. f_equal. unfold exponent. lia.
  - intros m m' n Hn Hlim Hmm Hm'. apply below_max_conditions in Hlim.
    cbn [nleb FloatNum]. rewrite FloatAxioms.leb_spec.
    destruct (quotient_cases m n Hn ltac:(lia) Hlim)
      as [[-> ->]|[Hm (R & E & HR & HE & Hval & ->)]];
      destruct (quotient_cases m' n Hn ltac:(lia) Hlim)
        as [[-> ->]|[Hm2 (R' & E' & HR' & HE' & Hval' & ->)]].
    + reflexivity.
    + now apply SFleb_zero_normal.
    + lia.
    + apply (SFleb_normal R E R' E' (-105 - exponent (Z.of_nat n))); try assumption.
      rewrite Hval, Hval'. pose proof (mantissa_bounds (Z.of_nat n) ltac:(lia)) as Hmy.
      apply round53_mono; [lia|now apply round53_numerator|nia].
Qed.

End Binary64Lengths.

(** In binary64 the quotients of lengths up to [max_conditions] behave. *)
#[export] Instance FloatNumQuotients : PyNumQuotients float max_conditions :=
  binary64_quotients.

Example fmt2f_examples :
  fmt2f (nmul (ndiv (of_nat 2) (of_nat 3)) (9 # 10)%Q) = "0.60" /\
  fmt2f (nmul (ndiv (of_nat 2) (of_nat 3)) 0x1.ccccccccccccdp-1%float) = "0.60" /\
  fmt2f (0x1.4p+0)%float = "1.25" /\ fmt2f (0x1.2p-3)%float = "0.14" /\
  fmt2f (0x1.ep-4)%float = "0.12" /\ fmt2f (1 # 8)%Q = "0.12".
Proof. vm_compute. repeat split. Qed.

(** ** The condition matcher *)

Section Matcher.

Context {num : Type} {NumOps : PyNum num}.

(** Whether the loop of [match_conditions] puts an item's key in [matched]. *)
Definition holds (F : gmap string Value) (item : string * Value) : bool :=
  match F !! fst item with
  | Some user_value => condition_met user_value (snd item)
  | None => false
  end.

Definition matched_keys (F : gmap string Value) (conds : list (string * Value)) : list string :=
  map fst (List.filter (holds F) conds).

Definition unmatched_keys (F : gmap string Value) (conds : list (string * Value)) : list string :=
  map fst (List.filter (fun item => negb (holds F item)) conds).

(** The three components of the tuple [match_conditions] returns. *)
Definition match_score_of (R : Rule) (F : gmap string Value) : num :=
  fst (fst (match_conditions R F)).

Definition matched_of (R : Rule) (F : gmap string Value) : list string :=
  snd (fst (match_conditions R F)).

Definition unmatched_of (R : Rule) (F : gmap string Value) : list string :=
  snd (match_conditions R F).

Lemma match_step_holds F matched unmatched item :
  match_step F (matched, unmatched) item =
  if holds F item then (matched ++ [fst item], unmatched)
  else (matched, unmatched ++ [fst item]).
Proof.
  destruct item as [key expected]. unfold match_step, holds. cbn [fst snd].
  destruct (F !! key) as [uv|]; [|reflexivity].
  destruct (condition_met uv expected); reflexivity.
Qed.

Lemma match_loop_spec F conds : forall matched unmatched,
  fold_left (match_step F) conds (matched, unmatched) =
  (matched ++ matched_keys F conds, unmatched ++ unmatched_keys F conds).
Proof.
  unfold matched_keys, unmatched_keys.
  induction conds as [|item conds IH]; intros matched unmatched; cbn [fold_left List.filter].
  - cbn. now rewrite !app_nil_r.
  - rewrite match_step_holds. destruct (holds F item); cbn [negb map];
      rewrite IH, <- ?app_assoc; reflexivity.
Qed.

Lemma match_conditions_unfold (R : Rule) F :
  match_conditions R F =
  (let conds := default [] (r_conditions R) in
   (if Nat.eqb (length conds) 0 then of_nat 0
    else ndiv (of_nat (length (matched_keys F conds))) (of_nat (length conds)),
    matched_keys F conds, unmatched_keys F conds)).
Proof.
  unfold match_conditions. rewrite match_loop_spec. reflexivity.
Qed.

Lemma matched_keys_length F conds : length (matched_keys F conds) <= length conds.
Proof. unfold matched_keys. rewrite length_map. apply filter_length_le. Qed.

Lemma in_matched_keys F conds k :
  In k (matched_keys F conds) <-> exists e, In (k, e) conds /\ holds F (k, e) = true.
Proof.
  unfold matched_keys. rewrite in_map_iff. split.
  - intros [[k' e] [Hk Hin]]. cbn in Hk. subst k'.
    apply filter_In in Hin as [Hin Hh]. eauto.
  - intros [e [Hin Hh]]. exists (k, e). split; [reflexivity|]. now apply filter_In.
Qed.

Lemma in_unmatched_keys F conds k :
  In k (unmatched_keys F conds) <-> exists e, In (k, e) conds /\ holds F (k, e) = false.
Proof.
  unfold unmatched_keys. rewrite in_map_iff. split.
  - intros [[k' e] [Hk Hin]]. cbn in Hk. subst k'.
    apply filter_In in Hin as [Hin Hh]. apply negb_true_iff in Hh. eauto.
  - intros [e [Hin Hh]]. exists (k, e). split; [reflexivity|].
    apply filter_In. split; [assumption|]. now apply negb_true_iff.
Qed.

(** In a dict a key has one value. *)
Lemma dict_key_unique {V} (d : list (string * V)) k v1 v2 :
  List.NoDup (map fst d) -> In (k, v1) d -> In (k, v2) d -> v1 = v2.
Proof.
  induction d as [|[k' v'] d IH]; cbn; intros Hnd H1 H2; [contradiction|].
  inversion Hnd as [|? ? Hnotin Hnd']; subst.
  destruct H1 as [H1|H1], H2 as [H2|H2].
  - congruence.
  - inversion H1; subst. exfalso. apply Hnotin. apply in_map_iff. now exists (k, v2).
  - inversion H2; subst. exfalso. apply Hnotin. apply in_map_iff. now exists (k, v1).
  - now apply IH.
Qed.

Lemma filter_length_mono {A} (f g : A -> bool) (l : list A) :
  (forall x, In x l -> f x = true -> g x = true) ->
  length (List.filter f l) <= length (List.filter g l).
Proof.
  induction l as [|x l IH]; intros Hfg; cbn; [lia|].
  assert (IH' : length (List.filter f l) <= length (List.filter g l)).
  { apply IH. intros y Hy. apply Hfg. now right. }
  destruct (f x) eqn:Hf.
  - rewrite (Hfg x (or_introl eq_refl) Hf). cbn. lia.
  - destruct (g x); cbn; lia.
Qed.

End Matcher.

Section MatcherClaims.

Context {num : Type} {NumOps : PyNum num}.

Lemma condition_met_str_bool s b : condition_met (VStr s) (VBool b) = false.
Proof. reflexivity. Qed.

Lemma holds_absent (F : gmap string Value) item : F !! fst item = None -> holds F item = false.
Proof. unfold holds. now intros ->. Qed.

Lemma holds_insert_absent (F : gmap string Value) k v item :
  F !! k = None -> holds F item = true -> holds (<[k:=v]> F) item = true.
Proof.
  intros Hk. unfold holds. destruct (decide (k = fst item)) as [->|Hne].
  - rewrite Hk. discriminate.
  - now rewrite lookup_insert_ne.
Qed.

Lemma partition_keys_perm (F : gmap string Value) conds :
  Permutation (matched_keys F conds ++ unmatched_keys F conds) (map fst conds).
Proof.
  unfold matched_keys, unmatched_keys.
  induction conds as [|item conds IH]; cbn [List.filter map]; [constructor|].
  destruct (holds F item); cbn [negb map app].
  - now constructor.
  - symmetry. apply Permutation_cons_app. now symmetry.
Qed.

(** C1, as the code has it: [match_conditions] compares a fact with a boolean
    expectation by [==] alone, so a string fact is never matched, and the
    fact ["yes"] against the expectation [True] lands in [unmatched] with
    score [0/1]. [_values_match], the comparison of [backward_chain],
    accepts the same pair through its affirmative tokens, and both reject
    ["maybe"]. *)
Theorem match_conditions_string_fact_bool_condition (key s : string) (b : bool) :
  match_conditions
    {| r_id := None; r_category := None;
       r_conditions := Some [(key, VBool b)];
       r_cause := None; r_cause_ar := None; r_solutions := None;
       r_solutions_ar := None; r_confidence := None |}
    {[ key := VStr s ]}
  = (ndiv (of_nat 0) (of_nat 1), [], [key])
  /\ condition_met (VStr "yes") (VBool true) = false
  /\ _values_match (VStr "yes") (VBool true) = true
  /\ condition_met (VStr "maybe") (VBool true) = false
  /\ _values_match (VStr "maybe") (VBool true) = false.
Proof.
  split; [|repeat split].
  rewrite match_conditions_unfold.
  change (default [] (r_conditions _)) with [(key, VBool b)].
  assert (Hh : holds {[ key := VStr s ]} (key, VBool b) = false).
  { unfold holds. cbn [fst snd]. rewrite lookup_singleton_eq.
    apply condition_met_str_bool. }
  unfold matched_keys, unmatched_keys. cbn [List.filter length Nat.eqb].
  rewrite Hh. reflexivity.
Qed.

Context {limit : nat} {Quotients : PyNumQuotients num limit}.

(** C4: the score of [match_conditions] is the quotient of the number of
    matched keys by the number of conditions when there is a condition and
    0 when there is none; it lies between 0 and 1 (for a rule of at most
    [limit] conditions, the size up to which the number model holds
    lengths exactly: [2^53 - 1] in binary64); and the matched and
    unmatched lists split the
    condition keys: each key is in exactly one of them, and together they
    list the keys once each. *)
Theorem match_conditions_score_partition (R : Rule) (F : gmap string Value) :
  (length (default [] (r_conditions R)) <= limit ->
     nleb (of_nat 0) (match_score_of R F) = true /\
     nleb (match_score_of R F) (of_nat 1) = true) /\
  (default [] (r_conditions R) <> [] ->
     match_score_of R F =
     ndiv (of_nat (length (matched_of R F))) (of_nat (length (default [] (r_conditions R))))) /\
  (default [] (r_conditions R) = [] -> match_score_of R F = of_nat 0) /\
  length (matched_of R F) <= length (default [] (r_conditions R)) /\
  (List.NoDup (map fst (default [] (r_conditions R))) ->
   forall k, In k (map fst (default [] (r_conditions R))) ->
     (In k (matched_of R F) /\ ~ In k (unmatched_of R F)) \/
     (~ In k (matched_of R F) /\ In k (unmatched_of R F))) /\
  Permutation (matched_of R F ++ unmatched_of R F) (map fst (default [] (r_conditions R))).
Proof.
  unfold match_score_of, matched_of, unmatched_of.
  rewrite match_conditions_unfold. cbn [fst snd].
  set (conds := default [] (r_conditions R)) in *.
  assert (Hlen := matched_keys_length F conds).
  split; [|split; [|split; [|split; [|split]]]].
  - intros Hlim. destruct conds as [|c conds'] eqn:E; cbn [length Nat.eqb].
    + split; [apply zero_le_zero | apply zero_le_one].
    + split; [apply ndiv_nonneg | apply ndiv_le_1]; cbn [length] in *; lia.
  - intros Hne. destruct conds as [|c conds']; [congruence|reflexivity].
  - intros ->. reflexivity.
  - exact Hlen.
  - intros Hnd k Hk. apply in_map_iff in Hk as [[k' e] [Hk Hin]]. cbn in Hk. subst k'.
    destruct (holds F (k, e)) eqn:Hh.
    + left. split.
      * apply in_matched_keys. eauto.
      * intros Hu. apply in_unmatched_keys in Hu as [e' [Hin' Hh']].
        rewrite (dict_key_unique conds k e e' Hnd Hin Hin') in Hh. congruence.
    + right. split.
      * intros Hm. apply in_matched_keys in Hm as [e' [Hin' Hh']].
        rewrite (dict_key_unique conds k e e' Hnd Hin Hin') in Hh. congruence.
      * apply in_unmatched_keys. eauto.
  - apply partition_keys_perm.
Qed.

(** C8: when a condition key of the rule is absent from the facts it is in
    the unmatched list, and adding a fact for it, whatever its value and so
    also a value the expectation accepts, leaves the score as it is or
    raises it (for a rule of at most [limit] conditions); a value that
    [match_conditions] accepts moves the key to the matched list and makes
    the matched list longer by one. *)
Theorem match_score_monotone (R : Rule) (F : gmap string Value) (k : string) (expected : Value) :
  In (k, expected) (default [] (r_conditions R)) ->
  F !! k = None ->
  In k (unmatched_of R F) /\
  forall v,
    (length (default [] (r_conditions R)) <= limit ->
     nleb (match_score_of R F) (match_score_of R (<[k:=v]> F)) = true) /\
    length (matched_of R F) <= length (matched_of R (<[k:=v]> F)) /\
    (condition_met v expected = true -> In k (matched_of R (<[k:=v]> F))).
Proof.
  intros Hin Hk. unfold match_score_of, matched_of, unmatched_of.
  rewrite match_conditions_unfold. cbn [fst snd]. split.
  - apply in_unmatched_keys. exists expected. split; [assumption|].
    now apply holds_absent.
  - intros v. rewrite match_conditions_unfold. cbn [fst snd].
    set (conds := default [] (r_conditions R)) in *.
    assert (Hgrow : length (matched_keys F conds) <= length (matched_keys (<[k:=v]> F) conds)).
    { unfold matched_keys. rewrite !length_map.
      apply filter_length_mono. intros item _. now apply holds_insert_absent. }
    split; [|split].
    + intros Hlim. destruct conds as [|c conds'] eqn:E; cbn [length Nat.eqb];
        [apply zero_le_zero|].
      apply ndiv_mono.
      * lia.
      * exact Hlim.
      * exact Hgrow.
      * apply (matched_keys_length (<[k:=v]> F) (c :: conds')).
    + exact Hgrow.
    + intros Hv. apply in_matched_keys. exists expected. split; [assumption|].
      unfold holds. cbn [fst snd]. now rewrite lookup_insert_eq.
Qed.

End MatcherClaims.

(** ** The rule ranker *)

Section Ranker.

Context {num : Type} {NumOps : PyNum num}.

(** The confidence the sort reads: the authored one, 0 when there is none. *)
Definition sort_confidence (x : Match) : num :=
  default (of_nat 0) (r_confidence (m_rule x)).

(** [a] may stand before [b] in a list ranked by score, then confidence,
    both descending. *)
Definition ranks_before (a b : Match) : Prop :=
  nltb (m_match_score b) (m_match_score a) = true \/
  (neqb (m_match_score a) (m_match_score b) = true /\
   nleb (sort_confidence b) (sort_confidence a) = true).

(** [x] has the score and the confidence of [a]. *)
Definition same_key (a x : Match) : bool :=
  neqb (m_match_score a) (m_match_score x) && neqb (sort_confidence a) (sort_confidence x).

(** The entry [find_matching_rules] builds for a rule. *)
Definition entry (F : gmap string Value) (rule : Rule) : Match :=
  {| m_rule := rule;
     m_match_score := match_score_of rule F;
     m_matched_conditions := matched_of rule F;
     m_unmatched_conditions := unmatched_of rule F |}.

(** The entries of the rules that reach the threshold, in catalog order:
    the list [matches] before it is sorted. *)
Definition candidates (self : KnowledgeBase) (F : gmap string Value)
    (device_type category : option string) (min_match_score : num) : list Match :=
  map (entry F)
      (List.filter (fun rule => ngeb (match_score_of rule F) min_match_score)
                   (relevant_rules self device_type category)).

Lemma collect_step_entry F thr matches rule :
  collect_step F thr matches rule =
  if ngeb (match_score_of rule F) thr then matches ++ [entry F rule] else matches.
Proof.
  unfold collect_step, entry, match_score_of, matched_of, unmatched_of.
  destruct (match_conditions rule F) as [[s m] u]. reflexivity.
Qed.

Lemma collect_loop_spec F thr rules : forall matches,
  fold_left (collect_step F thr) rules matches =
  matches ++ map (entry F) (List.filter (fun rule => ngeb (match_score_of rule F) thr) rules).
Proof.
  induction rules as [|rule rules IH]; intros matches; cbn [fold_left List.filter].
  - cbn. now rewrite app_nil_r.
  - rewrite collect_step_entry, IH.
    destruct (ngeb (match_score_of rule F) thr); cbn [map]; [|reflexivity].
    now rewrite <- app_assoc.
Qed.

Lemma find_matching_rules_unfold self F dt cat thr :
  find_matching_rules self F dt cat thr = sort_reverse (candidates self F dt cat thr).
Proof. unfold find_matching_rules, candidates. now rewrite collect_loop_spec. Qed.

Lemma insert_desc_perm x l : Permutation (insert_desc x l) (x :: l).
Proof.
  induction l as [|y l IH]; cbn [insert_desc]; [reflexivity|].
  destruct (tuple_lt (sort_key x) (sort_key y)); [|reflexivity].
  rewrite IH. apply perm_swap.
Qed.

Lemma sort_reverse_perm l : Permutation (sort_reverse l) l.
Proof.
  induction l as [|x l IH]; cbn; [constructor|].
  rewrite insert_desc_perm. now constructor.
Qed.

(** The confidence a rule was given, if it was given one, is not a NaN. *)
Definition confidence_defined (r : @Rule num) : Prop :=
  forall c, r_confidence r = Some c -> defined c = true.

(** Neither the score nor the confidence the sort reads is a NaN. *)
Definition key_defined (x : Match) : Prop :=
  defined (m_match_score x) = true /\ defined (sort_confidence x) = true.

Context {Laws : PyNumLaws num}.

Lemma nleb_refl (a : num) : defined a = true -> nleb a a = true.
Proof. unfold defined. now rewrite neqb_nleb, andb_diag. Qed.

Lemma nleb_false_flip (a b : num) :
  defined a = true -> defined b = true -> nleb a b = false -> nleb b a = true.
Proof. intros Ha Hb H. destruct (nleb_total a b Ha Hb); congruence. Qed.

Lemma neqb_sym (a b : num) : neqb a b = neqb b a.
Proof. rewrite !neqb_nleb. apply andb_comm. Qed.

Lemma tuple_lt_false_ranks (a b : Match) :
  key_defined a -> key_defined b ->
  tuple_lt (sort_key a) (sort_key b) = false -> ranks_before a b.
Proof.
  unfold key_defined, tuple_lt, ranks_before, sort_key, sort_confidence. cbn [fst snd].
  set (a1 := m_match_score a). set (b1 := m_match_score b).
  set (a2 := default (of_nat 0) (r_confidence (m_rule a))).
  set (b2 := default (of_nat 0) (r_confidence (m_rule b))).
  intros [Ha1 Ha2] [Hb1 Hb2].
  rewrite !neqb_nleb, !nltb_nleb.
  pose proof (nleb_total a1 b1 Ha1 Hb1) as T1. pose proof (nleb_total a2 b2 Ha2 Hb2) as T2.
  destruct (nleb a1 b1), (nleb b1 a1), (nleb a2 b2), (nleb b2 a2); cbn;
    intuition congruence.
Qed.

Lemma ranks_tuple_lt_false (a b : Match) :
  ranks_before a b -> tuple_lt (sort_key a) (sort_key b) = false.
Proof.
  unfold tuple_lt, ranks_before, sort_key, sort_confidence. cbn [fst snd].
  rewrite !neqb_nleb, !nltb_nleb.
  destruct (nleb (m_match_score a) (m_match_score b)), (nleb (m_match_score b) (m_match_score a)),
    (nleb (default (of_nat 0) (r_confidence (m_rule a)))
          (default (of_nat 0) (r_confidence (m_rule b)))),
    (nleb (default (of_nat 0) (r_confidence (m_rule b)))
          (default (of_nat 0) (r_confidence (m_rule a)))); cbn;
    intuition congruence.
Qed.

Lemma tuple_lt_true_ranks (a b : Match) :
  tuple_lt (sort_key a) (sort_key b) = true -> ranks_before b a.
Proof.
  unfold tuple_lt, ranks_before, sort_key, sort_confidence. cbn [fst snd].
  rewrite !neqb_nleb, !nltb_nleb.
  destruct (nleb (m_match_score a) (m_match_score b)), (nleb (m_match_score b) (m_match_score a)),
    (nleb (default (of_nat 0) (r_confidence (m_rule a)))
          (default (of_nat 0) (r_confidence (m_rule b)))),
    (nleb (default (of_nat 0) (r_confidence (m_rule b)))
          (default (of_nat 0) (r_confidence (m_rule a)))); cbn;
    intuition congruence.
Qed.

Lemma ranks_before_trans (a b c : Match) :
  ranks_before a b -> ranks_before b c -> ranks_before a c.
Proof.
  unfold ranks_before.
  rewrite !neqb_nleb, !nltb_nleb, !andb_true_iff, !negb_true_iff.
  intros [[Hba Hab] | [[Hab Hba] Hc1]] [[Hcb Hbc] | [[Hbc Hcb] Hc2]].
  - left. split; [eauto using nleb_trans|].
    destruct (nleb (m_match_score a) (m_match_score c)) eqn:E; [|reflexivity].
    rewrite (nleb_trans _ _ _ E Hcb) in Hab. discriminate.
  - left. split; [eauto using nleb_trans|].
    destruct (nleb (m_match_score a) (m_match_score c)) eqn:E; [|reflexivity].
    rewrite (nleb_trans _ _ _ E Hcb) in Hab. discriminate.
  - left. split; [eauto using nleb_trans|].
    destruct (nleb (m_match_score a) (m_match_score c)) eqn:E; [|reflexivity].
    rewrite (nleb_trans _ _ _ Hba E) in Hbc. discriminate.
  - right. repeat split; eauto using nleb_trans.
Qed.

Lemma insert_desc_hdrel x y l :
  ranks_before y x -> HdRel ranks_before y l -> HdRel ranks_before y (insert_desc x l).
Proof.
  intros Hyx Hhd. destruct l as [|z l]; cbn [insert_desc]; [now constructor|].
  destruct (tuple_lt (sort_key x) (sort_key z)); constructor; [|assumption].
  now inversion Hhd.
Qed.

Lemma insert_desc_sorted x l :
  key_defined x -> Forall key_defined l ->
  Sorted ranks_before l -> Sorted ranks_before (insert_desc x l).
Proof.
  intros Hx. induction l as [|y l IH]; intros Hl Hs; cbn [insert_desc].
  - repeat constructor.
  - inversion Hs as [|? ? Hs' Hhd]; subst. inversion Hl as [|? ? Hy Hl']; subst.
    destruct (tuple_lt (sort_key x) (sort_key y)) eqn:E.
    + constructor; [now apply IH|].
      apply insert_desc_hdrel; [|assumption]. now apply tuple_lt_true_ranks.
    + constructor; [assumption|]. constructor. now apply tuple_lt_false_ranks.
Qed.

Lemma sort_reverse_sorted l :
  Forall key_defined l -> StronglySorted ranks_before (sort_reverse l).
Proof.
  intros Hl. apply Sorted_StronglySorted.
  - intros a b c. apply ranks_before_trans.
  - induction Hl as [|x l Hx Hl IH]; cbn; [constructor|].
    apply insert_desc_sorted; [assumption| |assumption].
    rewrite List.Forall_forall in *. intros y Hy. apply Hl.
    apply (Permutation_in _ (sort_reverse_perm l)). exact Hy.
Qed.

(** Two entries with the key of a third are not strictly ordered. *)
Lemma same_key_not_lt (a x y : Match) :
  same_key a x = true -> same_key a y = true ->
  tuple_lt (sort_key x) (sort_key y) = false.
Proof.
  unfold same_key. rewrite !andb_true_iff, !neqb_nleb, !andb_true_iff.
  intros [[H1 H2] [H3 H4]] [[H5 H6] [H7 H8]].
  apply ranks_tuple_lt_false. right. rewrite neqb_nleb, andb_true_iff.
  repeat split; eauto using nleb_trans.
Qed.

Lemma insert_desc_stable (a x : Match) l :
  List.filter (same_key a) (insert_desc x l) = List.filter (same_key a) (x :: l).
Proof.
  induction l as [|y l IH]; [reflexivity|]. cbn [insert_desc].
  destruct (tuple_lt (sort_key x) (sort_key y)) eqn:E; [|reflexivity].
  cbn [List.filter] in *. rewrite IH.
  destruct (same_key a x) eqn:Hx, (same_key a y) eqn:Hy; try reflexivity.
  rewrite (same_key_not_lt a x y Hx Hy) in E. discriminate.
Qed.

Lemma sort_reverse_stable (a : Match) l :
  List.filter (same_key a) (sort_reverse l) = List.filter (same_key a) l.
Proof.
  induction l as [|x l IH]; [reflexivity|].
  cbn [sort_reverse foldr]. fold (sort_reverse l). rewrite insert_desc_stable.
  cbn [List.filter]. now rewrite IH.
Qed.

Lemma strongly_sorted_lookup {A} (R : A -> A -> Prop) (l : list A) :
  StronglySorted R l ->
  forall i j a b, l !! i = Some a -> l !! j = Some b -> i < j -> R a b.
Proof.
  induction 1 as [|x l Hs IH Hall]; intros i j a b Hi Hj Hij.
  - rewrite lookup_nil in Hi. discriminate.
  - destruct j as [|j]; [lia|]. cbn in Hj. destruct i as [|i]; cbn in Hi.
    + inversion Hi; subst. rewrite List.Forall_forall in Hall. apply Hall.
      apply list_elem_of_In. eapply list_elem_of_lookup_2; eauto.
    + eapply IH; eauto. lia.
Qed.

(** In a ranked list an entry stands before every entry of equal score and
    strictly lower confidence. *)
Lemma ranked_higher_confidence_first (ms : list Match) :
  StronglySorted ranks_before ms ->
  forall i j a b,
    ms !! i = Some a -> ms !! j = Some b ->
    neqb (m_match_score a) (m_match_score b) = true ->
    nltb (sort_confidence b) (sort_confidence a) = true ->
    i < j.
Proof.
  intros Hs i j a b Hi Hj Heq Hlt.
  rewrite neqb_nleb, andb_true_iff in Heq. destruct Heq as [Hab Hba].
  rewrite nltb_nleb, andb_true_iff, negb_true_iff in Hlt. destruct Hlt as [Hlt1 Hlt2].
  destruct (Nat.lt_trichotomy i j) as [Hlt'|[->|Hgt]]; [assumption| |].
  - rewrite Hi in Hj. inversion Hj; subst. congruence.
  - pose proof (strongly_sorted_lookup _ _ Hs j i b a Hj Hi Hgt) as [H|[_ H]].
    + rewrite nltb_nleb, Hba in H. cbn in H. rewrite andb_false_r in H. discriminate.
    + congruence.
Qed.

(** The entries that reach the threshold have keys that are not NaN when
    the confidences of the rules are not: a score that reaches a threshold
    is not a NaN. *)
Lemma candidates_key_defined self F dt cat thr :
  Forall confidence_defined (relevant_rules self dt cat) ->
  Forall key_defined (candidates self F dt cat thr).
Proof.
  rewrite !List.Forall_forall. intros Hc m Hm.
  unfold candidates in Hm. apply in_map_iff in Hm as (r & <- & Hr).
  apply filter_In in Hr as [Hr Hs]. split.
  - unfold ngeb in Hs. apply nleb_defined in Hs. apply Hs.
  - unfold sort_confidence, entry. cbn [m_rule].
    destruct (r_confidence r) as [c|] eqn:E; cbn; [now apply (Hc r Hr)|apply zero_defined].
Qed.

(** C5: when no confidence in the pool is a NaN, the list
    [find_matching_rules] returns holds the entries that reach the
    threshold, ranked by score descending and then by authored confidence
    (0 when missing) descending; entries equal in both stand in catalog
    order; so of two entries with equal score the one with the strictly
    higher confidence stands first. *)
Theorem find_matching_rules_ranked (self : KnowledgeBase) (F : gmap string Value)
    (device_type category : option string) (min_match_score : num) :
  Forall confidence_defined (relevant_rules self device_type category) ->
  Permutation (find_matching_rules self F device_type category min_match_score)
              (candidates self F device_type category min_match_score) /\
  StronglySorted ranks_before
    (find_matching_rules self F device_type category min_match_score) /\
  (forall a,
     List.filter (same_key a) (find_matching_rules self F device_type category min_match_score)
     = List.filter (same_key a) (candidates self F device_type category min_match_score)) /\
  (forall i j a b,
     find_matching_rules self F device_type category min_match_score !! i = Some a ->
     find_matching_rules self F device_type category min_match_score !! j = Some b ->
     neqb (m_match_score a) (m_match_score b) = true ->
     nltb (sort_confidence b) (sort_confidence a) = true ->
     i < j).
Proof.
  intros Hdef. rewrite find_matching_rules_unfold.
  pose proof (sort_reverse_sorted _ (candidates_key_defined self F device_type category
                                       min_match_score Hdef)) as Hsorted.
  repeat split.
  - apply sort_reverse_perm.
  - exact Hsorted.
  - intros a. apply sort_reverse_stable.
  - now apply ranked_higher_confidence_first.
Qed.

End Ranker.

(** ** The inference engine: what a run does to the state *)

Section EngineLemmas.

Context {num : Type} {NumOps : PyNum num}.

(** The state after [lines] were appended to the engine's trace list. *)
Definition log (lines : list string) (st : @State num) : @State num :=
  {| heap := alter (fun l => l ++ lines) (inference_trace st) (heap st);
     kb := kb st;
     working_memory := working_memory st;
     inference_trace := inference_trace st;
     fired_rules := fired_rules st |}.

(** The state after [rs] were appended to [fired_rules]. *)
Definition fire (rs : list (@Rule num)) (st : @State num) : @State num :=
  {| heap := heap st;
     kb := kb st;
     working_memory := working_memory st;
     inference_trace := inference_trace st;
     fired_rules := fired_rules st ++ rs |}.

(** The combined confidence [forward_chain] computes for an entry. *)
Definition final_confidence (m : Match) : num :=
  nmul (m_match_score m) (default lit_0_8 (r_confidence (m_rule m))).

(** The second filter of [forward_chain]. *)
Definition fires (min_confidence : num) (m : Match) : bool :=
  ngeb (final_confidence m) min_confidence.

(** The string [_generate_explanation] returns, as a function of the
    working memory. *)
Definition explanation_of (wm : gmap string Value) (rule : @Rule num)
    (matched_conditions : list string) : string :=
  let conditions_text :=
    map (fun cond =>
           let value := default (VStr "unknown") (wm !! cond) in
           PyStr.replace "_" " " cond +:+ " = " +:+ PyVal.str value)
        matched_conditions in
  match conditions_text with
  | _ :: _ =>
      "The system concluded '" +:+ default "this issue" (r_cause rule) +:+ "' because "
      +:+ "the following conditions were met: " +:+ PyStr.join ", " conditions_text +:+ "."
  | [] =>
      "The system identified a potential issue: " +:+ default "unknown" (r_cause rule) +:+ "."
  end.

(** The diagnosis [forward_chain] builds for a fired entry whose rule has
    the id [i]. *)
Definition diagnosis_of (wm : gmap string Value) (m : Match) (i : string) : Diagnosis :=
  {| d_rule_id := i;
     d_category := default "unknown" (r_category (m_rule m));
     d_cause := default "Unknown cause" (r_cause (m_rule m));
     d_cause_ar := default (default "Unknown cause" (r_cause (m_rule m))) (r_cause_ar (m_rule m));
     d_solutions := default [] (r_solutions (m_rule m));
     d_solutions_ar := default (default [] (r_solutions (m_rule m))) (r_solutions_ar (m_rule m));
     d_confidence := final_confidence m;
     d_matched_conditions := m_matched_conditions m;
     d_explanation := explanation_of wm (m_rule m) (m_matched_conditions m) |}.

Definition fired_line (m : Match) (i : string) : string :=
  "Fired rule: " +:+ i +:+ " (confidence: " +:+ fmt2f (final_confidence m) +:+ ")".

Definition id_or_empty (m : @Match num) : string := default "" (r_id (m_rule m)).

Definition has_id (r : @Rule num) : Prop := exists i, r_id r = Some i.

Lemma log_nil st : log [] st = st.
Proof.
  destruct st. unfold log. cbn. f_equal.
  apply list_alter_id. intros. apply app_nil_r.
Qed.

Lemma log_log a b st : log b (log a st) = log (a ++ b) st.
Proof.
  unfold log. cbn. f_equal. rewrite list_alter_alter_eq.
  apply list_alter_ext; [|reflexivity]. intros l _. cbn. now rewrite app_assoc.
Qed.

Lemma fire_nil st : fire [] st = st.
Proof. destruct st. unfold fire. cbn. now rewrite app_nil_r. Qed.

Lemma fire_fire a b st : fire b (fire a st) = fire (a ++ b) st.
Proof. unfold fire. cbn. now rewrite app_assoc. Qed.

Lemma fire_log rs a st : fire rs (log a st) = log a (fire rs st).
Proof. reflexivity. Qed.

Lemma bind_ok {A B} (c : @M num A) (k : A -> @M num B) st a st' :
  c st = (Ok a, st') -> bind c k st = k a st'.
Proof. unfold bind. now intros ->. Qed.

Lemma bind_raise {A B} (c : @M num A) (k : A -> @M num B) st e st' :
  c st = (Raise e, st') -> bind c k st = (Raise e, st').
Proof. unfold bind. now intros ->. Qed.

Lemma trace_append_log line st : trace_append line st = (Ok tt, log [line] st).
Proof. reflexivity. Qed.

Lemma _generate_explanation_eq rule matched st :
  _generate_explanation rule matched st
  = (Ok (explanation_of (working_memory st) rule matched), st).
Proof.
  unfold _generate_explanation, explanation_of, bind, gets.
  destruct (map _ matched); reflexivity.
Qed.

Lemma subscript_id_some (rule : @Rule num) i st :
  r_id rule = Some i -> subscript_id rule st = (Ok i, st).
Proof. unfold subscript_id. now intros ->. Qed.

Lemma subscript_id_none (rule : @Rule num) st :
  r_id rule = None -> subscript_id rule st = (Raise (KeyError "id"), st).
Proof. unfold subscript_id. now intros ->. Qed.

Lemma fire_loop_skip thr m rest ds st :
  fires thr m = false -> fire_loop thr (m :: rest) ds st = fire_loop thr rest ds st.
Proof.
  intros Hf. cbn [fire_loop]. unfold fires, final_confidence in Hf. now rewrite Hf.
Qed.

Lemma fire_loop_fire thr m rest ds st i :
  fires thr m = true -> r_id (m_rule m) = Some i ->
  fire_loop thr (m :: rest) ds st =
  fire_loop thr rest (ds ++ [diagnosis_of (working_memory st) m i])
            (log [fired_line m i] (fire [m_rule m] st)).
Proof.
  intros Hf Hid. cbn [fire_loop]. unfold fires, final_confidence in Hf. rewrite Hf.
  erewrite bind_ok by reflexivity.
  erewrite bind_ok by (apply subscript_id_some; exact Hid).
  erewrite bind_ok by reflexivity.
  erewrite bind_ok by (apply subscript_id_some; exact Hid).
  erewrite bind_ok by apply _generate_explanation_eq.
  reflexivity.
Qed.

Lemma fire_loop_no_id thr m rest ds st :
  fires thr m = true -> r_id (m_rule m) = None ->
  fire_loop thr (m :: rest) ds st = (Raise (KeyError "id"), fire [m_rule m] st).
Proof.
  intros Hf Hid. cbn [fire_loop]. unfold fires, final_confidence in Hf. rewrite Hf.
  erewrite bind_ok by reflexivity.
  erewrite bind_raise by (apply subscript_id_none; exact Hid).
  reflexivity.
Qed.

(** The loop of [forward_chain] when every entry that fires has an id. *)
Lemma fire_loop_spec thr ms : forall ds st,
  Forall (fun m => has_id (m_rule m)) (List.filter (fires thr) ms) ->
  fire_loop thr ms ds st =
  (Ok (ds ++ map (fun m => diagnosis_of (working_memory st) m (id_or_empty m))
                 (List.filter (fires thr) ms)),
   log (map (fun m => fired_line m (id_or_empty m)) (List.filter (fires thr) ms))
       (fire (map m_rule (List.filter (fires thr) ms)) st)).
Proof.
  induction ms as [|m ms IH]; intros ds st Hids.
  - cbn. now rewrite app_nil_r, log_nil, fire_nil.
  - cbn [List.filter] in *. destruct (fires thr m) eqn:Hf.
    + inversion Hids as [|? ? [i Hi] Hids']; subst.
      rewrite (fire_loop_fire thr m ms ds st i Hf Hi).
      rewrite IH by assumption. cbn [map working_memory log fire].
      assert (Hm : id_or_empty m = i) by (unfold id_or_empty; now rewrite Hi).
      rewrite Hm, <- app_assoc. f_equal.
      rewrite fire_log, log_log, fire_fire. reflexivity.
    + rewrite fire_loop_skip by assumption. now apply IH.
Qed.

Definition complete_line (n : nat) : string :=
  "Forward chaining complete. Found " +:+ pretty n +:+ " diagnoses.".

(** The entries [forward_chain] fires on a state. *)
Definition fired_entries (st : State) (device_type category : option string)
    (min_confidence : num) : list Match :=
  List.filter (fires min_confidence)
    (find_matching_rules (kb st) (working_memory st) device_type category min_confidence).

Lemma forward_chain_spec dt cat thr st :
  Forall (fun m => has_id (m_rule m)) (fired_entries st dt cat thr) ->
  forward_chain dt cat thr st =
  (Ok (map (fun m => diagnosis_of (working_memory st) m (id_or_empty m))
           (fired_entries st dt cat thr)),
   log ("Starting Forward Chaining..."
          :: map (fun m => fired_line m (id_or_empty m)) (fired_entries st dt cat thr)
          ++ [complete_line (length (fired_entries st dt cat thr))])
       (fire (map m_rule (fired_entries st dt cat thr)) st)).
Proof.
  intros Hids. unfold forward_chain.
  erewrite bind_ok by apply trace_append_log.
  erewrite bind_ok by reflexivity.
  erewrite bind_ok by reflexivity.
  erewrite bind_ok by (apply fire_loop_spec; exact Hids).
  erewrite bind_ok by apply trace_append_log.
  unfold ret, complete_line. cbn [app working_memory kb log].
  rewrite length_map. f_equal.
  rewrite fire_log, !log_log. reflexivity.
Qed.

End EngineLemmas.

(** ** [diagnose]: the prepared state and the shape of the result *)

Section Diagnose.

Context {num : Type} {NumOps : PyNum num}.

(** The state after the facts were written to the working memory. *)
Definition remember (facts : list (string * Value)) (st : @State num) : @State num :=
  {| heap := heap st;
     kb := kb st;
     working_memory :=
       foldl (fun wm kv => <[fst kv := snd kv]> wm) (working_memory st) facts;
     inference_trace := inference_trace st;
     fired_rules := fired_rules st |}.

Definition fact_line (kv : string * Value) : string :=
  "Added fact: " +:+ fst kv +:+ " = " +:+ PyVal.str (snd kv).

(** The working memory [diagnose] runs forward chaining on. *)
Definition memory_of (device_type : string) (symptoms : list (string * Value))
    : gmap string Value :=
  foldl (fun wm kv => <[fst kv := snd kv]> wm) (<["device" := VStr device_type]> ∅) symptoms.

(** The state [diagnose] has reached when it calls [forward_chain]. *)
Definition prepared (st : @State num) (device_type : string)
    (symptoms : list (string * Value)) : @State num :=
  {| heap := heap st ++ [map fact_line (("device", VStr device_type) :: symptoms)];
     kb := kb st;
     working_memory := memory_of device_type symptoms;
     inference_trace := length (heap st);
     fired_rules := [] |}.

(** The dict [diagnose] builds from the list of diagnoses. *)
Definition result_of (device_type category : string) (diagnoses : list (@Diagnosis num))
    (trace : nat) : @DiagnosisResult num :=
  match diagnoses with
  | best :: others =>
      {| success := true;
         diagnosis :=
           {| cause := d_cause best;
              cause_ar := Some (d_cause_ar best);
              category := d_category best;
              confidence := d_confidence best;
              solutions := d_solutions best;
              solutions_ar := Some (d_solutions_ar best);
              explanation := d_explanation best;
              rule_id := Some (d_rule_id best) |};
         alternative_diagnoses := take 2 others;
         trace_ref := trace |}
  | [] =>
      {| success := false;
         diagnosis :=
           {| cause := "General " +:+ PyStr.replace "_" " " category +:+ " issue";
              cause_ar := None;
              category := category;
              confidence := lit_0_5;
              solutions := _get_general_solutions category device_type;
              solutions_ar := None;
              explanation :=
                "Based on the symptoms provided, this appears to be a "
                +:+ PyStr.replace "_" " " category +:+ " problem. Consider the general "
                +:+ "troubleshooting steps recommended.";
              rule_id := None |};
         alternative_diagnoses := [];
         trace_ref := trace |}
  end.

Lemma remember_log facts a (st : @State num) :
  remember facts (log a st) = log a (remember facts st).
Proof. reflexivity. Qed.

Lemma remember_remember a b (st : @State num) :
  remember b (remember a st) = remember (a ++ b) st.
Proof. unfold remember. cbn. now rewrite foldl_app. Qed.

Lemma add_fact_spec k v (st : @State num) :
  add_fact k v st = (Ok tt, log [fact_line (k, v)] (remember [(k, v)] st)).
Proof. reflexivity. Qed.

Lemma add_facts_spec facts : forall st : @State num,
  add_facts facts st = (Ok tt, log (map fact_line facts) (remember facts st)).
Proof.
  induction facts as [|[k v] facts IH]; intros st.
  - cbn [add_facts map]. rewrite log_nil. unfold remember. cbn. now destruct st.
  - cbn [add_facts]. erewrite bind_ok by apply add_fact_spec.
    rewrite IH, remember_log, log_log, remember_remember. reflexivity.
Qed.

Lemma log_fresh_list lines (st : @State num) h t :
  heap st = h ++ [t] -> inference_trace st = length h ->
  heap (log lines st) = h ++ [t ++ lines].
Proof.
  intros Hh Ht. unfold log. cbn [heap]. rewrite Hh, Ht.
  rewrite alter_app_r_alt by lia. now rewrite Nat.sub_diag.
Qed.

Lemma prepared_state_eq device_type symptoms (st : @State num) :
  log (map fact_line symptoms)
      (remember symptoms
         (log [fact_line ("device", VStr device_type)]
            (remember [("device", VStr device_type)]
               {| heap := heap st ++ [[]];
                  kb := kb st;
                  working_memory := ∅;
                  inference_trace := length (heap st);
                  fired_rules := [] |})))
  = prepared st device_type symptoms.
Proof.
  unfold prepared, log, remember, memory_of.
  cbn [heap kb working_memory inference_trace fired_rules]. f_equal.
  rewrite list_alter_alter_eq, alter_app_r_alt by lia. now rewrite Nat.sub_diag.
Qed.

Lemma diagnose_unfold device_type category symptoms (st : @State num) :
  diagnose device_type category symptoms st =
  match forward_chain (Some device_type) (Some category) lit_0_3
                      (prepared st device_type symptoms) with
  | (Ok diagnoses, st') =>
      (Ok (result_of device_type category diagnoses (inference_trace st')), st')
  | (Raise e, st') => (Raise e, st')
  end.
Proof.
  unfold diagnose.
  erewrite bind_ok by reflexivity.
  erewrite bind_ok by apply add_fact_spec.
  erewrite bind_ok by apply add_facts_spec.
  rewrite prepared_state_eq.
  unfold bind at 1.
  destruct (forward_chain _ _ _ _) as [[diagnoses|e] st']; [|reflexivity].
  unfold bind, gets, result_of. destruct diagnoses; reflexivity.
Qed.

End Diagnose.

(** ** Forward chaining and the fallback *)

Section ForwardClaims.

Context {num : Type} {NumOps : PyNum num}.

(** The diagnosis forward chaining returns for a rule that fires. *)
Definition diag_for (F : gmap string Value) (r : @Rule num) : Diagnosis :=
  diagnosis_of F (entry F r) (default "" (r_id r)).

(** The two filters of forward chaining, for a rule. *)
Definition admitted (F : gmap string Value) (thr : num) (r : @Rule num) : Prop :=
  ngeb (match_score_of r F) thr = true /\
  ngeb (nmul (match_score_of r F) (default lit_0_8 (r_confidence r))) thr = true.

Lemma in_candidates self F dt cat thr (m : Match) :
  In m (candidates self F dt cat thr) <->
  exists r, In r (relevant_rules self dt cat) /\
            ngeb (match_score_of r F) thr = true /\ m = entry F r.
Proof.
  unfold candidates. rewrite in_map_iff. split.
  - intros [r [Hm Hin]]. apply filter_In in Hin as [Hin Hs]. eauto.
  - intros [r [Hin [Hs Hm]]]. exists r. split; [auto|]. now apply filter_In.
Qed.

Lemma in_fired_entries (st : State) dt cat thr (m : Match) :
  In m (fired_entries st dt cat thr) <->
  exists r, In r (relevant_rules (kb st) dt cat) /\
            admitted (working_memory st) thr r /\ m = entry (working_memory st) r.
Proof.
  unfold fired_entries, admitted. rewrite filter_In, find_matching_rules_unfold. split.
  - intros [Hin Hf]. apply (Permutation_in _ (sort_reverse_perm _)) in Hin.
    apply in_candidates in Hin as [r [Hin [Hs ->]]]. exists r. auto.
  - intros [r [Hin [[Hs Hc] ->]]]. split; [|exact Hc].
    apply (Permutation_in _ (Permutation_sym (sort_reverse_perm _))).
    apply in_candidates. eauto.
Qed.

Lemma in_fired_rules (st : State) dt cat thr (r : Rule) :
  In r (map m_rule (fired_entries st dt cat thr)) <->
  In r (relevant_rules (kb st) dt cat) /\ admitted (working_memory st) thr r.
Proof.
  rewrite in_map_iff. split.
  - intros [m [<- Hin]]. apply in_fired_entries in Hin as [r [Hin [Ha ->]]]. auto.
  - intros [Hin Ha]. exists (entry (working_memory st) r). split; [reflexivity|].
    apply in_fired_entries. eauto.
Qed.

Lemma fired_diagnoses (st : State) dt cat thr :
  map (fun m => diagnosis_of (working_memory st) m (id_or_empty m))
      (fired_entries st dt cat thr)
  = map (diag_for (working_memory st)) (map m_rule (fired_entries st dt cat thr)).
Proof.
  rewrite map_map. apply map_ext_in. intros m Hin.
  apply in_fired_entries in Hin as [r [_ [_ ->]]]. reflexivity.
Qed.

Lemma fired_have_ids (st : State) dt cat thr :
  Forall has_id (relevant_rules (kb st) dt cat) ->
  Forall (fun m => has_id (m_rule m)) (fired_entries st dt cat thr).
Proof.
  rewrite !List.Forall_forall. intros Hids m Hin.
  apply in_fired_entries in Hin as [r [Hin [_ ->]]]. now apply Hids.
Qed.

(** Forward chaining on a pool whose rules have ids: the rules fired are
    those admitted by both filters. *)
Lemma forward_chain_admitted (st : State) dt cat thr :
  Forall has_id (relevant_rules (kb st) dt cat) ->
  exists fired st',
    forward_chain dt cat thr st = (Ok (map (diag_for (working_memory st)) fired), st') /\
    fired_rules st' = fired_rules st ++ fired /\
    kb st' = kb st /\ working_memory st' = working_memory st /\
    inference_trace st' = inference_trace st /\
    (forall r, In r fired <->
       In r (relevant_rules (kb st) dt cat) /\ admitted (working_memory st) thr r).
Proof.
  intros Hids. exists (map m_rule (fired_entries st dt cat thr)).
  exists (log ("Starting Forward Chaining..."
                 :: map (fun m => fired_line m (id_or_empty m)) (fired_entries st dt cat thr)
                 ++ [complete_line (length (fired_entries st dt cat thr))])
              (fire (map m_rule (fired_entries st dt cat thr)) st)).
  split; [|split; [|split; [|split; [|split]]]]; try reflexivity.
  - rewrite forward_chain_spec by now apply fired_have_ids.
    rewrite fired_diagnoses. reflexivity.
  - intros r. apply in_fired_rules.
Qed.

(** C2: when [diagnose] calls [forward_chain] (both scopes given, threshold
    0.3) on a pool of rules with ids, the call returns; a rule is among the
    fired rules, whose diagnoses make up the returned list in the same
    order, exactly when it is in the pool, its match score is at least 0.3
    and its match score times its confidence (0.8 when missing) is at least
    0.3; the diagnosis of a fired rule carries that product and the rule's
    id. *)
Theorem forward_chain_two_stage_filter (st : State) (device_type category : string) :
  Forall has_id (relevant_rules (kb st) (Some device_type) (Some category)) ->
  exists fired st',
    forward_chain (Some device_type) (Some category) lit_0_3 st
      = (Ok (map (diag_for (working_memory st)) fired), st') /\
    fired_rules st' = fired_rules st ++ fired /\
    (forall r, In r fired <->
       In r (relevant_rules (kb st) (Some device_type) (Some category)) /\
       ngeb (match_score_of r (working_memory st)) lit_0_3 = true /\
       ngeb (nmul (match_score_of r (working_memory st))
                  (default lit_0_8 (r_confidence r))) lit_0_3 = true) /\
    (forall r, In r fired ->
       r_id r = Some (d_rule_id (diag_for (working_memory st) r)) /\
       d_confidence (diag_for (working_memory st) r)
       = nmul (match_score_of r (working_memory st)) (default lit_0_8 (r_confidence r))).
Proof.
  intros Hids.
  destruct (forward_chain_admitted st (Some device_type) (Some category) lit_0_3 Hids)
    as (fired & st' & Hrun & Hfired & _ & _ & _ & Hiff).
  exists fired, st'. split; [exact Hrun|]. split; [exact Hfired|]. split.
  - intros r. rewrite Hiff. unfold admitted. tauto.
  - intros r Hr. apply Hiff in Hr as [Hin _]. rewrite List.Forall_forall in Hids.
    destruct (Hids r Hin) as [i Hi]. unfold diag_for, diagnosis_of. cbn [d_rule_id].
    rewrite Hi. split; reflexivity.
Qed.

Lemma dict_get_Forall {V} (P : V -> Prop) (d : list (string * V)) key v :
  Forall (fun kv => P (snd kv)) d -> dict_get d key = Some v -> P v.
Proof.
  induction 1 as [|[k w] d Hw Hd IH]; cbn; [discriminate|].
  destruct (String.eqb k key); [|assumption]. intros [= <-]. exact Hw.
Qed.

Lemma _get_general_solutions_nonempty category device_type :
  _get_general_solutions category device_type <> [].
Proof.
  unfold _get_general_solutions.
  destruct (dict_get general_solutions category) as [l|] eqn:E; cbn; [|discriminate].
  revert E. apply (dict_get_Forall (fun l => l <> [])).
  unfold general_solutions. repeat constructor; discriminate.
Qed.

(** C3, amended: when no rule of the device and category scope reaches 0.3
    both in match score and in match score times confidence, [diagnose]
    returns the fallback: no success, no rule id, confidence 0.5, a cause
    text built from the category, no alternatives, and the non-empty list
    the static table gives for the category, or the default list. *)
Theorem diagnose_fallback (st : State) (device_type category : string)
    (symptoms : list (string * Value)) :
  (forall r, In r (relevant_rules (kb st) (Some device_type) (Some category)) ->
     ~ (ngeb (match_score_of r (memory_of device_type symptoms)) lit_0_3 = true /\
        ngeb (nmul (match_score_of r (memory_of device_type symptoms))
                   (default lit_0_8 (r_confidence r))) lit_0_3 = true)) ->
  exists res st',
    diagnose device_type category symptoms st = (Ok res, st') /\
    success res = false /\
    rule_id (diagnosis res) = None /\
    confidence (diagnosis res) = lit_0_5 /\
    cause (diagnosis res) = "General " +:+ PyStr.replace "_" " " category +:+ " issue" /\
    solutions (diagnosis res)
      = default ["Restart the device and try again"; "Consult technical support"]
                (dict_get general_solutions category) /\
    solutions (diagnosis res) <> [] /\
    alternative_diagnoses res = [].
Proof.
  intros Hnone. rewrite diagnose_unfold.
  set (st1 := prepared st device_type symptoms).
  assert (Hempty : fired_entries st1 (Some device_type) (Some category) lit_0_3 = []).
  { destruct (fired_entries st1 _ _ _) as [|m l] eqn:E; [reflexivity|].
    assert (Hin : In m (fired_entries st1 (Some device_type) (Some category) lit_0_3))
      by (rewrite E; now left).
    apply in_fired_entries in Hin as [r [Hin [Ha _]]].
    exfalso. exact (Hnone r Hin Ha). }
  rewrite forward_chain_spec by (rewrite Hempty; constructor).
  rewrite Hempty. cbn [map result_of].
  do 2 eexists. split; [reflexivity|]. cbn [success diagnosis rule_id confidence cause
    solutions alternative_diagnoses].
  split; [reflexivity|]. split; [reflexivity|]. split; [reflexivity|].
  split; [reflexivity|]. split; [reflexivity|]. split; [|reflexivity].
  apply _get_general_solutions_nonempty.
Qed.

End ForwardClaims.

Section MissingConfidence.

Context {num : Type} {NumOps : PyNum num} {Laws : PyNumLaws num}.

(** C10: for a rule without a confidence, the ranker sorts with 0, so in the
    list [find_matching_rules] returns (no confidence of the pool being a
    NaN) its entry stands after every entry of equal score whose rule has a
    confidence above 0; forward chaining multiplies with 0.8, so when the
    rule is in the scope of the call, its score and 0.8 times its score
    both reach 0.3 and the rules of the scope have ids, it fires with the
    confidence 0.8 times its score. *)
Theorem missing_confidence_sorts_with_0_fires_with_0_8 (st : State)
    (device_type category : string) (r : Rule) :
  r_confidence r = None ->
  (Forall confidence_defined (relevant_rules (kb st) (Some device_type) (Some category)) ->
   forall thr i j a b c,
     find_matching_rules (kb st) (working_memory st) (Some device_type) (Some category) thr
       !! i = Some a ->
     find_matching_rules (kb st) (working_memory st) (Some device_type) (Some category) thr
       !! j = Some b ->
     m_rule a = r ->
     neqb (m_match_score a) (m_match_score b) = true ->
     r_confidence (m_rule b) = Some c ->
     nltb (of_nat 0) c = true ->
     j < i) /\
  (In r (relevant_rules (kb st) (Some device_type) (Some category)) ->
   Forall has_id (relevant_rules (kb st) (Some device_type) (Some category)) ->
   ngeb (match_score_of r (working_memory st)) lit_0_3 = true ->
   ngeb (nmul (match_score_of r (working_memory st)) lit_0_8) lit_0_3 = true ->
   exists fired st',
     forward_chain (Some device_type) (Some category) lit_0_3 st
       = (Ok (map (diag_for (working_memory st)) fired), st') /\
     In r fired /\
     d_confidence (diag_for (working_memory st) r)
       = nmul (match_score_of r (working_memory st)) lit_0_8).
Proof.
  intros Hnone. split.
  - intros Hdef thr i j a b c Hi Hj Ha Heq Hc Hpos.
    rewrite find_matching_rules_unfold in Hi, Hj.
    pose proof (sort_reverse_sorted _ (candidates_key_defined (kb st) (working_memory st)
                  (Some device_type) (Some category) thr Hdef)) as Hsorted.
    apply (ranked_higher_confidence_first _ Hsorted j i b a Hj Hi).
    + now rewrite neqb_sym.
    + unfold sort_confidence. rewrite Ha, Hnone, Hc. exact Hpos.
  - intros Hin Hids Hs Hc.
    destruct (forward_chain_admitted st (Some device_type) (Some category) lit_0_3 Hids)
      as (fired & st' & Hrun & _ & _ & _ & _ & Hiff).
    exists fired, st'. split; [exact Hrun|]. split.
    + apply Hiff. split; [exact Hin|]. unfold admitted. rewrite Hnone. now split.
    + unfold diag_for, diagnosis_of, final_confidence, entry.
      cbn [d_confidence m_rule m_match_score]. now rewrite Hnone.
Qed.

End MissingConfidence.

(** ** The fallback at the threshold *)

(** A rule whose one condition is the device and whose confidence is 0.3. *)
Definition threshold_rule : @Rule float :=
  {| r_id := Some "T1";
     r_category := Some "overheating";
     r_conditions := Some [("device", VStr "computer")];
     r_cause := Some "Dust accumulation";
     r_cause_ar := None;
     r_solutions := Some ["Clean dust from vents and fans"];
     r_solutions_ar := None;
     r_confidence := Some lit_0_3 |}.

Definition threshold_kb : @KnowledgeBase float :=
  {| computer_rules := [threshold_rule];
     mobile_rules := [];
     all_rules := [threshold_rule] |}.

(** C3, counterexample in binary64: with the rule above as the whole catalog,
    no rule has a combined confidence above 0.3 (the rule scores 1.0 and its
    combined confidence is 0.3 itself), yet the rule fires and [diagnose]
    reports success with its id instead of the fallback. *)
Lemma fallback_claim_fails_at_threshold :
  (forall r, In r (all_rules threshold_kb) ->
     nltb lit_0_3 (nmul (match_score_of r (memory_of "computer" []))
                        (default lit_0_8 (r_confidence r))) = false) /\
  exists res st',
    diagnose "computer" "overheating" [] (init threshold_kb) = (Ok res, st') /\
    success res = true /\
    rule_id (diagnosis res) = Some "T1" /\
    confidence (diagnosis res) = lit_0_3.
Proof.
  split.
  - intros r [<-|[]]. vm_compute. reflexivity.
  - do 2 eexists. split; [vm_compute; reflexivity|]. repeat split.
Qed.

(** ** Loading the rule files *)

(** [_load_rules] above takes the files as they are when they have the
    shape of the data model. The method itself takes whatever
    [json.load] returns; what follows is the method on such values. *)

#[export] Instance res_bind : MBind Res :=
  fun A B k c =>
    match c with
    | Ok a => k a
    | Raise e => Raise e
    end.

Section PythonValues.

Context {num : Type}.

Unset Elimination Schemes.

(** The Python value of a JSON document. A [dict] is listed in the order
    of its keys, each key once. *)
Inductive Json :=
  | JNull
  | JBool (b : bool)
  | JInt (z : Z)
  | JFloat (x : num)
  | JStr (s : string)
  | JList (items : list Json)
  | JDict (items : list (string * Json)).

Set Elimination Schemes.

(** [data.get("rules", [])]: only a [dict] has the method. *)
Definition get_rules (data : Json) : Res Json :=
  match data with
  | JDict items => Ok (default (JList []) (dict_get items "rules"))
  | _ => Raise AttributeError
  end.

(** Whether [float(z)] exists: the integers that round to a double. *)
Definition int_fits_float (z : Z) : bool := (Z.abs z <? 2 ^ 1024 - 2 ^ 970)%Z.

(** What [a + b] returns: a concatenation, or a number, of which the load
    takes nothing but the [len]. *)
Inductive Sum :=
  | Concat (v : Json)
  | Number.

(** [a + b] *)
Definition py_add (a b : Json) : Res Sum :=
  match a, b with
  | JList x, JList y => Ok (Concat (JList (x ++ y)))
  | JStr x, JStr y => Ok (Concat (JStr (x +:+ y)))
  | (JBool _ | JInt _), (JBool _ | JInt _) => Ok Number
  | (JBool _ | JFloat _), JFloat _ => Ok Number
  | JFloat _, JBool _ => Ok Number
  | JInt z, JFloat _ => if int_fits_float z then Ok Number else Raise OverflowError
  | JFloat _, JInt z => if int_fits_float z then Ok Number else Raise OverflowError
  | _, _ => Raise TypeError
  end.

(** [len(v)], which is printed: a string, a list and a dict have one. *)
Definition check_len (v : Json) : Res unit :=
  match v with
  | JStr _ | JList _ | JDict _ => Ok tt
  | _ => Raise TypeError
  end.

(** The value a file gives for its rules: what is under ["rules"], the
    empty list when the file or the key is absent; nothing when the
    document is not an object. *)
Definition rules_value (file : option Json) : option Json :=
  match file with
  | None => Some (JList [])
  | Some (JDict items) => Some (default (JList []) (dict_get items "rules"))
  | Some _ => None
  end.

(** A record lacks one of the fields the data model requires. *)
Definition missing_required_field (record : Json) : Prop :=
  match record with
  | JDict items =>
      Exists (fun key => dict_get items key = None)
             ["id"; "category"; "conditions"; "cause"; "solutions"; "confidence"]
  | _ => True
  end.

(** The files of the data model as JSON values. *)
Definition json_of_value (v : Value) : Json :=
  match v with
  | VNone => JNull
  | VBool b => JBool b
  | VInt z => JInt z
  | VStr s => JStr s
  end.

Definition field (key : string) (value : option Json) : list (string * Json) :=
  match value with
  | Some v => [(key, v)]
  | None => []
  end.

Definition json_of_rule (r : @Rule num) : Json :=
  JDict
    (field "id" (JStr <$> r_id r) ++
     field "category" (JStr <$> r_category r) ++
     field "conditions"
       ((fun conds => JDict (map (fun kv => (fst kv, json_of_value (snd kv))) conds))
          <$> r_conditions r) ++
     field "cause" (JStr <$> r_cause r) ++
     field "cause_ar" (JStr <$> r_cause_ar r) ++
     field "solutions" ((fun l => JList (map JStr l)) <$> r_solutions r) ++
     field "solutions_ar" ((fun l => JList (map JStr l)) <$> r_solutions_ar r) ++
     field "confidence" (JFloat <$> r_confidence r)).

Definition json_of_file (f : @RuleFile num) : Json :=
  JDict (field "rules" ((fun l => JList (map json_of_rule l)) <$> rules f)).

End PythonValues.

Module Parsed.

Section Load.

Context {num : Type}.

(** The three attributes of a [KnowledgeBase] after the load. *)
Record Store := mkStore {
  computer_rules : @Json num;
  mobile_rules : @Json num;
  all_rules : @Json num
}.

(** [KnowledgeBase._load_rules] on a new [KnowledgeBase]; an argument is
    [None] when [os.path.exists] says the file is not there, and then the
    attribute keeps the empty list [__init__] gave it. *)
Definition _load_rules (computer_file mobile_file : option (@Json num)) : Res Store :=
  computer ← match computer_file with
             | Some data => get_rules data
             | None => Ok (JList [])
             end;
  mobile ← match mobile_file with
           | Some data => get_rules data
           | None => Ok (JList [])
           end;
  all ← py_add computer mobile;
  check_len computer ;;
  check_len mobile ;;
  match all with
  | Concat v =>
      check_len v ;;
      Ok {| computer_rules := computer; mobile_rules := mobile; all_rules := v |}
  | Number => Raise TypeError
  end.

End Load.

End Parsed.

(** The knowledge base of the data model as the load leaves it. *)
Definition store_of {num} (self : @KnowledgeBase num) : Parsed.Store :=
  {| Parsed.computer_rules := JList (map json_of_rule (computer_rules self));
     Parsed.mobile_rules := JList (map json_of_rule (mobile_rules self));
     Parsed.all_rules := JList (map json_of_rule (all_rules self)) |}.

Section Loading.

Context {num : Type}.

Lemma rules_value_get (file : option (@Json num)) :
  match file with
  | Some data => get_rules data
  | None => Ok (JList [])
  end
  = match rules_value file with
    | Some v => Ok v
    | None => Raise AttributeError
    end.
Proof. destruct file as [[]|]; reflexivity. Qed.

Lemma load_rules_unfold (computer_file mobile_file : option (@Json num)) :
  Parsed._load_rules computer_file mobile_file =
  match rules_value computer_file, rules_value mobile_file with
  | Some (JList x), Some (JList y) =>
      Ok {| Parsed.computer_rules := JList x; Parsed.mobile_rules := JList y;
            Parsed.all_rules := JList (x ++ y) |}
  | Some (JStr x), Some (JStr y) =>
      Ok {| Parsed.computer_rules := JStr x; Parsed.mobile_rules := JStr y;
            Parsed.all_rules := JStr (x +:+ y) |}
  | None, _ | Some _, None => Raise AttributeError
  | Some (JInt z), Some (JFloat _) | Some (JFloat _), Some (JInt z) =>
      if int_fits_float z then Raise TypeError else Raise OverflowError
  | Some _, Some _ => Raise TypeError
  end.
Proof.
  unfold Parsed._load_rules. rewrite !rules_value_get.
  destruct (rules_value computer_file) as [[]|], (rules_value mobile_file) as [[]|];
    cbn; try reflexivity; destruct (int_fits_float _); reflexivity.
Qed.

(** The typed [_load_rules] is the method on the files that have the shape
    of the data model. *)
Lemma load_rules_typed (computer_file mobile_file : option (@RuleFile num)) self :
  _load_rules computer_file mobile_file = Ok self ->
  Parsed._load_rules (json_of_file <$> computer_file) (json_of_file <$> mobile_file)
  = Ok (store_of self).
Proof.
  intros [= <-]. rewrite load_rules_unfold. unfold store_of.
  cbn [computer_rules mobile_rules all_rules].
  destruct computer_file as [[[c|]]|], mobile_file as [[[m|]]|]; cbn;
    rewrite ?map_app, ?app_nil_r; reflexivity.
Qed.

(** C7, amended: the load step looks at no record. It returns exactly when
    the documents present are objects and the two values for the rules
    (the empty list for an absent file or key) are two lists or two
    strings, and it then keeps these values as read, whatever the records
    are, with their concatenation as the combined catalog. A document
    that is not an object raises [AttributeError]; every other failure is a
    [TypeError] or an [OverflowError] of the concatenation and of [len]; a
    [DataLoadError] is never raised. *)
Theorem load_rules_checks_no_record (computer_file mobile_file : option (@Json num)) :
  (forall store,
     Parsed._load_rules computer_file mobile_file = Ok store <->
     (exists x y,
        rules_value computer_file = Some (JList x) /\
        rules_value mobile_file = Some (JList y) /\
        store = {| Parsed.computer_rules := JList x; Parsed.mobile_rules := JList y;
                   Parsed.all_rules := JList (x ++ y) |}) \/
     (exists x y,
        rules_value computer_file = Some (JStr x) /\
        rules_value mobile_file = Some (JStr y) /\
        store = {| Parsed.computer_rules := JStr x; Parsed.mobile_rules := JStr y;
                   Parsed.all_rules := JStr (x +:+ y) |})) /\
  (Parsed._load_rules computer_file mobile_file = Raise AttributeError <->
   rules_value computer_file = None \/ rules_value mobile_file = None) /\
  (forall e,
     Parsed._load_rules computer_file mobile_file = Raise e ->
     e = AttributeError \/ e = TypeError \/ e = OverflowError).
Proof.
  rewrite load_rules_unfold.
  destruct (rules_value computer_file) as [[| | | | | |]|] eqn:Ec,
           (rules_value mobile_file) as [[| | | | | |]|] eqn:Em;
    try destruct (int_fits_float _);
    (split; [intros store; split;
              [intros H; try discriminate H; inversion H; subst; eauto 10
              |intros [(x' & y' & Hx & Hy & ->)|(x' & y' & Hx & Hy & ->)];
                 congruence]
            |split; [split; [intros H; try discriminate H; auto
                            |intros [H|H]; try discriminate H; reflexivity]
                    |intros e H; inversion H; auto]]).
Qed.

End Loading.

(** A record with nothing but an id, and a computer file that holds it. *)
Definition bare_record : @Json float := JDict [("id", JStr "C999")].

Definition bare_file : @Json float := JDict [("rules", JList [bare_record])].

(** C7, counterexample: the record of that file lacks required fields, yet
    the load returns a catalog, with the record in it, and raises
    nothing. *)
Lemma load_accepts_bare_rule :
  missing_required_field bare_record /\
  Parsed._load_rules (Some bare_file) None
  = Ok {| Parsed.computer_rules := JList [bare_record];
          Parsed.mobile_rules := JList [];
          Parsed.all_rules := JList [bare_record] |}.
Proof.
  split; [|reflexivity]. cbn. apply Exists_cons_tl. now apply Exists_cons_hd.
Qed.

(** ** Backward chaining *)

Section Strings.



End Strings.

Section Backward.

Context {num : Type} {NumOps : PyNum num}.

(** Whether a condition is met by the working memory, under
    [_values_match]. *)
Definition condition_proved (wm : gmap string Value) (item : string * Value) : bool :=
  match wm !! fst item with
  | Some actual => _values_match actual (snd item)
  | None => false
  end.

(** What the inner loop of [backward_chain] appends for a condition. *)
Definition missing_line (wm : gmap string Value) (item : string * Value) : list string :=
  match wm !! fst item with
  | Some actual =>
      if _values_match actual (snd item) then []
      else [fst item +:+ " should be " +:+ PyVal.str (snd item)]
  | None => ["Need to know: " +:+ fst item]
  end.

(** [all_satisfied] and [required_facts] after the inner loop for a rule. *)
Definition satisfied (wm : gmap string Value) (r : @Rule num) : bool :=
  forallb (condition_proved wm) (default [] (r_conditions r)).

Definition missing_facts (wm : gmap string Value) (r : @Rule num) : list string :=
  flat_map (missing_line wm) (default [] (r_conditions r)).



Definition needs_line (wm : gmap string Value) (r : @Rule num) : string :=
  "Rule " +:+ default "" (r_id r) +:+ " needs: " +:+ PyStr.join ", " (missing_facts wm r).

Definition proven_line (r : @Rule num) : string :=
  "Hypothesis PROVEN by rule: " +:+ default "" (r_id r).

(** What [backward_chain] returns when no rule is satisfied: the list of
    the last rule, or the initial value on an empty list. *)
Definition last_missing (wm : gmap string Value) (rules : list (@Rule num))
    (required_facts : list string) : list string :=
  match last rules with
  | Some r => missing_facts wm r
  | None => required_facts
  end.

Lemma require_loop_spec wm conds : forall required_facts all_satisfied,
  fold_left (require_step wm) conds (required_facts, all_satisfied) =
  (required_facts ++ flat_map (missing_line wm) conds,
   all_satisfied && forallb (condition_proved wm) conds).
Proof.
  induction conds as [|[k e] conds IH]; intros req ok; cbn [fold_left flat_map forallb].
  - now rewrite app_nil_r, andb_true_r.
  - unfold require_step at 2, missing_line at 1, condition_proved at 1. cbn [fst snd].
    destruct (wm !! k) as [actual|].
    + destruct (_values_match actual e); cbn [negb]; rewrite IH.
      * reflexivity.
      * now rewrite <- app_assoc, andb_false_r.
    + rewrite IH. now rewrite <- app_assoc, andb_false_r.
Qed.

Lemma check_rule_spec wm (r : @Rule num) :
  check_rule wm r = (missing_facts wm r, satisfied wm r).
Proof. unfold check_rule. now rewrite require_loop_spec. Qed.



Lemma prove_loop_unsatisfied (rules : list (@Rule num)) : forall required_facts st,
  Forall has_id rules ->
  Forall (fun r => satisfied (working_memory st) r = false) rules ->
  prove_loop rules required_facts st =
  (Ok (false, last_missing (working_memory st) rules required_facts),
   log (map (needs_line (working_memory st)) rules) st).
Proof.
  induction rules as [|r rules IH]; intros req st Hids Hun.
  - cbn. now rewrite log_nil.
  - inversion Hids as [|? ? [i Hi] Hids']; subst.
    inversion Hun as [|? ? Hr Hun']; subst.
    cbn [prove_loop]. erewrite bind_ok by reflexivity.
    rewrite check_rule_spec, Hr.
    erewrite bind_ok by (apply subscript_id_some; exact Hi).
    erewrite bind_ok by apply trace_append_log.
    rewrite IH; [|assumption|assumption].
    cbn [working_memory log map]. rewrite log_log. f_equal.
    + f_equal. f_equal. unfold last_missing.
      destruct rules as [|r' rules']; [reflexivity|].
      change (last (r :: r' :: rules')) with (last (r' :: rules')).
      destruct (last (r' :: rules')) eqn:E; [reflexivity|].
      apply last_None in E. discriminate.
    + unfold needs_line at 2. now rewrite Hi.
Qed.

Lemma prove_loop_found (pre : list (@Rule num)) r post : forall required_facts st,
  Forall has_id pre -> has_id r ->
  Forall (fun x => satisfied (working_memory st) x = false) pre ->
  satisfied (working_memory st) r = true ->
  prove_loop (pre ++ r :: post) required_facts st =
  (Ok (true, []),
   log (map (needs_line (working_memory st)) pre ++ [proven_line r]) st).
Proof.
  induction pre as [|x pre IH]; intros req st Hids [i Hi] Hun Hr.
  - cbn [app prove_loop map]. erewrite bind_ok by reflexivity.
    rewrite check_rule_spec, Hr.
    erewrite bind_ok by (apply subscript_id_some; exact Hi).
    erewrite bind_ok by apply trace_append_log.
    unfold ret, proven_line. now rewrite Hi.
  - inversion Hids as [|? ? [j Hj] Hids']; subst.
    inversion Hun as [|? ? Hx Hun']; subst.
    cbn [app prove_loop]. erewrite bind_ok by reflexivity.
    rewrite check_rule_spec, Hx.
    erewrite bind_ok by (apply subscript_id_some; exact Hj).
    erewrite bind_ok by apply trace_append_log.
    rewrite IH; [|assumption|now exists i|assumption|assumption].
    cbn [working_memory log map]. rewrite log_log. f_equal.
    unfold needs_line at 2. now rewrite Hj.
Qed.

(** A list either has no satisfied rule or splits at the first one. *)
Lemma first_satisfied wm (rules : list (@Rule num)) :
  Forall (fun r => satisfied wm r = false) rules \/
  exists pre r post,
    rules = pre ++ r :: post /\
    Forall (fun x => satisfied wm x = false) pre /\ satisfied wm r = true.
Proof.
  induction rules as [|x rules IH]; [left; constructor|].
  destruct (satisfied wm x) eqn:Hx.
  - right. exists [], x, rules. repeat split; [constructor|assumption].
  - destruct IH as [Hall|(pre & r & post & -> & Hpre & Hr)].
    + left. now constructor.
    + right. exists (x :: pre), r, post. repeat split; [now constructor|assumption].
Qed.

End Backward.

Section BackwardClaim.

Context {num : Type} {NumOps : PyNum num}.

(** The rules [backward_chain] examines, in order. *)
Definition supporting_rules (st : @State num) (hypothesis : string)
    (device_type : option string) : list (@Rule num) :=
  supporting hypothesis (relevant_rules (kb st) device_type None).

Definition start_line (hypothesis : string) : string :=
  "Starting Backward Chaining for hypothesis: " +:+ hypothesis.

Definition none_line (hypothesis : string) : string :=
  "No rules found that support hypothesis: " +:+ hypothesis.

Lemma backward_chain_unfold hypothesis device_type (st : @State num) :
  backward_chain hypothesis device_type st =
  match supporting_rules st hypothesis device_type with
  | [] => (Ok (false, []), log [start_line hypothesis; none_line hypothesis] st)
  | _ :: _ =>
      prove_loop (supporting_rules st hypothesis device_type) []
                 (log [start_line hypothesis] st)
  end.
Proof.
  unfold backward_chain, supporting_rules, relevant_rules.
  erewrite bind_ok by apply trace_append_log.
  erewrite bind_ok by reflexivity.
  cbn [kb log].
  destruct device_type as [[|c dt]|];
    match goal with
    | |- context [supporting hypothesis ?l] => destruct (supporting hypothesis l)
    end;
    try reflexivity;
    erewrite bind_ok by apply trace_append_log; unfold ret; now rewrite log_log.
Qed.




End BackwardClaim.

(** ** A method that only appends *)

Section Appending.

Context {num : Type} {NumOps : PyNum num}.

Section Grows.

Variable ok : list (@Rule num) -> Prop.
Hypothesis ok_nil : ok [].
Hypothesis ok_app : forall a b, ok a -> ok b -> ok (a ++ b).

(** The method, returning or raising, leaves the state it found with
    lines appended to the trace list and rules appended to [fired_rules]. *)
Definition grows {A} (c : @M num A) : Prop :=
  forall st, exists lines rs, ok rs /\ snd (c st) = fire rs (log lines st).

Lemma grows_ret {A} (a : A) : grows (ret a).
Proof. intros st. exists [], []. now rewrite log_nil, fire_nil. Qed.

Lemma grows_raise {A} e : grows (raise (A:=A) e).
Proof. intros st. exists [], []. now rewrite log_nil, fire_nil. Qed.

Lemma grows_gets {A} (f : @State num -> A) : grows (gets f).
Proof. intros st. exists [], []. now rewrite log_nil, fire_nil. Qed.

Lemma grows_trace_append line : grows (trace_append line).
Proof. intros st. exists [line], []. now rewrite fire_nil. Qed.

Lemma grows_fired_append rule : ok [rule] -> grows (fired_append rule).
Proof. intros Hok st. exists [], [rule]. now rewrite log_nil. Qed.

Lemma grows_bind {A B} (c : @M num A) (k : A -> @M num B) :
  grows c -> (forall a, grows (k a)) -> grows (bind c k).
Proof.
  intros Hc Hk st. destruct (Hc st) as (l1 & r1 & Hok1 & H1). unfold bind.
  destruct (c st) as [[a|e] st1]; cbn [snd] in *.
  - destruct (Hk a st1) as (l2 & r2 & Hok2 & H2). exists (l1 ++ l2), (r1 ++ r2).
    split; [now apply ok_app|]. rewrite H2, H1.
    rewrite !fire_log, log_log, fire_fire. reflexivity.
  - exists l1, r1. auto.
Qed.

Lemma grows_subscript_id rule : grows (subscript_id rule).
Proof. unfold subscript_id. destruct (r_id rule); [apply grows_ret | apply grows_raise]. Qed.

Lemma grows_generate_explanation rule matched : grows (_generate_explanation rule matched).
Proof.
  unfold _generate_explanation. apply grows_bind; [apply grows_gets|].
  intros wm. destruct (map _ matched); apply grows_ret.
Qed.

Lemma grows_fire_loop thr matches :
  (forall rule, ok [rule]) -> forall diagnoses, grows (fire_loop thr matches diagnoses).
Proof.
  intros Hok. induction matches as [|m matches IH]; intros diagnoses; cbn [fire_loop].
  - apply grows_ret.
  - destruct (ngeb _ thr); [|apply IH].
    apply grows_bind; [apply grows_fired_append, Hok | intros _].
    apply grows_bind; [apply grows_subscript_id | intros i].
    apply grows_bind; [apply grows_trace_append | intros _].
    apply grows_bind; [apply grows_subscript_id | intros rule_id].
    apply grows_bind; [apply grows_generate_explanation | intros explanation].
    apply IH.
Qed.

Lemma grows_forward_chain device_type category thr :
  (forall rule, ok [rule]) -> grows (forward_chain device_type category thr).
Proof.
  intros Hok. unfold forward_chain.
  apply grows_bind; [apply grows_trace_append | intros _].
  apply grows_bind; [apply grows_gets | intros self_kb].
  apply grows_bind; [apply grows_gets | intros wm].
  apply grows_bind; [now apply grows_fire_loop | intros diagnoses].
  apply grows_bind; [apply grows_trace_append | intros _].
  apply grows_ret.
Qed.

Lemma grows_prove_loop rules : forall required_facts, grows (prove_loop rules required_facts).
Proof.
  induction rules as [|rule rules IH]; intros required_facts; cbn [prove_loop].
  - apply grows_ret.
  - apply grows_bind; [apply grows_gets | intros wm].
    destruct (check_rule wm rule) as [req [|]].
    + apply grows_bind; [apply grows_subscript_id | intros i].
      apply grows_bind; [apply grows_trace_append | intros _]. apply grows_ret.
    + apply grows_bind; [apply grows_subscript_id | intros i].
      apply grows_bind; [apply grows_trace_append | intros _]. apply IH.
Qed.

Lemma grows_backward_chain hypothesis device_type :
  grows (backward_chain hypothesis device_type).
Proof.
  unfold backward_chain.
  apply grows_bind; [apply grows_trace_append | intros _].
  apply grows_bind; [apply grows_gets | intros self_kb].
  destruct (supporting hypothesis _).
  - apply grows_bind; [apply grows_trace_append | intros _]. apply grows_ret.
  - apply grows_prove_loop.
Qed.

End Grows.

End Appending.

(** ** Two runs of [diagnose] *)

Section TwoRuns.

Context {num : Type} {NumOps : PyNum num}.

Lemma observe_result_of (st : @State num) device_type category diagnoses ref :
  observe st (result_of device_type category diagnoses ref)
  = (success (result_of device_type category diagnoses 0),
     diagnosis (result_of device_type category diagnoses 0),
     alternative_diagnoses (result_of device_type category diagnoses 0),
     default [] (heap st !! ref)).
Proof. unfold observe. destruct diagnoses; reflexivity. Qed.

Lemma ids_decide (l : list (@Match num)) :
  Forall (fun m => has_id (m_rule m)) l \/ Exists (fun m => r_id (m_rule m) = None) l.
Proof.
  induction l as [|m l [IH|IH]].
  - left. constructor.
  - destruct (r_id (m_rule m)) as [i|] eqn:E.
    + left. constructor; [now exists i | assumption].
    + right. now constructor.
  - right. now constructor 2.
Qed.

Lemma fire_loop_raises thr ms : forall ds (st : @State num),
  Exists (fun m => r_id (m_rule m) = None) (List.filter (fires thr) ms) ->
  fst (fire_loop thr ms ds st) = Raise (KeyError "id").
Proof.
  induction ms as [|m ms IH]; intros ds st Hex; cbn [List.filter] in Hex.
  - inversion Hex.
  - destruct (fires thr m) eqn:Hf.
    + destruct (r_id (m_rule m)) as [i|] eqn:Hi.
      * rewrite (fire_loop_fire thr m ms ds st i Hf Hi). apply IH.
        inversion Hex as [? ? Hm|]; subst; [congruence | assumption].
      * now rewrite (fire_loop_no_id thr m ms ds st Hf Hi).
    + rewrite fire_loop_skip by assumption. now apply IH.
Qed.

Lemma forward_chain_raises dt cat thr (st : @State num) :
  Exists (fun m => r_id (m_rule m) = None) (fired_entries st dt cat thr) ->
  fst (forward_chain dt cat thr st) = Raise (KeyError "id").
Proof.
  intros Hex. unfold forward_chain.
  erewrite bind_ok by apply trace_append_log.
  erewrite bind_ok by reflexivity.
  erewrite bind_ok by reflexivity.
  unfold bind at 1.
  pose proof (fire_loop_raises thr _ [] (log ["Starting Forward Chaining..."] st) Hex) as H.
  cbn [kb working_memory log] in *.
  destruct (fire_loop _ _ _ _) as [[ds|e] st']; cbn [fst] in *; congruence.
Qed.

(** The lines forward chaining writes for the fired entries. *)
Definition forward_lines (fe : list (@Match num)) : list string :=
  "Starting Forward Chaining..."
    :: map (fun m => fired_line m (id_or_empty m)) fe ++ [complete_line (length fe)].

(** The two ways [diagnose] can end. *)
Lemma diagnose_cases dt cat sym (st : @State num) :
  (Forall (fun m => has_id (m_rule m))
          (fired_entries (prepared st dt sym) (Some dt) (Some cat) lit_0_3) /\
   diagnose dt cat sym st =
   (Ok (result_of dt cat
          (map (diag_for (memory_of dt sym))
               (map m_rule (fired_entries (prepared st dt sym) (Some dt) (Some cat) lit_0_3)))
          (length (heap st))),
    log (forward_lines (fired_entries (prepared st dt sym) (Some dt) (Some cat) lit_0_3))
        (fire (map m_rule (fired_entries (prepared st dt sym) (Some dt) (Some cat) lit_0_3))
              (prepared st dt sym)))) \/
  (Exists (fun m => r_id (m_rule m) = None)
          (fired_entries (prepared st dt sym) (Some dt) (Some cat) lit_0_3) /\
   fst (diagnose dt cat sym st) = Raise (KeyError "id")).
Proof.
  rewrite diagnose_unfold.
  destruct (ids_decide (fired_entries (prepared st dt sym) (Some dt) (Some cat) lit_0_3))
    as [Hids|Hex].
  - left. split; [assumption|]. rewrite forward_chain_spec by assumption.
    rewrite fired_diagnoses. reflexivity.
  - right. split; [assumption|].
    pose proof (forward_chain_raises _ _ _ _ Hex) as H.
    destruct (forward_chain _ _ _ _) as [[ds|e] st']; cbn [fst] in *; congruence.
Qed.

(** What a returned [diagnose] has done. *)
Lemma diagnose_ok_inv dt cat sym (st : @State num) res st' :
  diagnose dt cat sym st = (Ok res, st') ->
  exists fired,
    (forall r, In r fired <->
       In r (relevant_rules (kb st) (Some dt) (Some cat)) /\
       admitted (memory_of dt sym) lit_0_3 r) /\
    Forall has_id fired /\
    fired_rules st' = fired /\
    res = result_of dt cat (map (diag_for (memory_of dt sym)) fired) (length (heap st)) /\
    heap st' = heap st ++
      [map fact_line (("device", VStr dt) :: sym) ++
       "Starting Forward Chaining..."
         :: map (fun r => fired_line (entry (memory_of dt sym) r) (default "" (r_id r))) fired
         ++ [complete_line (length fired)]] /\
    inference_trace st' = length (heap st) /\
    kb st' = kb st /\ working_memory st' = memory_of dt sym /\
    fired = map m_rule (fired_entries (prepared st dt sym) (Some dt) (Some cat) lit_0_3).
Proof.
  intros Hrun.
  destruct (diagnose_cases dt cat sym st) as [[Hids Heq]|[_ Hraise]];
    [|rewrite Hrun in Hraise; discriminate].
  rewrite Heq in Hrun. inversion Hrun as [[Hres Hst]]. clear Hrun Heq.
  set (fe := fired_entries (prepared st dt sym) (Some dt) (Some cat) lit_0_3) in *.
  exists (map m_rule fe). split; [|split; [|split; [|split; [|split; [|split;
    [|split; [|split]]]]]]]; try reflexivity.
  - intros r. apply (in_fired_rules (prepared st dt sym)).
  - rewrite List.Forall_forall in *. intros r Hr. apply in_map_iff in Hr as (m & <- & Hm).
    now apply Hids.
  - cbn [heap log fire prepared inference_trace].
    rewrite alter_app_r_alt by lia. rewrite Nat.sub_diag. cbn [alter list_alter].
    f_equal. f_equal. unfold forward_lines. rewrite map_map, length_map.
    f_equal. f_equal. f_equal. apply map_ext_in. intros m Hm.
    apply in_fired_entries in Hm as (r & _ & _ & ->). reflexivity.
Qed.

(** The entries that fire depend on the engine through its knowledge base
    alone, once [diagnose] has reset it and added the facts. *)
Lemma fired_entries_prepared (st st0 : @State num) dt cat sym :
  kb st0 = kb st ->
  fired_entries (prepared st0 dt sym) (Some dt) (Some cat) lit_0_3
  = fired_entries (prepared st dt sym) (Some dt) (Some cat) lit_0_3.
Proof. intros Hkb. unfold fired_entries, prepared. cbn [kb working_memory]. now rewrite Hkb. Qed.

(** What the caller reads in the result of a [diagnose] that returned. *)
Lemma observe_diagnose dt cat sym (st : @State num) res st' :
  diagnose dt cat sym st = (Ok res, st') ->
  observe st' res =
  (success (result_of dt cat (map (diag_for (memory_of dt sym)) (fired_rules st')) 0),
   diagnosis (result_of dt cat (map (diag_for (memory_of dt sym)) (fired_rules st')) 0),
   alternative_diagnoses
     (result_of dt cat (map (diag_for (memory_of dt sym)) (fired_rules st')) 0),
   map fact_line (("device", VStr dt) :: sym) ++
   "Starting Forward Chaining..."
     :: map (fun r => fired_line (entry (memory_of dt sym) r) (default "" (r_id r)))
            (fired_rules st')
     ++ [complete_line (length (fired_rules st'))]).
Proof.
  intros Hrun. apply diagnose_ok_inv in Hrun
    as (fired & _ & _ & Hfired & -> & Hheap & _). rewrite Hfired.
  rewrite observe_result_of, Hheap, list_lookup_middle by reflexivity. reflexivity.
Qed.

(** C9: [diagnose] starts from a reset engine, so what the engine held
    before the call never reaches the outcome. First, run on any two
    engines with the same knowledge base (a used one and a new one, say)
    the call returns in both or raises the same in both, and when it
    returns the caller reads the same result, trace included, and the
    working memory and the fired rules are the same afterwards. Second,
    after a call that returned the working memory holds the facts of the
    call and nothing else, and the trace is a new list, put behind the
    lists that were there, which are left as they were. Third, two calls in
    a row with the same arguments: when the first returns, so does the
    second, what the caller reads in the second result is what it read in
    the first, and the first result, read after the second call, is
    unchanged; when the first raises, the second raises the same. *)
Theorem diagnose_twice_identical (st : State) (device_type category : string)
    (symptoms : list (string * Value)) :
  (forall st0 : State, kb st0 = kb st ->
     match diagnose device_type category symptoms st,
           diagnose device_type category symptoms st0 with
     | (Ok res, st'), (Ok res0, st0') =>
         observe st' res = observe st0' res0 /\
         working_memory st' = working_memory st0' /\
         fired_rules st' = fired_rules st0'
     | (Raise e, _), (Raise e0, _) => e = e0
     | _, _ => False
     end) /\
  (forall res st', diagnose device_type category symptoms st = (Ok res, st') ->
     working_memory st' = memory_of device_type symptoms /\
     trace_ref res = length (heap st) /\
     inference_trace st' = length (heap st) /\
     heap st' = heap st ++ [snd (observe st' res)]) /\
  match diagnose device_type category symptoms st with
  | (Ok first, st1) =>
      match diagnose device_type category symptoms st1 with
      | (Ok second, st2) =>
          observe st2 second = observe st1 first /\
          observe st2 first = observe st1 first /\
          working_memory st2 = working_memory st1 /\
          fired_rules st2 = fired_rules st1
      | (Raise _, _) => False
      end
  | (Raise e, st1) =>
      match diagnose device_type category symptoms st1 with
      | (Ok _, _) => False
      | (Raise e', _) => e' = e
      end
  end.
Proof.
  assert (Hany : forall s s0 : State, kb s0 = kb s ->
            match diagnose device_type category symptoms s,
                  diagnose device_type category symptoms s0 with
            | (Ok res, s'), (Ok res0, s0') =>
                observe s' res = observe s0' res0 /\
                working_memory s' = working_memory s0' /\
                fired_rules s' = fired_rules s0'
            | (Raise e, _), (Raise e0, _) => e = e0
            | _, _ => False
            end).
  { intros s s0 Hkb.
    pose proof (fired_entries_prepared s s0 device_type category symptoms Hkb) as Hfe.
    destruct (diagnose_cases device_type category symptoms s) as [[Hids Hrun]|[Hex Hrun]];
      destruct (diagnose_cases device_type category symptoms s0) as [[Hids0 Hrun0]|[Hex0 Hrun0]].
    - pose proof (observe_diagnose _ _ _ _ _ _ Hrun) as Ho.
      pose proof (observe_diagnose _ _ _ _ _ _ Hrun0) as Ho0.
      pose proof (diagnose_ok_inv _ _ _ _ _ _ Hrun) as (f & _ & _ & Hf & _ & _ & _ & _ & Hwm & Hfe1).
      pose proof (diagnose_ok_inv _ _ _ _ _ _ Hrun0)
        as (f0 & _ & _ & Hf0 & _ & _ & _ & _ & Hwm0 & Hfe0).
      rewrite Hrun, Hrun0.
      assert (Hsame : fired_rules
                (log (forward_lines (fired_entries (prepared s device_type symptoms)
                        (Some device_type) (Some category) lit_0_3))
                   (fire (map m_rule (fired_entries (prepared s device_type symptoms)
                            (Some device_type) (Some category) lit_0_3))
                      (prepared s device_type symptoms)))
              = fired_rules
                (log (forward_lines (fired_entries (prepared s0 device_type symptoms)
                        (Some device_type) (Some category) lit_0_3))
                   (fire (map m_rule (fired_entries (prepared s0 device_type symptoms)
                            (Some device_type) (Some category) lit_0_3))
                      (prepared s0 device_type symptoms)))).
      { rewrite Hf, Hf0, Hfe1, Hfe0, Hfe. reflexivity. }
      split; [|split].
      + rewrite Ho, Ho0, Hsame. reflexivity.
      + now rewrite Hwm, Hwm0.
      + exact Hsame.
    - exfalso. rewrite Hfe in Hex0. rewrite List.Forall_forall in Hids.
      apply List.Exists_exists in Hex0 as (m & Hm & Hnone).
      destruct (Hids m Hm) as [i Hi]. congruence.
    - exfalso. rewrite Hfe in Hids0. rewrite List.Forall_forall in Hids0.
      apply List.Exists_exists in Hex as (m & Hm & Hnone).
      destruct (Hids0 m Hm) as [i Hi]. congruence.
    - destruct (diagnose _ _ _ s) as [[r|e] s'], (diagnose _ _ _ s0) as [[r0|e0] s0'];
        cbn [fst] in *; congruence. }
  assert (Hafter : forall res st', diagnose device_type category symptoms st = (Ok res, st') ->
            working_memory st' = memory_of device_type symptoms /\
            trace_ref res = length (heap st) /\
            inference_trace st' = length (heap st) /\
            heap st' = heap st ++ [snd (observe st' res)]).
  { intros res st' Hrun. rewrite (observe_diagnose _ _ _ _ _ _ Hrun). cbn [snd].
    apply diagnose_ok_inv in Hrun
      as (fired & _ & _ & Hfired & -> & Hheap & Href & _ & Hwm & _).
    rewrite Hfired. split; [exact Hwm|]. split; [|split; [exact Href | exact Hheap]].
    destruct fired; reflexivity. }
  split; [exact (Hany st)|]. split; [exact Hafter|].
  destruct (diagnose device_type category symptoms st) as [[first|e] st1] eqn:Erun.
  - assert (Hkb : kb st1 = kb st).
    { apply diagnose_ok_inv in Erun as (f & _ & _ & _ & _ & _ & _ & Hkb & _). exact Hkb. }
    pose proof (Hany st st1 Hkb) as H. rewrite Erun in H.
    destruct (Hafter first st1 eq_refl) as (_ & Href & _ & Hheap1).
    destruct (diagnose device_type category symptoms st1) as [[second|e'] st2] eqn:Erun2;
      [|contradiction].
    destruct H as (Hobs & Hwm & Hfr).
    apply diagnose_ok_inv in Erun2 as (f2 & _ & _ & _ & _ & Hheap2 & _).
    split; [now symmetry|]. split; [|split; now symmetry].
    unfold observe. f_equal. rewrite Hheap2, Hheap1, Href.
    rewrite lookup_app_l; [reflexivity|]. rewrite length_app. cbn. lia.
  - pose proof (Hany st st1) as H. rewrite Erun in H.
    assert (Hkb : kb st1 = kb st).
    { destruct (grows_forward_chain (fun _ => True) I (fun _ _ _ _ => I)
                  (Some device_type) (Some category) lit_0_3 (fun _ => I)
                  (prepared st device_type symptoms)) as (lines & rs & _ & Hgrow).
      rewrite diagnose_unfold in Erun.
      destruct (forward_chain _ _ _ _) as [[ds|e1] s1]; inversion Erun; subst.
      cbn [snd] in Hgrow. rewrite Hgrow. reflexivity. }
    specialize (H Hkb).
    destruct (diagnose device_type category symptoms st1) as [[second|e'] st2];
      [contradiction | now symmetry].
Qed.

End TwoRuns.

(** ** The theorems at a small catalog *)

(** The rule of the first scenarios of the specification. *)
Definition dust_rule : @Rule Q :=
  {| r_id := Some "C001";
     r_category := Some "overheating";
     r_conditions :=
       Some [("device", VStr "computer"); ("fan_noise", VBool true);
             ("hot_surface", VBool true)];
     r_cause := Some "Dust accumulation in cooling system";
     r_cause_ar := None;
     r_solutions := Some ["Clean dust from vents and fans"; "Replace thermal paste"];
     r_solutions_ar := None;
     r_confidence := Some (9 # 10) |}.

(** A rule without a confidence. *)
Definition fan_rule : @Rule Q :=
  {| r_id := Some "C002";
     r_category := Some "overheating";
     r_conditions := Some [("device", VStr "computer"); ("fan_noise", VBool true)];
     r_cause := Some "Fan bearing worn out";
     r_cause_ar := None;
     r_solutions := Some ["Replace the fan"];
     r_solutions_ar := None;
     r_confidence := None |}.

(** A rule with four conditions. *)
Definition paste_rule : @Rule Q :=
  {| r_id := Some "C003";
     r_category := Some "overheating";
     r_conditions :=
       Some [("device", VStr "computer"); ("fan_noise", VBool true);
             ("hot_surface", VBool true); ("thermal_paste_old", VBool true)];
     r_cause := Some "Thermal paste dried out";
     r_cause_ar := None;
     r_solutions := Some ["Replace thermal paste"];
     r_solutions_ar := None;
     r_confidence := Some (17 # 20) |}.

Definition example_kb : @KnowledgeBase Q :=
  {| computer_rules := [dust_rule; fan_rule];
     mobile_rules := [];
     all_rules := [dust_rule; fan_rule] |}.

Definition paste_kb : @KnowledgeBase Q :=
  {| computer_rules := [paste_rule];
     mobile_rules := [];
     all_rules := [paste_rule] |}.

(** The facts: a computer with a noisy fan. *)
Definition example_facts : gmap string Value :=
  memory_of "computer" [("fan_noise", VBool true)].

(** The engine as [diagnose] has it when it calls [forward_chain]. *)
Definition example_state : @State Q :=
  prepared (init example_kb) "computer" [("fan_noise", VBool true)].

(** The rules of the example scope have ids. *)
Lemma example_pool_ids :
  Forall has_id (relevant_rules (kb example_state) (Some "computer") (Some "overheating")).
Proof. vm_compute. repeat constructor; eexists; reflexivity. Qed.

(** C2 on the example: the call returns, and the dust rule is fired exactly
    when it passes both filters. *)
Lemma forward_chain_two_stage_filter_witness :
  exists fired st',
    forward_chain (Some "computer") (Some "overheating") lit_0_3 example_state
      = (Ok (map (diag_for (working_memory example_state)) fired), st') /\
    fired_rules st' = fired_rules example_state ++ fired /\
    (In dust_rule fired <->
       In dust_rule (relevant_rules (kb example_state) (Some "computer") (Some "overheating")) /\
       ngeb (match_score_of dust_rule (working_memory example_state)) lit_0_3 = true /\
       ngeb (nmul (match_score_of dust_rule (working_memory example_state))
                  (default lit_0_8 (r_confidence dust_rule))) lit_0_3 = true).
Proof.
  destruct (forward_chain_two_stage_filter example_state "computer" "overheating"
              example_pool_ids) as (fired & st' & Hrun & Hfired & Hiff & _).
  exists fired, st'. split; [exact Hrun|]. split; [exact Hfired|]. apply Hiff.
Defined.

(** C3 on a catalog whose only rule matches one condition of four: the
    fallback for overheating. *)
Lemma diagnose_fallback_witness :
  exists res st',
    diagnose "computer" "overheating" [] (init paste_kb) = (Ok res, st') /\
    success res = false /\
    rule_id (diagnosis res) = None /\
    confidence (diagnosis res) = lit_0_5 /\
    cause (diagnosis res) = "General overheating issue" /\
    solutions (diagnosis res) <> [].
Proof.
  destruct (diagnose_fallback (init paste_kb) "computer" "overheating" [])
    as (res & st' & Hrun & Hs & Hid & Hc & Hcause & _ & Hne & _).
  - intros r Hin. vm_compute in Hin. destruct Hin as [<-|[]].
    vm_compute. intros [H _]. discriminate H.
  - exists res, st'. repeat split; assumption.
Defined.


(** ** The scenarios of the specification in binary64 *)

(** The rule of scenarios 1 and 2, with the double nearest to 0.9. *)
Definition scenario_rule : @Rule float :=
  {| r_id := Some "C001";
     r_category := Some "overheating";
     r_conditions :=
       Some [("device", VStr "computer"); ("fan_noise", VBool true);
             ("hot_surface", VBool true)];
     r_cause := Some "Dust accumulation in cooling system";
     r_cause_ar := None;
     r_solutions := Some ["Clean dust from vents and fans"];
     r_solutions_ar := None;
     r_confidence := Some 0x1.ccccccccccccdp-1%float |}.

Definition scenario_kb : @KnowledgeBase float :=
  {| computer_rules := [scenario_rule]; mobile_rules := []; all_rules := [scenario_rule] |}.

(** A rule that fires and has no id. *)
Definition nameless_rule : @Rule float :=
  {| r_id := None;
     r_category := Some "overheating";
     r_conditions := Some [("device", VStr "computer")];
     r_cause := Some "Unknown";
     r_cause_ar := None;
     r_solutions := None;
     r_solutions_ar := None;
     r_confidence := Some 0x1p+0%float |}.

Definition nameless_kb : @KnowledgeBase float :=
  {| computer_rules := [nameless_rule]; mobile_rules := []; all_rules := [nameless_rule] |}.

(** Scenario 1: all three conditions met, combined confidence 0.9. *)
Example scenario_1 :
  exists res st',
    diagnose "computer" "overheating"
             [("fan_noise", VBool true); ("hot_surface", VBool true)] (init scenario_kb)
      = (Ok res, st') /\
    success res = true /\
    confidence (diagnosis res) = 0x1.ccccccccccccdp-1%float /\
    observe st' res =
      (true, diagnosis res, [],
       ["Added fact: device = computer"; "Added fact: fan_noise = True";
        "Added fact: hot_surface = True"; "Starting Forward Chaining...";
        "Fired rule: C001 (confidence: 0.90)";
        "Forward chaining complete. Found 1 diagnoses."]).
Proof. do 2 eexists. split; [vm_compute; reflexivity|]. repeat split. Qed.

(** Scenario 2: [hot_surface] absent, score 2/3, the trace shows 0.60. *)
Example scenario_2 :
  exists res st',
    diagnose "computer" "overheating" [("fan_noise", VBool true)] (init scenario_kb)
      = (Ok res, st') /\
    success res = true /\
    confidence (diagnosis res)
      = nmul (ndiv (of_nat 2) (of_nat 3)) 0x1.ccccccccccccdp-1%float /\
    In "Fired rule: C001 (confidence: 0.60)" (snd (observe st' res)).
Proof.
  do 2 eexists. split; [vm_compute; reflexivity|]. repeat split.
  cbn. auto 10.
Qed.

(** The chatbot's answer ["yes"] does not meet the boolean conditions on the
    forward path: the same rule fires through the device alone, at 1/3. *)
Example scenario_yes_answers :
  exists res st',
    diagnose "computer" "overheating"
             [("fan_noise", VStr "yes"); ("hot_surface", VStr "yes")] (init scenario_kb)
      = (Ok res, st') /\
    confidence (diagnosis res)
      = nmul (ndiv (of_nat 1) (of_nat 3)) 0x1.ccccccccccccdp-1%float /\
    fst (backward_chain "dust" (Some "computer") st') = Ok (true, []).
Proof. do 2 eexists. split; [vm_compute; reflexivity|]. split; vm_compute; reflexivity. Qed.

(** A fired rule without an id: [rule['id']] raises, after the rule was
    appended to [fired_rules]. *)
Example nameless_rule_raises :
  exists st',
    diagnose "computer" "overheating" [] (init nameless_kb) = (Raise (KeyError "id"), st') /\
    fired_rules st' = [nameless_rule].
Proof. eexists. split; vm_compute; reflexivity. Qed.

(** ** The score and rank theorems in binary64 *)

(** A rule without a confidence, beside the rule of the scenarios. *)
Definition scenario_fan_rule : @Rule float :=
  {| r_id := Some "C002";
     r_category := Some "overheating";
     r_conditions := Some [("device", VStr "computer"); ("fan_noise", VBool true)];
     r_cause := Some "Fan bearing worn out";
     r_cause_ar := None;
     r_solutions := Some ["Replace the fan"];
     r_solutions_ar := None;
     r_confidence := None |}.

Definition ranked_kb : @KnowledgeBase float :=
  {| computer_rules := [scenario_fan_rule; scenario_rule];
     mobile_rules := [];
     all_rules := [scenario_fan_rule; scenario_rule] |}.

(** A computer with a noisy fan and a hot surface: both rules score 1. *)
Definition hot_facts : gmap string Value :=
  memory_of "computer" [("fan_noise", VBool true); ("hot_surface", VBool true)].

Definition hot_state : @State float :=
  prepared (init ranked_kb) "computer" [("fan_noise", VBool true); ("hot_surface", VBool true)].

Lemma ranked_kb_confidences :
  Forall confidence_defined (relevant_rules ranked_kb (Some "computer") (Some "overheating")).
Proof.
  apply List.Forall_forall. intros r Hr. vm_compute in Hr.
  destruct Hr as [<-|[<-|[]]]; intros c [= <-]. vm_compute. reflexivity.
Qed.

Lemma ranked_kb_ids :
  Forall has_id (relevant_rules ranked_kb (Some "computer") (Some "overheating")).
Proof. vm_compute. repeat constructor; eexists; reflexivity. Qed.

(** C4 in binary64, on the rule of the scenarios and the facts of scenario
    2: score 2/3, between 0 and 1, keys split. *)
Lemma match_conditions_score_partition_witness :
  nleb (of_nat 0) (match_score_of scenario_rule example_facts) = true /\
  nleb (match_score_of scenario_rule example_facts) (of_nat 1) = true /\
  match_score_of scenario_rule example_facts = ndiv (of_nat 2) (of_nat 3) /\
  Permutation (matched_of scenario_rule example_facts ++ unmatched_of scenario_rule example_facts)
              ["device"; "fan_noise"; "hot_surface"].
Proof.
  destruct (match_conditions_score_partition (limit:=max_conditions) scenario_rule example_facts)
    as (Hbounds & Hscore & _ & _ & _ & Hperm).
  destruct Hbounds as [H0 H1].
  { change (3 <= max_conditions). unfold max_conditions. lia. }
  split; [exact H0|]. split; [exact H1|]. split; [|exact Hperm].
  rewrite Hscore by discriminate. reflexivity.
Defined.

(** C5 in binary64: with equal scores the rule with the confidence 0.9
    stands before the rule without one, which the catalog lists first. *)
Lemma find_matching_rules_ranked_witness :
  StronglySorted ranks_before
    (find_matching_rules ranked_kb hot_facts (Some "computer") (Some "overheating") lit_0_3) /\
  map m_rule
    (find_matching_rules ranked_kb hot_facts (Some "computer") (Some "overheating") lit_0_3)
  = [scenario_rule; scenario_fan_rule].
Proof.
  destruct (find_matching_rules_ranked ranked_kb hot_facts (Some "computer")
              (Some "overheating") lit_0_3 ranked_kb_confidences) as (_ & Hsorted & _).
  split; [exact Hsorted|]. vm_compute. reflexivity.
Defined.

(** C8 in binary64, on the rule of the scenarios: the fact for the absent
    key [hot_surface]. *)
Lemma match_score_monotone_witness :
  In "hot_surface" (unmatched_of scenario_rule example_facts) /\
  nleb (match_score_of scenario_rule example_facts)
       (match_score_of scenario_rule (<["hot_surface" := VBool true]> example_facts)) = true /\
  In "hot_surface" (matched_of scenario_rule (<["hot_surface" := VBool true]> example_facts)).
Proof.
  destruct (match_score_monotone (limit:=max_conditions) scenario_rule example_facts
              "hot_surface" (VBool true)) as (Hun & Hv).
  - cbn. auto.
  - reflexivity.
  - destruct (Hv (VBool true)) as (Hle & _ & Hin).
    split; [exact Hun|]. split; [|now apply Hin].
    apply Hle. change (3 <= max_conditions). unfold max_conditions. lia.
Defined.

(** C10 in binary64, on the rule without a confidence: at equal score it
    stands after the rule with the confidence 0.9, though the catalog
    lists it first, and it fires with 0.8 times its score. *)
Lemma missing_confidence_witness :
  (find_matching_rules (kb hot_state) (working_memory hot_state)
     (Some "computer") (Some "overheating") lit_0_3 !! 1
   = Some (entry hot_facts scenario_fan_rule) /\
   find_matching_rules (kb hot_state) (working_memory hot_state)
     (Some "computer") (Some "overheating") lit_0_3 !! 0
   = Some (entry hot_facts scenario_rule) /\
   0 < 1) /\
  exists fired st',
    forward_chain (Some "computer") (Some "overheating") lit_0_3 hot_state
      = (Ok (map (diag_for (working_memory hot_state)) fired), st') /\
    In scenario_fan_rule fired /\
    d_confidence (diag_for (working_memory hot_state) scenario_fan_rule)
      = nmul (match_score_of scenario_fan_rule (working_memory hot_state)) lit_0_8.
Proof.
  destruct (missing_confidence_sorts_with_0_fires_with_0_8 hot_state
              "computer" "overheating" scenario_fan_rule eq_refl) as [Hsort Hfire].
  split.
  - assert (H1 : find_matching_rules (kb hot_state) (working_memory hot_state)
                   (Some "computer") (Some "overheating") lit_0_3 !! 1
                 = Some (entry hot_facts scenario_fan_rule)) by (vm_compute; reflexivity).
    assert (H0 : find_matching_rules (kb hot_state) (working_memory hot_state)
                   (Some "computer") (Some "overheating") lit_0_3 !! 0
                 = Some (entry hot_facts scenario_rule)) by (vm_compute; reflexivity).
    split; [exact H1|]. split; [exact H0|].
    apply (Hsort ranked_kb_confidences lit_0_3 1 0
             (entry hot_facts scenario_fan_rule) (entry hot_facts scenario_rule)
             0x1.ccccccccccccdp-1%float H1 H0); vm_compute; reflexivity.
  - apply Hfire.
    + vm_compute. now left.
    + exact ranked_kb_ids.
    + vm_compute. reflexivity.
    + vm_compute. reflexivity.
Defined.

(** * The rest of the knowledge base and of the engine *)

From stdpp Require Import sorting.

(** ** The other queries of [KnowledgeBase] *)

Section Queries.

Context {num : Type}.

(** [KnowledgeBase.get_rule_by_id]: the loop returns at the first rule whose
    id is the argument. *)
Definition get_rule_by_id (self : @KnowledgeBase num) (rule_id : string)
    : option (@Rule num) :=
  List.find
    (fun rule => match r_id rule with
                 | Some i => String.eqb i rule_id
                 | None => false
                 end)
    (all_rules self).

(** [sorted(list(s))] for a set of strings. The order in which a set lists
    its members is not fixed, the sorted list is: strings compare by code
    point, which on UTF-8 bytes is the byte order. *)
Definition sorted_list (s : gset string) : list string :=
  merge_sort String.le (elements s).

(** [KnowledgeBase.get_all_categories] *)
Definition get_all_categories (self : @KnowledgeBase num) : list string :=
  let categories :=
    fold_left
      (fun (categories : gset string) rule =>
         match r_category rule with
         | Some c => categories ∪ {[ c ]}
         | None => categories
         end)
      (all_rules self) ∅ in
  sorted_list categories.

(** The inner loop of [get_symptoms_for_category] over [conditions.keys()]. *)
Definition add_symptom_keys (symptoms : gset string) (rule : @Rule num) : gset string :=
  fold_left
    (fun (symptoms : gset string) key =>
       if negb (PyStr.in_list key ["device"]) then symptoms ∪ {[ key ]} else symptoms)
    (map fst (default [] (r_conditions rule))) symptoms.

(** [KnowledgeBase.get_symptoms_for_category] *)
Definition get_symptoms_for_category (self : @KnowledgeBase num) (category : string)
    (device_type : option string) : list string :=
  let rules := get_rules_by_category self category device_type in
  let symptoms := fold_left add_symptom_keys rules ∅ in
  sorted_list symptoms.

(** [InferenceEngine.get_trace] *)
Definition get_trace : @M num string :=
  gets (fun st => PyStr.join (String "010" "") (default [] (heap st !! inference_trace st))).

End Queries.

Section QueriesProofs.

Context {num : Type}.

Lemma find_first {A} (f : A -> bool) (l : list A) x :
  List.find f l = Some x <->
  exists pre post, l = pre ++ x :: post /\ f x = true /\ forall y, In y pre -> f y = false.
Proof.
  induction l as [|a l IH]; cbn [List.find].
  - split; [discriminate|]. intros (pre & post & H & _). destruct pre; discriminate H.
  - destruct (f a) eqn:Ha.
    + split.
      * intros [= <-]. exists [], l. repeat split; [assumption | intros y []].
      * intros (pre & post & H & Hx & Hpre). destruct pre as [|b pre]; cbn in H.
        -- now inversion H.
        -- inversion H; subst. rewrite (Hpre b (or_introl eq_refl)) in Ha. discriminate.
    + rewrite IH. split.
      * intros (pre & post & -> & Hx & Hpre). exists (a :: pre), post.
        repeat split; [assumption|]. intros y [<-|Hy]; auto.
      * intros (pre & post & H & Hx & Hpre). destruct pre as [|b pre]; cbn in H.
        -- inversion H; subst. congruence.
        -- inversion H; subst. exists pre, post. repeat split; [assumption|].
           intros y Hy. apply Hpre. now right.
Qed.

Lemma id_test_true (rule : @Rule num) i :
  match r_id rule with Some j => String.eqb j i | None => false end = true <->
  r_id rule = Some i.
Proof.
  destruct (r_id rule) as [j|]; [|split; discriminate].
  rewrite String.eqb_eq. split; congruence.
Qed.

Lemma id_test_false (rule : @Rule num) i :
  match r_id rule with Some j => String.eqb j i | None => false end = false <->
  r_id rule <> Some i.
Proof.
  rewrite <- id_test_true. destruct (match r_id rule with Some _ => _ | None => _ end);
    split; congruence.
Qed.

(** X1: [get_rule_by_id] returns the first rule of the catalog that carries
    the id, and [None] exactly when no rule carries it; a rule without an
    id is never returned. *)
Theorem get_rule_by_id_first (self : @KnowledgeBase num) (rule_id : string) :
  (forall r, get_rule_by_id self rule_id = Some r <->
     exists pre post,
       all_rules self = pre ++ r :: post /\ r_id r = Some rule_id /\
       forall x, In x pre -> r_id x <> Some rule_id) /\
  (get_rule_by_id self rule_id = None <->
     forall x, In x (all_rules self) -> r_id x <> Some rule_id).
Proof.
  unfold get_rule_by_id. split.
  - intros r. rewrite find_first. split.
    + intros (pre & post & H & Hr & Hpre). exists pre, post.
      split; [assumption|]. split; [now apply id_test_true|].
      intros x Hx. now apply id_test_false, Hpre.
    + intros (pre & post & H & Hr & Hpre). exists pre, post.
      split; [assumption|]. split; [now apply id_test_true|].
      intros x Hx. now apply id_test_false, Hpre.
  - split.
    + intros Hnone x Hx. apply id_test_false.
      exact (find_none _ _ Hnone x Hx).
    + intros Hall. destruct (List.find _ _) as [r|] eqn:E; [|reflexivity].
      apply find_some in E as [Hin Hr]. apply id_test_true in Hr.
      now destruct (Hall r Hin).
Qed.

Lemma sorted_list_elem (s : gset string) x : In x (sorted_list s) <-> x ∈ s.
Proof.
  unfold sorted_list. rewrite <- list_elem_of_In, merge_sort_Permutation.
  apply elem_of_elements.
Qed.

Lemma sorted_list_NoDup (s : gset string) : List.NoDup (sorted_list s).
Proof.
  apply NoDup_ListNoDup. unfold sorted_list. rewrite merge_sort_Permutation.
  apply NoDup_elements.
Qed.

Lemma strongly_sorted_strict {A} (R : A -> A -> Prop) (l : list A) :
  StronglySorted R l -> List.NoDup l ->
  StronglySorted (fun x y => R x y /\ x <> y) l.
Proof.
  induction 1 as [|x l Hs IH Hall]; intros Hnd; [constructor|].
  inversion Hnd as [|? ? Hnotin Hnd']; subst. constructor; [now apply IH|].
  rewrite List.Forall_forall in *. intros y Hy. split; [now apply Hall|].
  intros ->. contradiction.
Qed.

(** The list is strictly ascending. *)
Lemma sorted_list_ascending (s : gset string) :
  StronglySorted (fun x y => String.le x y /\ x <> y) (sorted_list s).
Proof.
  apply strongly_sorted_strict; [|apply sorted_list_NoDup].
  unfold sorted_list. apply StronglySorted_merge_sort; apply _.
Qed.

Lemma categories_loop (rules : list (@Rule num)) : forall (acc : gset string) c,
  c ∈ fold_left
        (fun (categories : gset string) rule =>
           match r_category rule with
           | Some c => categories ∪ {[ c ]}
           | None => categories
           end) rules acc
  <-> c ∈ acc \/ exists r, In r rules /\ r_category r = Some c.
Proof.
  induction rules as [|r rules IH]; intros acc c; cbn [fold_left].
  - split; [auto | intros [H|(r & [] & _)]; exact H].
  - rewrite IH. split.
    + intros [Hc|(r' & Hin & Hr')].
      * destruct (r_category r) as [c'|] eqn:E; [|now left].
        apply elem_of_union in Hc as [Hc|Hc]; [now left|].
        apply elem_of_singleton in Hc as ->. right. exists r. split; [now left|assumption].
      * right. exists r'. split; [now right|assumption].
    + intros [Hc|(r' & [<-|Hin] & Hr')].
      * left. destruct (r_category r); [|assumption]. apply elem_of_union. now left.
      * left. rewrite Hr'. apply elem_of_union. right. now apply elem_of_singleton.
      * right. eauto.
Qed.

(** X3: [get_all_categories] lists, strictly ascending and so without
    repeats, exactly the categories that some rule of the catalog carries;
    rules without a category add nothing. *)
Theorem get_all_categories_spec (self : @KnowledgeBase num) :
  StronglySorted (fun x y => String.le x y /\ x <> y) (get_all_categories self) /\
  forall c, In c (get_all_categories self) <->
            exists r, In r (all_rules self) /\ r_category r = Some c.
Proof.
  unfold get_all_categories. split; [apply sorted_list_ascending|].
  intros c. rewrite sorted_list_elem, categories_loop. split.
  - intros [H|H]; [|exact H]. now apply not_elem_of_empty in H.
  - auto.
Qed.

Lemma add_symptom_keys_elem (rule : @Rule num) (acc : gset string) k :
  k ∈ add_symptom_keys acc rule <->
  k ∈ acc \/ (k <> "device" /\ In k (map fst (default [] (r_conditions rule)))).
Proof.
  unfold add_symptom_keys. generalize (map fst (default [] (r_conditions rule))) as keys.
  intros keys. revert acc. induction keys as [|key keys IH]; intros acc; cbn [fold_left].
  - split; [auto | intros [H|[_ []]]; exact H].
  - rewrite IH. unfold PyStr.in_list. cbn [existsb]. rewrite orb_false_r.
    destruct (String.eqb key "device") eqn:E; cbn [negb].
    + apply String.eqb_eq in E. subst key. split.
      * intros [H|[Hne Hin]]; [now left|]. right. split; [assumption|now right].
      * intros [H|[Hne [Heq|Hin]]]; [now left | congruence | right; auto].
    + apply String.eqb_neq in E. split.
      * intros [H|[Hne Hin]].
        -- apply elem_of_union in H as [H|H]; [now left|].
           apply elem_of_singleton in H as ->. right. split; [assumption|now left].
        -- right. split; [assumption|now right].
      * intros [H|[Hne [<-|Hin]]].
        -- left. apply elem_of_union. now left.
        -- left. apply elem_of_union. right. now apply elem_of_singleton.
        -- right. auto.
Qed.

Lemma symptoms_loop (rules : list (@Rule num)) : forall (acc : gset string) k,
  k ∈ fold_left add_symptom_keys rules acc <->
  k ∈ acc \/
  (k <> "device" /\
   exists r, In r rules /\ In k (map fst (default [] (r_conditions r)))).
Proof.
  induction rules as [|r rules IH]; intros acc k; cbn [fold_left].
  - split; [auto | intros [H|[_ (r & [] & _)]]; exact H].
  - rewrite IH, add_symptom_keys_elem. split.
    + intros [[H|[Hne Hin]]|[Hne (r' & Hin & Hk)]].
      * now left.
      * right. split; [assumption|]. exists r. split; [now left|assumption].
      * right. split; [assumption|]. exists r'. split; [now right|assumption].
    + intros [H|[Hne (r' & [<-|Hin] & Hk)]].
      * left. now left.
      * left. right. auto.
      * right. split; [assumption|]. eauto.
Qed.

(** X4: [get_symptoms_for_category] lists, strictly ascending and so
    without repeats, exactly the condition keys other than ["device"] of
    the rules that [get_rules_by_category] gives for the category and
    device; ["device"] is never in the list. *)
Theorem get_symptoms_for_category_spec (self : @KnowledgeBase num) (category : string)
    (device_type : option string) :
  StronglySorted (fun x y => String.le x y /\ x <> y)
    (get_symptoms_for_category self category device_type) /\
  ~ In "device" (get_symptoms_for_category self category device_type) /\
  forall k, In k (get_symptoms_for_category self category device_type) <->
    k <> "device" /\
    exists r, In r (get_rules_by_category self category device_type) /\
              In k (map fst (default [] (r_conditions r))).
Proof.
  assert (Hiff : forall k, In k (get_symptoms_for_category self category device_type) <->
    k <> "device" /\
    exists r, In r (get_rules_by_category self category device_type) /\
              In k (map fst (default [] (r_conditions r)))).
  { intros k. unfold get_symptoms_for_category. rewrite sorted_list_elem, symptoms_loop.
    split; [|auto]. intros [H|H]; [|exact H]. now apply not_elem_of_empty in H. }
  split; [apply sorted_list_ascending|]. split; [|exact Hiff].
  intros H. apply Hiff in H as [Hne _]. now apply Hne.
Qed.

End QueriesProofs.

(** ** The two comparisons, and forward against backward chaining *)

Section Comparisons.

Context {num : Type} {NumOps : PyNum num}.

(** X5: [_values_match], the comparison of [backward_chain], accepts every
    pair that the comparison inside [match_conditions] accepts, and the only
    pairs it accepts beyond those are a string fact against a boolean
    expectation, through its token lists. *)
Theorem values_match_extends_condition_met (actual expected : Value) :
  _values_match actual expected = true <->
  condition_met actual expected = true \/
  exists s b,
    actual = VStr s /\ expected = VBool b /\
    PyStr.in_list (PyStr.lower s)
      (if b then ["yes"; "true"; "1"] else ["no"; "false"; "0"]) = true.
Proof.
  destruct expected as [|b|z|e]; cbn [_values_match condition_met].
  - split; [auto | intros [H|(s & b & _ & [=] & _)]; exact H].
  - destruct actual as [|a|z|s].
    + split; [auto | intros [H|(s & b' & [=] & _)]; exact H].
    + split; [auto | intros [H|(s & b' & [=] & _)]; exact H].
    + split; [auto | intros [H|(s & b' & [=] & _)]; exact H].
    + split.
      * intros H. right. exists s, b. destruct b; auto.
      * intros [H|(s' & b' & [= <-] & [= <-] & H)]; [discriminate H|].
        destruct b; exact H.
  - split; [auto | intros [H|(s & b & _ & [=] & _)]; exact H].
  - split; [auto | intros [H|(s & b & _ & [=] & _)]; exact H].
Qed.

Lemma condition_met_values_match (actual expected : Value) :
  condition_met actual expected = true -> _values_match actual expected = true.
Proof. intros H. apply values_match_extends_condition_met. now left. Qed.

Lemma holds_condition_proved (F : gmap string Value) item :
  holds F item = true -> condition_proved F item = true.
Proof.
  unfold holds, condition_proved. destruct (F !! fst item); [|discriminate].
  apply condition_met_values_match.
Qed.

Lemma unmatched_nil_satisfied (R : @Rule num) (F : gmap string Value) :
  unmatched_of R F = [] -> satisfied F R = true.
Proof.
  unfold unmatched_of. rewrite match_conditions_unfold. cbn [snd].
  unfold unmatched_keys, satisfied. intros Hnil. apply forallb_forall. intros item Hin.
  apply holds_condition_proved. destruct (holds F item) eqn:E; [reflexivity|].
  assert (Hf : In item (List.filter (fun item => negb (holds F item))
                                    (default [] (r_conditions R)))).
  { apply filter_In. split; [assumption|]. now rewrite E. }
  apply (in_map fst) in Hf. rewrite Hnil in Hf. destruct Hf.
Qed.

(** [backward_chain] answers [(True, [])] when a supporting rule is
    satisfied and the supporting rules have ids. *)
Lemma backward_chain_proven (st : @State num) hypothesis device_type r :
  Forall has_id (supporting_rules st hypothesis device_type) ->
  In r (supporting_rules st hypothesis device_type) ->
  satisfied (working_memory st) r = true ->
  fst (backward_chain hypothesis device_type st) = Ok (true, []).
Proof.
  intros Hids Hin Hsat. rewrite backward_chain_unfold.
  destruct (first_satisfied (working_memory st)
              (supporting_rules st hypothesis device_type))
    as [Hun|(pre & x & post & Hsplit & Hpre & Hx)].
  - rewrite List.Forall_forall in Hun. rewrite (Hun r Hin) in Hsat. discriminate.
  - assert (Hidpre : Forall has_id pre /\ has_id x).
    { rewrite Hsplit in Hids. apply Forall_app in Hids as [H1 H2].
      split; [exact H1|]. now inversion H2. }
    destruct Hidpre as [Hidpre Hidx].
    rewrite Hsplit.
    rewrite (prove_loop_found pre x post [] (log [start_line hypothesis] st)
               Hidpre Hidx Hpre Hx).
    destruct pre; reflexivity.
Qed.

(** X6: a rule that forward matching finds fully matched (its unmatched list
    is empty) is satisfied for backward chaining: when it supports the
    hypothesis and the supporting rules have ids, [backward_chain] answers
    [(True, [])]. *)
Theorem full_match_is_proven (st : State) (hypothesis : string)
    (device_type : option string) (R : Rule) :
  Forall has_id (supporting_rules st hypothesis device_type) ->
  In R (supporting_rules st hypothesis device_type) ->
  unmatched_of R (working_memory st) = [] ->
  fst (backward_chain hypothesis device_type st) = Ok (true, []).
Proof.
  intros Hids Hin Hnil. eapply backward_chain_proven; eauto.
  now apply unmatched_nil_satisfied.
Qed.

End Comparisons.

(** ** What the engine's methods do to the state *)

Section EngineExtras.

Context {num : Type} {NumOps : PyNum num}.

Lemma dict_get_app {V} (a b : list (string * V)) k :
  dict_get (a ++ b) k =
  match dict_get a k with
  | Some v => Some v
  | None => dict_get b k
  end.
Proof.
  induction a as [|[k' v'] a IH]; cbn; [reflexivity|].
  destruct (String.eqb k' k); [reflexivity | exact IH].
Qed.

Lemma foldl_insert_lookup (facts : list (string * Value)) : forall (wm : gmap string Value) k,
  foldl (fun wm kv => <[fst kv := snd kv]> wm) wm facts !! k =
  match dict_get (rev facts) k with
  | Some v => Some v
  | None => wm !! k
  end.
Proof.
  induction facts as [|[k' v'] facts IH]; intros wm k; [reflexivity|].
  cbn [foldl rev]. rewrite IH, dict_get_app. cbn [fst snd dict_get].
  destruct (dict_get (rev facts) k); [reflexivity|].
  destruct (String.eqb k' k) eqn:E.
  - apply String.eqb_eq in E. subst. apply lookup_insert_eq.
  - apply String.eqb_neq in E. now apply lookup_insert_ne.
Qed.

(** X7: [add_facts] returns; afterwards a key reads the value of its last
    occurrence among the added facts, or what the working memory held when
    the key was not added; the knowledge base and the fired rules are as
    before, and the trace list got one line per fact, in order. *)
Theorem add_facts_lookup (facts : list (string * Value)) (st : @State num) :
  fst (add_facts facts st) = Ok tt /\
  (forall k,
     working_memory (snd (add_facts facts st)) !! k =
     match dict_get (rev facts) k with
     | Some v => Some v
     | None => working_memory st !! k
     end) /\
  kb (snd (add_facts facts st)) = kb st /\
  fired_rules (snd (add_facts facts st)) = fired_rules st /\
  heap (snd (add_facts facts st))
    = alter (fun l => l ++ map fact_line facts) (inference_trace st) (heap st).
Proof.
  rewrite add_facts_spec. cbn [fst snd]. split; [reflexivity|].
  split; [|repeat split]. intros k. apply foldl_insert_lookup.
Qed.

(** X8: the chaining methods only append. Whether it returns or raises,
    [forward_chain] leaves the knowledge base, the working memory and the
    trace reference as they were, with lines appended to the trace list and
    rules appended to [fired_rules]; [backward_chain] appends lines to the
    trace list and changes nothing else. *)
Theorem chaining_only_appends :
  (forall device_type category thr (st : @State num),
     exists lines rs,
       snd (forward_chain device_type category thr st) = fire rs (log lines st)) /\
  (forall hypothesis device_type (st : @State num),
     exists lines, snd (backward_chain hypothesis device_type st) = log lines st).
Proof.
  split.
  - intros device_type category thr st.
    destruct (grows_forward_chain (fun _ => True) I (fun _ _ _ _ => I)
                device_type category thr (fun _ => I) st) as (lines & rs & _ & H).
    eauto.
  - intros hypothesis device_type st.
    destruct (grows_backward_chain (fun rs => rs = []) eq_refl
                (fun a b Ha Hb => eq_trans (f_equal (fun x => x ++ b) Ha) Hb)
                hypothesis device_type st) as (lines & rs & -> & H).
    exists lines. now rewrite H, fire_nil.
Qed.

End EngineExtras.

(** ** [diagnose]: errors, alternatives, rank and trace *)

Section DiagnoseExtras.

Context {num : Type} {NumOps : PyNum num}.

(** X9: on rule records with fields of the types the engine expects (the
    records of this model), [diagnose] raises [KeyError('id')] exactly when
    a rule of the device and category scope that passes both filters has
    no id; rules without an id that do not fire do no harm, and when every
    rule that passes both filters has an id the call returns. *)
Theorem diagnose_key_error (st : State) (device_type category : string)
    (symptoms : list (string * Value)) :
  (fst (diagnose device_type category symptoms st) = Raise (KeyError "id") <->
     exists r,
       In r (relevant_rules (kb st) (Some device_type) (Some category)) /\
       admitted (memory_of device_type symptoms) lit_0_3 r /\
       r_id r = None) /\
  ((forall r,
      In r (relevant_rules (kb st) (Some device_type) (Some category)) ->
      admitted (memory_of device_type symptoms) lit_0_3 r -> has_id r) <->
   exists res, fst (diagnose device_type category symptoms st) = Ok res).
Proof.
  destruct (diagnose_cases device_type category symptoms st) as [[Hids Hrun]|[Hex Hrun]].
  - rewrite Hrun. cbn [fst]. split.
    + split; [discriminate|]. intros (r & Hin & Ha & Hnone). exfalso.
      rewrite List.Forall_forall in Hids.
      destruct (Hids (entry (memory_of device_type symptoms) r)) as [i Hi].
      * apply in_fired_entries. exists r. auto.
      * cbn in Hi. congruence.
    + split; [eauto|]. intros _ r Hin Ha. rewrite List.Forall_forall in Hids.
      apply (Hids (entry (memory_of device_type symptoms) r)).
      apply in_fired_entries. exists r. auto.
  - rewrite Hrun. split.
    + split; [|reflexivity]. intros _. apply List.Exists_exists in Hex as (m & Hin & Hnone).
      apply in_fired_entries in Hin as (r & Hin & Ha & ->). exists r. auto.
    + split; [|intros [res [=]]]. intros Hall. exfalso.
      apply List.Exists_exists in Hex as (m & Hin & Hnone).
      apply in_fired_entries in Hin as (r & Hin & Ha & ->).
      destruct (Hall r Hin Ha) as [i Hi]. cbn in Hnone. congruence.
Qed.

(** X10: when [diagnose] returns, [fired_rules] holds exactly the rules of
    the scope that pass both filters; there is success exactly when that
    list is not empty; the primary diagnosis is that of its first rule and
    the alternatives are those of the next two, so never more than two. *)
Theorem diagnose_success_alternatives (st : State) (device_type category : string)
    (symptoms : list (string * Value)) res st' :
  diagnose device_type category symptoms st = (Ok res, st') ->
  (forall r, In r (fired_rules st') <->
     In r (relevant_rules (kb st) (Some device_type) (Some category)) /\
     admitted (memory_of device_type symptoms) lit_0_3 r) /\
  (success res = true <-> fired_rules st' <> []) /\
  alternative_diagnoses res
    = map (diag_for (memory_of device_type symptoms)) (take 2 (tail (fired_rules st'))) /\
  length (alternative_diagnoses res) = Nat.min 2 (pred (length (fired_rules st'))) /\
  (forall best rest, fired_rules st' = best :: rest ->
     rule_id (diagnosis res) = r_id best /\
     cause (diagnosis res) = default "Unknown cause" (r_cause best) /\
     solutions (diagnosis res) = default [] (r_solutions best) /\
     confidence (diagnosis res)
       = nmul (match_score_of best (memory_of device_type symptoms))
              (default lit_0_8 (r_confidence best))).
Proof.
  intros Hrun. apply diagnose_ok_inv in Hrun
    as (fired & Hiff & Hids & Hfired & -> & _). rewrite Hfired.
  split; [exact Hiff|]. destruct fired as [|best rest]; cbn [map result_of].
  - cbn. repeat split; try discriminate; try congruence.
  - cbn [success alternative_diagnoses diagnosis tail length pred].
    split; [split; [discriminate|reflexivity]|].
    split; [now rewrite <- firstn_map|]. split.
    + rewrite length_take, length_map. reflexivity.
    + intros b r [= <- <-]. inversion Hids as [|? ? [i Hi] _]; subst.
      cbn. rewrite Hi. repeat split.
Qed.

(** X12: when [diagnose] returns, the trace list of the result holds one
    line per fact (the device first), the start line, one line per fired
    rule in order, and the closing line with their number; nothing of an
    earlier call is in it, and [get_trace] joins these lines. *)
Theorem diagnose_trace (st : State) (device_type category : string)
    (symptoms : list (string * Value)) res st' :
  diagnose device_type category symptoms st = (Ok res, st') ->
  snd (observe st' res)
    = map fact_line (("device", VStr device_type) :: symptoms) ++
      "Starting Forward Chaining..."
        :: map (fun r => fired_line (entry (memory_of device_type symptoms) r)
                                    (default "" (r_id r))) (fired_rules st')
        ++ [complete_line (length (fired_rules st'))] /\
  length (snd (observe st' res)) = length symptoms + 3 + length (fired_rules st') /\
  fst (get_trace st') = Ok (PyStr.join (String "010" "") (snd (observe st' res))).
Proof.
  intros Hrun. apply diagnose_ok_inv in Hrun
    as (fired & _ & _ & Hfired & -> & Hheap & Href & _). rewrite Hfired.
  assert (Hobs : snd (observe st' (result_of device_type category
                   (map (diag_for (memory_of device_type symptoms)) fired)
                   (length (heap st))))
                 = default [] (heap st' !! inference_trace st')).
  { rewrite observe_result_of, Href. reflexivity. }
  rewrite Hobs. unfold get_trace, gets. cbn [fst].
  rewrite Hheap, Href, list_lookup_middle by reflexivity. cbn [default from_option id].
  split; [reflexivity|]. split; [|reflexivity].
  rewrite length_app, !length_map. cbn [length]. rewrite length_app, length_map.
  cbn [length]. lia.
Qed.

End DiagnoseExtras.

Section DiagnoseRank.

Context {num : Type} {NumOps : PyNum num} {Laws : PyNumLaws num}.

Lemma strongly_sorted_filter {A} (R : A -> A -> Prop) (f : A -> bool) (l : list A) :
  StronglySorted R l -> StronglySorted R (List.filter f l).
Proof.
  induction 1 as [|x l Hs IH Hall]; cbn [List.filter]; [constructor|].
  destruct (f x); [|assumption]. constructor; [assumption|].
  rewrite List.Forall_forall in *. intros y Hy. apply filter_In in Hy as [Hy _]. auto.
Qed.

Lemma strongly_sorted_map {A B} (R : A -> A -> Prop) (S : B -> B -> Prop) (f : A -> B)
    (l : list A) :
  (forall x y, In x l -> In y l -> R x y -> S (f x) (f y)) ->
  StronglySorted R l -> StronglySorted S (map f l).
Proof.
  intros Hf Hs. induction Hs as [|x l Hs IH Hall]; cbn [map]; [constructor|].
  constructor.
  - apply IH. intros a b Ha Hb. apply Hf; now right.
  - rewrite List.Forall_forall in *. intros y Hy. apply in_map_iff in Hy as (a & <- & Ha).
    apply Hf; [now left | now right | now apply Hall].
Qed.

Lemma ranks_before_score (a b : Match) :
  ranks_before a b -> nleb (m_match_score b) (m_match_score a) = true.
Proof.
  intros [H|[H _]].
  - rewrite nltb_nleb, andb_true_iff in H. apply H.
  - rewrite neqb_nleb, andb_true_iff in H. apply H.
Qed.

(** X11: when [diagnose] returns and no confidence in the pool is a NaN,
    the fired rules stand in the order of the ranker, so the rule of the
    primary diagnosis has a match score at least that of every
    alternative, and each fired rule at least that of the rules after it.
    (The order is by match score, not by the combined confidence the
    diagnoses carry.) *)
Theorem diagnose_primary_has_top_score (st : State) (device_type category : string)
    (symptoms : list (string * Value)) res st' :
  Forall confidence_defined (relevant_rules (kb st) (Some device_type) (Some category)) ->
  diagnose device_type category symptoms st = (Ok res, st') ->
  StronglySorted
    (fun a b => nleb (match_score_of b (memory_of device_type symptoms))
                     (match_score_of a (memory_of device_type symptoms)) = true)
    (fired_rules st').
Proof.
  intros Hdef Hrun. apply diagnose_ok_inv in Hrun
    as (fired & _ & _ & -> & _ & _ & _ & _ & _ & ->).
  apply (strongly_sorted_map ranks_before).
  - intros a b Ha Hb Hab.
    apply in_fired_entries in Ha as (ra & _ & _ & ->).
    apply in_fired_entries in Hb as (rb & _ & _ & ->).
    apply ranks_before_score in Hab. exact Hab.
  - unfold fired_entries. apply strongly_sorted_filter.
    rewrite find_matching_rules_unfold. apply sort_reverse_sorted.
    apply candidates_key_defined. exact Hdef.
Qed.

End DiagnoseRank.

(** ** From a diagnosis back to its rule *)

Section Traceability.

Context {num : Type} {NumOps : PyNum num}.

(** No two rules of the list carry the same id. *)
Definition unique_ids (l : list (@Rule num)) : Prop :=
  forall x y i, In x l -> In y l -> r_id x = Some i -> r_id y = Some i -> x = y.

Lemma get_rule_by_id_unique (self : @KnowledgeBase num) r i :
  unique_ids (all_rules self) -> In r (all_rules self) -> r_id r = Some i ->
  get_rule_by_id self i = Some r.
Proof.
  intros Huniq Hin Hi. unfold get_rule_by_id.
  destruct (List.find _ _) as [r'|] eqn:E.
  - apply find_some in E as [Hin' Hi']. apply id_test_true in Hi'.
    f_equal. exact (Huniq r' r i Hin' Hin Hi' Hi).
  - pose proof (find_none _ _ E r Hin) as H. apply id_test_false in H. congruence.
Qed.

Lemma get_rules_by_device_loaded computer_file mobile_file (store : @KnowledgeBase num)
    device_type r :
  _load_rules computer_file mobile_file = Ok store ->
  In r (get_rules_by_device store device_type) -> In r (all_rules store).
Proof.
  unfold _load_rules. intros [= <-]. unfold get_rules_by_device.
  cbn [computer_rules mobile_rules all_rules].
  destruct (String.eqb _ "computer"); [intros H; apply in_or_app; now left|].
  destruct (String.eqb _ "mobile"); [intros H; apply in_or_app; now right|].
  auto.
Qed.

Lemma relevant_rules_loaded computer_file mobile_file (store : @KnowledgeBase num)
    device_type category r :
  _load_rules computer_file mobile_file = Ok store ->
  In r (relevant_rules store device_type category) -> In r (all_rules store).
Proof.
  intros Hload. unfold relevant_rules, get_rules_by_category.
  destruct category as [[|c cs]|]; destruct device_type as [[|d ds]|];
    rewrite ?filter_In; try tauto;
    try (intros [H _]); try intros H;
    try (eapply get_rules_by_device_loaded; eassumption); tauto.
Qed.

(** X2: on a catalog that [_load_rules] built and in which no two rules
    share an id, the rule id of a successful diagnosis leads back, through
    [get_rule_by_id], to the rule that fired first: a rule of the scope
    that passes both filters and whose cause the diagnosis shows. *)
Theorem diagnosis_rule_id_resolves computer_file mobile_file (st : State)
    (device_type category : string) (symptoms : list (string * Value)) res st' :
  _load_rules computer_file mobile_file = Ok (kb st) ->
  unique_ids (all_rules (kb st)) ->
  diagnose device_type category symptoms st = (Ok res, st') ->
  success res = true ->
  exists r i,
    rule_id (diagnosis res) = Some i /\
    get_rule_by_id (kb st) i = Some r /\
    In r (relevant_rules (kb st) (Some device_type) (Some category)) /\
    admitted (memory_of device_type symptoms) lit_0_3 r /\
    cause (diagnosis res) = default "Unknown cause" (r_cause r).
Proof.
  intros Hload Huniq Hrun Hsuccess.
  apply diagnose_ok_inv in Hrun as (fired & Hiff & Hids & _ & -> & _).
  destruct fired as [|best rest]; [discriminate Hsuccess|].
  inversion Hids as [|? ? [i Hi] _]; subst.
  destruct (proj1 (Hiff best) (or_introl eq_refl)) as [Hin Ha].
  exists best, i. cbn. rewrite Hi. repeat split; try assumption; try apply Ha.
  apply get_rule_by_id_unique; [assumption| |assumption].
  eapply relevant_rules_loaded; eassumption.
Qed.

End Traceability.

(** * The symptom catalog and the chatbot's reading of answers *)

(** ** [str.strip] *)

Module PyStrip.

(** The ASCII characters [str.isspace] accepts. *)
Definition is_ascii_space (n : nat) : bool :=
  (9 <=? n) && (n <=? 13) || (28 <=? n) && (n <=? 32).

(** The string without its first character, when that is whitespace: an
    ASCII one, or the UTF-8 bytes of U+0085, U+00A0, U+1680, U+2000 to
    U+200A, U+2028, U+2029, U+202F, U+205F or U+3000. *)
Definition drop_space (s : string) : option string :=
  match s with
  | EmptyString => None
  | String a r =>
      let x := nat_of_ascii a in
      if is_ascii_space x then Some r
      else
        match r with
        | EmptyString => None
        | String b r2 =>
            let y := nat_of_ascii b in
            if (x =? 194) && ((y =? 133) || (y =? 160)) then Some r2
            else
              match r2 with
              | EmptyString => None
              | String c r3 =>
                  let z := nat_of_ascii c in
                  if (x =? 225) && (y =? 154) && (z =? 128) then Some r3
                  else if (x =? 226) && (y =? 128) &&
                          ((128 <=? z) && (z <=? 138) || (z =? 168) || (z =? 169)
                           || (z =? 175)) then Some r3
                  else if (x =? 226) && (y =? 129) && (z =? 159) then Some r3
                  else if (x =? 227) && (y =? 128) && (z =? 128) then Some r3
                  else None
              end
        end
  end.

(** [s.lstrip()], with the length of [s] as fuel. *)
Fixpoint lstrip_fuel (fuel : nat) (s : string) : string :=
  match fuel with
  | 0 => s
  | S fuel' =>
      match drop_space s with
      | Some r => lstrip_fuel fuel' r
      | None => s
      end
  end.

Definition lstrip (s : string) : string := lstrip_fuel (String.length s) s.

(** [s] is whitespace only. *)
Definition all_space (s : string) : bool :=
  match lstrip s with
  | EmptyString => true
  | String _ _ => false
  end.

(** [s.rstrip()] *)
Fixpoint rstrip (s : string) : string :=
  match s with
  | EmptyString => EmptyString
  | String c r => if all_space (String c r) then EmptyString else String c (rstrip r)
  end.

(** [s.strip()] *)
Definition strip (s : string) : string := rstrip (lstrip s).

End PyStrip.

(** ** The symptom questions, [knowledge_base.py] *)

Definition COMPUTER_SYMPTOMS : list (string * list (string * string * list string)) :=
  [
    ("overheating",
     [
      ("fan_noise", "Is the fan making loud noise?", ["yes"; "no"; "sometimes"]);
      ("hot_surface", "Is the device hot to touch?", ["yes"; "no"]);
      ("thermal_paste_old", "Is the computer more than 3 years old without thermal paste change?", ["yes"; "no"; "unsure"]);
      ("poor_ventilation", "Is the computer in an enclosed or dusty area?", ["yes"; "no"]);
      ("high_cpu_usage", "Is CPU usage constantly high?", ["yes"; "no"; "unsure"]) ]);
    ("slow_performance",
     [
      ("ram_usage", "Is RAM usage high (above 80%)?", ["high"; "normal"; "unsure"]);
      ("hdd_type", "What type of storage does the computer have?", ["mechanical"; "ssd"; "unsure"]);
      ("startup_programs", "Are there many programs that start with Windows?", ["many"; "few"; "unsure"]);
      ("malware_detected", "Has any malware been detected recently?", ["yes"; "no"; "unsure"]);
      ("os_outdated", "Is the operating system outdated?", ["yes"; "no"; "unsure"]) ]);
    ("startup_failure",
     [
      ("power_led", "Is the power LED on?", ["on"; "off"; "blinking"]);
      ("beep_codes", "Are there any beep sounds on startup?", ["yes"; "no"]);
      ("boot_loop", "Does the computer restart repeatedly?", ["yes"; "no"]);
      ("black_screen", "Is the screen completely black?", ["yes"; "no"]);
      ("fans_running", "Are the fans running?", ["yes"; "no"]) ]);
    ("network_issues",
     [
      ("adapter_disabled", "Is the network adapter enabled?", ["yes"; "no"; "unsure"]);
      ("dns_error", "Are you getting DNS errors?", ["yes"; "no"; "unsure"]);
      ("ethernet_no_connection", "Is this an ethernet connection issue?", ["yes"; "no"]);
      ("driver_outdated", "Are network drivers updated?", ["yes"; "no"; "unsure"]) ]);
    ("screen_problems",
     [
      ("flickering", "Is the screen flickering?", ["yes"; "no"]);
      ("dead_pixels", "Are there dead or stuck pixels?", ["yes"; "no"]);
      ("dim_display", "Is the display unusually dim?", ["yes"; "no"]);
      ("color_distortion", "Are colors displayed incorrectly?", ["yes"; "no"]) ]);
    ("storage_issues",
     [
      ("disk_full", "Is the disk almost full?", ["yes"; "no"]);
      ("drive_not_detected", "Is a drive not being detected?", ["yes"; "no"]);
      ("disk_read_errors", "Are there disk read/write errors?", ["yes"; "no"; "unsure"]) ]);
    ("audio_problems",
     [
      ("no_sound", "Is there no sound at all?", ["yes"; "no"]);
      ("crackling_audio", "Is the audio crackling or distorted?", ["yes"; "no"]);
      ("headphones_not_detected", "Are headphones/speakers not detected?", ["yes"; "no"]) ]);
    ("hardware_failure",
     [
      ("blue_screen", "Are you getting blue screen errors?", ["yes"; "no"]);
      ("usb_ports_dead", "Are USB ports not working?", ["yes"; "no"]);
      ("random_shutdowns", "Does the computer shut down randomly?", ["yes"; "no"]);
      ("clicking_sounds", "Are there clicking sounds from the computer?", ["yes"; "no"]) ]);
    ("app_crashes",
     [
      ("specific_app", "Is only one specific app crashing?", ["yes"; "no"]);
      ("all_apps_crashing", "Are multiple apps crashing?", ["yes"; "no"]);
      ("games_crashing", "Do games specifically crash?", ["yes"; "no"]) ]);
    ("battery_issues",
     [
      ("battery_drain_fast", "Is the battery draining faster than expected?", ["yes"; "no"]);
      ("not_charging", "Is the laptop not charging?", ["yes"; "no"]);
      ("battery_swollen", "Is the battery visibly swollen?", ["yes"; "no"]) ]) ].

Definition MOBILE_SYMPTOMS : list (string * list (string * string * list string)) :=
  [
    ("battery_issues",
     [
      ("battery_drain", "How fast is the battery draining?", ["fast"; "normal"; "slow"]);
      ("screen_brightness", "Is screen brightness usually high?", ["high"; "medium"; "low"]);
      ("background_apps", "Are there many apps running in background?", ["many"; "few"; "unsure"]);
      ("location_always_on", "Is location/GPS always on?", ["yes"; "no"]);
      ("charging_slow", "Is charging slower than usual?", ["yes"; "no"]) ]);
    ("overheating",
     [
      ("hot_while_charging", "Does it get hot while charging?", ["yes"; "no"]);
      ("hot_during_games", "Does it overheat during gaming?", ["yes"; "no"]);
      ("hot_always", "Is it always hot even during light use?", ["yes"; "no"]) ]);
    ("slow_performance",
     [
      ("storage_full", "Is storage almost full?", ["yes"; "no"; "unsure"]);
      ("too_many_apps", "Are there many apps installed?", ["yes"; "no"]);
      ("os_outdated", "Is the OS outdated?", ["yes"; "no"; "unsure"]);
      ("ram_low", "Is available RAM usually low?", ["yes"; "no"; "unsure"]) ]);
    ("network_issues",
     [
      ("wifi_not_connecting", "Is WiFi not connecting?", ["yes"; "no"]);
      ("mobile_data_not_working", "Is mobile data not working?", ["yes"; "no"]);
      ("bluetooth_not_pairing", "Is Bluetooth not pairing?", ["yes"; "no"]);
      ("no_signal", "Is there no cell signal?", ["yes"; "no"]) ]);
    ("screen_problems",
     [
      ("touch_not_responding", "Is touch not responding?", ["yes"; "no"; "sometimes"]);
      ("ghost_touches", "Are there ghost/phantom touches?", ["yes"; "no"]);
      ("screen_flickering", "Is the screen flickering?", ["yes"; "no"]) ]);
    ("app_crashes",
     [
      ("app_crashing", "Is a specific app crashing?", ["yes"; "no"]);
      ("app_outdated", "Is the problematic app outdated?", ["yes"; "no"; "unsure"]);
      ("multiple_apps_crashing", "Are multiple apps crashing?", ["yes"; "no"]) ]);
    ("storage_issues",
     [
      ("storage_full_warning", "Is there a storage full warning?", ["yes"; "no"]);
      ("sd_card_not_detected", "Is SD card not detected?", ["yes"; "no"; "no_sd"]) ]);
    ("audio_problems",
     [
      ("no_sound", "Is there no sound from speakers?", ["yes"; "no"]);
      ("headphones_not_detected", "Are headphones not detected?", ["yes"; "no"]) ]);
    ("startup_failure",
     [
      ("stuck_on_logo", "Is device stuck on logo?", ["yes"; "no"]);
      ("not_turning_on", "Is device not turning on?", ["yes"; "no"]);
      ("restarting_randomly", "Is device restarting randomly?", ["yes"; "no"]) ]);
    ("hardware_failure",
     [
      ("camera_not_working", "Is the camera not working?", ["yes"; "no"]);
      ("fingerprint_not_working", "Is fingerprint sensor not working?", ["yes"; "no"]);
      ("buttons_not_working", "Are physical buttons not working?", ["yes"; "no"]) ]) ].


(** [get_symptoms_for_device_category] *)
Definition get_symptoms_for_device_category (device_type category : string)
    : list (string * string * list string) :=
  if String.eqb (PyStr.lower device_type) "computer"
  then default [] (dict_get COMPUTER_SYMPTOMS category)
  else default [] (dict_get MOBILE_SYMPTOMS category).

(** ** The chatbot's reading of the user's words, [chatbot.py] *)

(** The keyword lists of [process_device_selection]. *)
Definition computer_keywords : list string :=
  ["computer"; "pc"; "laptop"; "desktop"; "windows"; "mac"; "كمبيوتر"; "لابتوب"; "حاسوب"; "كومبيوتر"; "لاب توب"; "حاسب"].

Definition mobile_keywords : list string :=
  ["mobile"; "phone"; "android"; "iphone"; "ios"; "tablet"; "smartphone"; "موبايل"; "تليفون"; "هاتف"; "جوال"; "تلفون"; "اندرويد"; "ايفون"; "تابلت"].

(** The device [process_device_selection] stores in the context, [None]
    when it answers that it did not understand and stores nothing. *)
Definition select_device (user_input : string) : option string :=
  let user_input_lower := PyStrip.strip (PyStr.lower user_input) in
  if existsb (fun word => PyStr.contains word user_input_lower) computer_keywords
  then Some "computer"
  else if existsb (fun word => PyStr.contains word user_input_lower) mobile_keywords
  then Some "mobile"
  else None.

(** The word lists of [process_symptom_response]. *)
Definition yes_words : list string :=
  ["y"; "yeah"; "yep"; "yup"; "affirmative"; "اه"; "ايوه"; "نعم"; "اة"; "صح"; "ايوا"; "اي"].

Definition no_words : list string :=
  ["n"; "nope"; "nah"; "negative"; "لا"; "لأ"; "مش"; "مفيش"; "ابدا"].

(** The test of the loop over the options. *)
Definition related (user_input_lower option : string) : bool :=
  PyStr.contains (PyStr.lower option) user_input_lower
  || PyStr.contains user_input_lower (PyStr.lower option).

(** The value [process_symptom_response] stores for the current question:
    the first option the input contains or is contained in, else ["yes"]
    or ["no"] for the listed words, else the input itself, lowered and
    stripped. *)
Definition matched_option (user_input : string) (options : list string) : string :=
  let user_input_lower := PyStrip.strip (PyStr.lower user_input) in
  match List.find (related user_input_lower) options with
  | Some option => option
  | None =>
      if PyStr.in_list user_input_lower yes_words then "yes"
      else if PyStr.in_list user_input_lower no_words then "no"
      else user_input_lower
  end.

(** [d[key] = value] on a dict kept as an association list. *)
Fixpoint dict_set {V} (d : list (string * V)) (key : string) (value : V)
    : list (string * V) :=
  match d with
  | [] => [(key, value)]
  | (k, v) :: rest =>
      if String.eqb k key then (k, value) :: rest else (k, v) :: dict_set rest key value
  end.

(** The dict [self.context.symptoms] after a run of answers, each a
    question key, the user's input and the options of the question:
    [self.context.symptoms[symptom_key] = matched_option], one after the
    other. *)
Definition answer_all (answers : list (string * string * list string))
    : list (string * Value) :=
  fold_left
    (fun symptoms '(symptom_key, user_input, options) =>
       dict_set symptoms symptom_key (VStr (matched_option user_input options)))
    answers [].

Section ChatReading.

Lemma contains_empty s : PyStr.contains "" s = true.
Proof. destruct s; reflexivity. Qed.

Lemma startswith_refl s : PyStr.startswith s s = true.
Proof. induction s as [|c s IH]; cbn; [reflexivity|]. now rewrite Ascii.eqb_refl. Qed.

Lemma contains_refl s : PyStr.contains s s = true.
Proof. destruct s; cbn [PyStr.contains]; now rewrite startswith_refl. Qed.

Lemma related_empty o : related "" o = true.
Proof. unfold related. now rewrite contains_empty, orb_true_r. Qed.

Lemma matched_option_found input options o :
  List.find (related (PyStrip.strip (PyStr.lower input))) options = Some o ->
  matched_option input options = o.
Proof. unfold matched_option. now intros ->. Qed.

(** X13: the value stored for an answer is the first option that the
    input, lowered and stripped, contains or is contained in, whenever
    there is one; so a blank input stores the first option of the question,
    the empty string being contained in every option. Without such an
    option the stored value is ["yes"], ["no"] or the input itself, which
    need not be an option. *)
Theorem matched_option_first_related (input : string) (options : list string) :
  (forall pre o post,
     options = pre ++ o :: post ->
     related (PyStrip.strip (PyStr.lower input)) o = true ->
     (forall x, In x pre -> related (PyStrip.strip (PyStr.lower input)) x = false) ->
     matched_option input options = o) /\
  (forall o rest,
     PyStrip.strip (PyStr.lower input) = "" -> options = o :: rest ->
     matched_option input options = o) /\
  ((forall x, In x options -> related (PyStrip.strip (PyStr.lower input)) x = false) ->
   matched_option input options = "yes" \/ matched_option input options = "no" \/
   matched_option input options = PyStrip.strip (PyStr.lower input)).
Proof.
  split; [|split].
  - intros pre o post Hsplit Ho Hpre. apply matched_option_found.
    apply find_first. exists pre, post. auto.
  - intros o rest Hblank ->. apply matched_option_found.
    rewrite Hblank. cbn [List.find]. now rewrite related_empty.
  - intros Hnone. unfold matched_option.
    destruct (List.find _ options) as [o|] eqn:E.
    + apply find_some in E as [Hin Ho]. rewrite (Hnone o Hin) in Ho. discriminate.
    + destruct (PyStr.in_list _ yes_words); [now left|].
      destruct (PyStr.in_list _ no_words); [right; now left | right; now right].
Qed.

(** X14: an option typed as it is listed is stored as that option when it
    has no surrounding whitespace and no option listed before it contains
    it or is contained in it, letter case aside. *)
Theorem typed_option_is_stored (pre : list string) (o : string) (post : list string) :
  PyStrip.strip (PyStr.lower o) = PyStr.lower o ->
  (forall x, In x pre -> related (PyStr.lower o) x = false) ->
  matched_option o (pre ++ o :: post) = o.
Proof.
  intros Hstrip Hpre. apply matched_option_found. rewrite Hstrip.
  apply find_first. exists pre, post. split; [reflexivity|]. split; [|exact Hpre].
  unfold related. now rewrite contains_refl.
Qed.

Lemma dict_get_In {V} (d : list (string * V)) k v : dict_get d k = Some v -> In (k, v) d.
Proof.
  induction d as [|[k' v'] d IH]; cbn; [discriminate|].
  destruct (String.eqb k' k) eqn:E.
  - apply String.eqb_eq in E. intros [= <-]. left. now subst.
  - intros H. right. now apply IH.
Qed.

(** The questions of both tables. *)
Definition all_questions : list (string * string * list string) :=
  flat_map snd COMPUTER_SYMPTOMS ++ flat_map snd MOBILE_SYMPTOMS.

Lemma catalog_question_in_tables device_type category q :
  In q (get_symptoms_for_device_category device_type category) -> In q all_questions.
Proof.
  unfold get_symptoms_for_device_category, all_questions. intros Hin. apply in_or_app.
  destruct (String.eqb _ "computer"); [left | right];
    match type of Hin with
    | In _ (default [] (dict_get ?T category)) =>
        destruct (dict_get T category) as [l|] eqn:E; [|destruct Hin];
        apply dict_get_In in E; apply in_flat_map; exists (category, l); auto
    end.
Qed.

(** An option typed as listed is stored as listed, but for ["no_sd"]. *)
Definition typed_check (q : string * string * list string) : bool :=
  forallb
    (fun o => String.eqb (matched_option o (snd q))
                         (if String.eqb o "no_sd" then "no" else o))
    (snd q).

(** X15: for every question the catalog gives for a device and category,
    typing one of its options as listed stores that option, with one
    exception: ["no_sd"], the third option of the SD card question, is
    stored as ["no"], because the option ["no"] before it is contained in
    it. *)
Theorem catalog_options_typed_as_listed (device_type category key question : string)
    (options : list string) (o : string) :
  In (key, question, options) (get_symptoms_for_device_category device_type category) ->
  In o options ->
  matched_option o options = (if String.eqb o "no_sd" then "no" else o).
Proof.
  intros Hq Ho. apply catalog_question_in_tables in Hq.
  assert (Hall : forallb typed_check all_questions = true) by (vm_compute; reflexivity).
  rewrite forallb_forall in Hall. specialize (Hall _ Hq).
  unfold typed_check in Hall. cbn [snd] in Hall. rewrite forallb_forall in Hall.
  apply String.eqb_eq. now apply Hall.
Qed.

(** No key twice. *)
Fixpoint distinct (l : list string) : bool :=
  match l with
  | [] => true
  | x :: rest => negb (PyStr.in_list x rest) && distinct rest
  end.

Lemma distinct_NoDup l : distinct l = true -> List.NoDup l.
Proof.
  induction l as [|x l IH]; cbn; [constructor|].
  rewrite andb_true_iff, negb_true_iff. intros [Hx Hl]. constructor; [|now apply IH].
  intros Hin. unfold PyStr.in_list in Hx.
  assert (Ht : existsb (String.eqb x) l = true).
  { apply existsb_exists. exists x. split; [assumption | apply String.eqb_refl]. }
  congruence.
Qed.

Definition table_check (entry : string * list (string * string * list string)) : bool :=
  distinct (map (fun q => fst (fst q)) (snd entry))
  && negb (PyStr.in_list "device" (map (fun q => fst (fst q)) (snd entry)))
  && forallb (fun q => 2 <=? length (snd q)) (snd entry)
  && negb (Nat.eqb (length (snd entry)) 0).

(** X16: whatever the device and the category, the questions the catalog
    returns have pairwise distinct symptom keys, none of them ["device"],
    and at least two options each; a category of a table has at least one
    question, and a category not in the table of the device gives the empty
    list. A device string other than "computer", letter case aside, reads
    the mobile table. *)
Theorem catalog_questions_well_formed (device_type category : string) :
  List.NoDup (map (fun q => fst (fst q))
                  (get_symptoms_for_device_category device_type category)) /\
  ~ In "device" (map (fun q => fst (fst q))
                     (get_symptoms_for_device_category device_type category)) /\
  Forall (fun q => 2 <= length (snd q))
         (get_symptoms_for_device_category device_type category) /\
  (get_symptoms_for_device_category device_type category = [] <->
   dict_get (if String.eqb (PyStr.lower device_type) "computer"
             then COMPUTER_SYMPTOMS else MOBILE_SYMPTOMS) category = None).
Proof.
  assert (Hc : forallb table_check COMPUTER_SYMPTOMS = true) by (vm_compute; reflexivity).
  assert (Hm : forallb table_check MOBILE_SYMPTOMS = true) by (vm_compute; reflexivity).
  rewrite forallb_forall in Hc, Hm.
  unfold get_symptoms_for_device_category.
  assert (Hgen : forall T, (forall x, In x T -> table_check x = true) ->
    List.NoDup (map (fun q => fst (fst q)) (default [] (dict_get T category))) /\
    ~ In "device" (map (fun q => fst (fst q)) (default [] (dict_get T category))) /\
    Forall (fun q => 2 <= length (snd q)) (default [] (dict_get T category)) /\
    (default [] (dict_get T category) = [] <-> dict_get T category = None)).
  { intros T HT. destruct (dict_get T category) as [l|] eqn:E; cbn [default from_option id].
    - apply dict_get_In in E. specialize (HT _ E). unfold table_check in HT.
      cbn [snd] in HT. rewrite !andb_true_iff, !negb_true_iff in HT.
      destruct HT as [[[Hd Hdev] Hopts] Hne].
      split; [now apply distinct_NoDup|]. split; [|split].
      + intros Hin. unfold PyStr.in_list in Hdev.
        assert (Ht : existsb (String.eqb "device") (map (fun q => fst (fst q)) l) = true).
        { apply existsb_exists. exists "device". split; [assumption|reflexivity]. }
        congruence.
      + apply List.Forall_forall. intros q Hq. rewrite forallb_forall in Hopts.
        apply Nat.leb_le. now apply Hopts.
      + split; [|discriminate]. intros ->. discriminate Hne.
    - split; [constructor|]. split; [intros []|]. split; [constructor|]. tauto. }
  destruct (String.eqb _ "computer"); now apply Hgen.
Qed.

End ChatReading.

Section ChatAndEngine.

Context {num : Type} {NumOps : PyNum num}.

(** X17: a device the chatbot selects is ["computer"] or ["mobile"], the
    first when a computer keyword occurs in the input, lowered and
    stripped, whatever else occurs, the second when none does and a mobile
    keyword occurs; for it [get_rules_by_device] gives that device's rules,
    never its fallback to the whole catalog, and the question catalog reads
    that device's table. *)
Theorem select_device_names_a_partition (self : @KnowledgeBase num) (input d : string) :
  select_device input = Some d ->
  (d = "computer" /\
   (exists w, In w computer_keywords /\
              PyStr.contains w (PyStrip.strip (PyStr.lower input)) = true) /\
   get_rules_by_device self d = computer_rules self /\
   forall c, get_symptoms_for_device_category d c = default [] (dict_get COMPUTER_SYMPTOMS c))
  \/
  (d = "mobile" /\
   (forall w, In w computer_keywords ->
              PyStr.contains w (PyStrip.strip (PyStr.lower input)) = false) /\
   (exists w, In w mobile_keywords /\
              PyStr.contains w (PyStrip.strip (PyStr.lower input)) = true) /\
   get_rules_by_device self d = mobile_rules self /\
   forall c, get_symptoms_for_device_category d c = default [] (dict_get MOBILE_SYMPTOMS c)).
Proof.
  unfold select_device.
  destruct (existsb _ computer_keywords) eqn:Ec.
  - intros [= <-]. left. split; [reflexivity|]. split; [|split; [reflexivity|reflexivity]].
    apply existsb_exists in Ec as (w & Hw & Hc). eauto.
  - destruct (existsb _ mobile_keywords) eqn:Em; [|discriminate].
    intros [= <-]. right. split; [reflexivity|].
    split; [|split; [|split; [reflexivity|reflexivity]]].
    + intros w Hw. destruct (PyStr.contains w _) eqn:E; [|reflexivity].
      assert (Ht : existsb (fun word => PyStr.contains word
                     (PyStrip.strip (PyStr.lower input))) computer_keywords = true)
        by (apply existsb_exists; eauto).
      congruence.
    + apply existsb_exists in Em as (w & Hw & Hc). eauto.
Qed.

Lemma dict_set_Forall {V} (P : string * V -> Prop) (d : list (string * V)) k v :
  (forall k', P (k', v)) -> Forall P d -> Forall P (dict_set d k v).
Proof.
  intros Hv. induction 1 as [|[k' v'] d Hx Hd IH]; cbn [dict_set].
  - constructor; [apply Hv | constructor].
  - destruct (String.eqb k' k); constructor; auto.
Qed.

Lemma answer_all_strings answers :
  Forall (fun kv => exists s, snd kv = VStr s) (answer_all answers).
Proof.
  unfold answer_all.
  assert (Hgen : forall acc, Forall (fun kv : string * Value => exists s, snd kv = VStr s) acc ->
    Forall (fun kv => exists s, snd kv = VStr s)
      (fold_left
         (fun symptoms '(symptom_key, user_input, options) =>
            dict_set symptoms symptom_key (VStr (matched_option user_input options)))
         answers acc)).
  { induction answers as [|[[k i] o] answers IH]; intros acc Hacc; cbn [fold_left];
      [assumption|].
    apply IH. apply dict_set_Forall; [|assumption]. intros k'. cbn. eauto. }
  apply Hgen. constructor.
Qed.

Lemma memory_of_strings device_type symptoms k v :
  Forall (fun kv => exists s, snd kv = VStr s) symptoms ->
  memory_of device_type symptoms !! k = Some v -> exists s, v = VStr s.
Proof.
  intros Hall. unfold memory_of. rewrite foldl_insert_lookup.
  destruct (dict_get (rev symptoms) k) as [w|] eqn:E.
  - intros [= <-]. apply dict_get_In in E. apply in_rev in E.
    rewrite List.Forall_forall in Hall. exact (Hall _ E).
  - destruct (decide ("device" = k)) as [<-|Hne].
    + rewrite lookup_insert_eq. intros [= <-]. eauto.
    + rewrite lookup_insert_ne by assumption. rewrite lookup_empty. discriminate.
Qed.

Lemma condition_met_string_fact s e :
  condition_met (VStr s) e = true -> exists x, e = VStr x.
Proof. destruct e; cbn; try discriminate. eauto. Qed.

(** An expectation that is a string. *)
Definition expects_string (item : string * Value) : bool :=
  match snd item with
  | VStr _ => true
  | _ => false
  end.

(** X18: with the facts of a chatbot session, the device and answers
    stored by [process_symptom_response], which are all strings,
    [match_conditions] matches only conditions whose expected value is a
    string: every condition with a boolean expectation is unmatched, so the
    number of matched keys is at most the number of string conditions of
    the rule, whatever the user answered. *)
Theorem chat_answers_match_no_boolean_condition (R : Rule) (device_type : string)
    (answers : list (string * string * list string)) :
  (forall k, In k (matched_of R (memory_of device_type (answer_all answers))) ->
     exists e, In (k, VStr e) (default [] (r_conditions R))) /\
  (forall k b, In (k, VBool b) (default [] (r_conditions R)) ->
     In k (unmatched_of R (memory_of device_type (answer_all answers)))) /\
  length (matched_of R (memory_of device_type (answer_all answers)))
    <= length (List.filter expects_string (default [] (r_conditions R))).
Proof.
  set (F := memory_of device_type (answer_all answers)).
  assert (Hstr : forall item, holds F item = true -> expects_string item = true).
  { intros [k e]. unfold holds, expects_string. cbn [fst snd].
    destruct (F !! k) as [v|] eqn:E; [|discriminate].
    destruct (memory_of_strings _ _ _ _ (answer_all_strings answers) E) as [s ->].
    intros H. now destruct (condition_met_string_fact s e H) as [x ->]. }
  unfold matched_of, unmatched_of. rewrite match_conditions_unfold. cbn [fst snd].
  split; [|split].
  - intros k Hk. apply in_matched_keys in Hk as (e & Hin & Hh).
    pose proof (Hstr _ Hh) as He. unfold expects_string in He. cbn [snd] in He.
    destruct e; try discriminate. eauto.
  - intros k b Hin. apply in_unmatched_keys. exists (VBool b). split; [assumption|].
    destruct (holds F (k, VBool b)) eqn:E; [|reflexivity].
    apply Hstr in E. discriminate E.
  - unfold matched_keys. rewrite length_map. apply filter_length_mono.
    intros item _. apply Hstr.
Qed.

End ChatAndEngine.

Section BackwardExtras.

Context {num : Type} {NumOps : PyNum num}.

Lemma missing_line_nil wm item :
  missing_line wm item = [] <-> condition_proved wm item = true.
Proof.
  unfold missing_line, condition_proved. destruct (wm !! fst item) as [v|].
  - destruct (_values_match v (snd item)); split; congruence.
  - split; discriminate.
Qed.

Lemma missing_facts_nil wm (r : @Rule num) :
  missing_facts wm r = [] <-> satisfied wm r = true.
Proof.
  unfold missing_facts, satisfied.
  induction (default [] (r_conditions r)) as [|item conds IH]; cbn [flat_map forallb].
  - tauto.
  - rewrite andb_true_iff, <- IH, <- missing_line_nil. split.
    + intros H. now apply app_eq_nil in H.
    + intros [-> ->]. reflexivity.
Qed.

Lemma backward_chain_unproven (st : @State num) hypothesis device_type :
  Forall has_id (supporting_rules st hypothesis device_type) ->
  Forall (fun r => satisfied (working_memory st) r = false)
         (supporting_rules st hypothesis device_type) ->
  fst (backward_chain hypothesis device_type st)
  = Ok (false, last_missing (working_memory st)
                 (supporting_rules st hypothesis device_type) []).
Proof.
  intros Hids Hun. rewrite backward_chain_unfold.
  destruct (supporting_rules st hypothesis device_type) as [|x l] eqn:E; [reflexivity|].
  now rewrite (prove_loop_unsatisfied (x :: l) [] (log [start_line hypothesis] st) Hids Hun).
Qed.

(** X19: when the supporting rules have ids, [backward_chain] answers
    [(False, [])] exactly when no rule supports the hypothesis: if there
    are supporting rules and none is satisfied, the list of missing facts
    it returns is not empty. *)
Theorem backward_chain_false_empty_iff (st : @State num) (hypothesis : string)
    (device_type : option string) :
  Forall has_id (supporting_rules st hypothesis device_type) ->
  (fst (backward_chain hypothesis device_type st) = Ok (false, []) <->
   supporting_rules st hypothesis device_type = []).
Proof.
  intros Hids.
  destruct (first_satisfied (working_memory st)
              (supporting_rules st hypothesis device_type))
    as [Hun|(pre & r & post & Hsplit & Hpre & Hr)].
  - rewrite (backward_chain_unproven st hypothesis device_type Hids Hun).
    destruct (supporting_rules st hypothesis device_type) as [|x l] eqn:E.
    + split; reflexivity.
    + split; [|discriminate]. intros [= Hnil]. exfalso.
      unfold last_missing in Hnil.
      destruct (last (x :: l)) as [y|] eqn:Elast.
      * apply missing_facts_nil in Hnil.
        apply last_Some in Elast as [l' Hl'].
        rewrite List.Forall_forall in Hun.
        assert (Hy : In y (x :: l)).
        { rewrite Hl'. apply in_or_app. right. now left. }
        rewrite (Hun y Hy) in Hnil. discriminate.
      * apply last_None in Elast. discriminate.
  - assert (Hin : In r (supporting_rules st hypothesis device_type)).
    { rewrite Hsplit. apply in_elt. }
    rewrite (backward_chain_proven st hypothesis device_type r Hids Hin Hr).
    split; [discriminate|]. intros Hnil. rewrite Hnil in Hin. destruct Hin.
Qed.

End BackwardExtras.

(** ** The further theorems at the small catalog *)

(** The example catalog as [_load_rules] builds it. *)
Lemma example_kb_loaded :
  _load_rules (Some {| rules := Some [dust_rule; fan_rule] |}) None = Ok example_kb.
Proof. reflexivity. Qed.

Lemma example_kb_unique_ids : unique_ids (all_rules example_kb).
Proof.
  intros x y i Hx Hy. cbn in Hx, Hy.
  destruct Hx as [<-|[<-|[]]], Hy as [<-|[<-|[]]]; cbn; congruence.
Qed.

(** The call of the examples, the state it leaves and what it returns: the
    fan rule is fully matched and ranks first, the dust rule follows. *)
Definition example_final : @State Q :=
  snd (diagnose "computer" "overheating" [("fan_noise", VBool true)] (init example_kb)).

Definition example_result : @DiagnosisResult Q :=
  result_of "computer" "overheating"
    (map (diag_for example_facts) [fan_rule; dust_rule]) 1.

Lemma example_diagnose :
  diagnose "computer" "overheating" [("fan_noise", VBool true)] (init example_kb)
  = (Ok example_result, example_final).
Proof. vm_compute. reflexivity. Qed.

(** X2 at the example: the id of the primary diagnosis leads back to the
    fan rule. *)
Lemma diagnosis_rule_id_resolves_witness :
  exists r i,
    rule_id (diagnosis example_result) = Some i /\
    get_rule_by_id (kb (init example_kb)) i = Some r /\
    In r (relevant_rules (kb (init example_kb)) (Some "computer") (Some "overheating")) /\
    admitted (memory_of "computer" [("fan_noise", VBool true)]) lit_0_3 r /\
    cause (diagnosis example_result) = default "Unknown cause" (r_cause r).
Proof.
  apply (diagnosis_rule_id_resolves (Some {| rules := Some [dust_rule; fan_rule] |}) None
           (init example_kb) "computer" "overheating" [("fan_noise", VBool true)]
           example_result example_final).
  - exact example_kb_loaded.
  - exact example_kb_unique_ids.
  - exact example_diagnose.
  - reflexivity.
Defined.

(** X6 at the example: the fan rule is fully matched, and the hypothesis
    "fan" is proven. *)
Lemma full_match_is_proven_witness :
  fst (backward_chain "fan" (Some "computer") example_state) = Ok (true, []).
Proof.
  apply (full_match_is_proven example_state "fan" (Some "computer") fan_rule).
  - vm_compute. repeat constructor; eexists; reflexivity.
  - vm_compute. now left.
  - vm_compute. reflexivity.
Defined.

(** X10 at the example: two rules fired, one alternative. *)
Lemma diagnose_success_alternatives_witness :
  (success example_result = true <-> fired_rules example_final <> []) /\
  length (alternative_diagnoses example_result)
    = Nat.min 2 (pred (length (fired_rules example_final))).
Proof.
  destruct (diagnose_success_alternatives (init example_kb) "computer" "overheating"
              [("fan_noise", VBool true)] example_result example_final example_diagnose)
    as (_ & Hs & _ & Hlen & _).
  split; assumption.
Defined.

(** The call with the hot facts on the binary64 catalog: the rule with the
    confidence 0.9 is ranked first, and both rules fire. *)
Definition hot_final : @State float :=
  snd (diagnose "computer" "overheating"
         [("fan_noise", VBool true); ("hot_surface", VBool true)] (init ranked_kb)).

Definition hot_result : @DiagnosisResult float :=
  result_of "computer" "overheating"
    (map (diag_for hot_facts) [scenario_rule; scenario_fan_rule]) 1.

Lemma hot_diagnose :
  diagnose "computer" "overheating"
    [("fan_noise", VBool true); ("hot_surface", VBool true)] (init ranked_kb)
  = (Ok hot_result, hot_final).
Proof. vm_compute. reflexivity. Qed.

(** X11 in binary64, at that call. *)
Lemma diagnose_primary_has_top_score_witness :
  StronglySorted
    (fun a b => nleb (match_score_of b hot_facts) (match_score_of a hot_facts) = true)
    (fired_rules hot_final).
Proof.
  apply (diagnose_primary_has_top_score (init ranked_kb) "computer" "overheating"
           [("fan_noise", VBool true); ("hot_surface", VBool true)] hot_result hot_final
           ranked_kb_confidences hot_diagnose).
Defined.

(** X12 at the example: two fact lines, the start line, two fired rules,
    the closing line. *)
Lemma diagnose_trace_witness :
  length (snd (observe example_final example_result)) = 1 + 3 + length (fired_rules example_final).
Proof.
  destruct (diagnose_trace (init example_kb) "computer" "overheating"
              [("fan_noise", VBool true)] example_result example_final example_diagnose)
    as (_ & Hlen & _).
  exact Hlen.
Defined.

(** X14 at the options of the power LED question. *)
Lemma typed_option_is_stored_witness :
  matched_option "off" (["on"] ++ "off" :: ["blinking"]) = "off".
Proof.
  apply (typed_option_is_stored ["on"] "off" ["blinking"]).
  - reflexivity.
  - intros x [<-|[]]. reflexivity.
Defined.

(** X15 at the SD card question of the mobile table. *)
Lemma catalog_options_typed_as_listed_witness :
  matched_option "no_sd" ["yes"; "no"; "no_sd"] = "no".
Proof.
  apply (catalog_options_typed_as_listed "mobile" "storage_issues" "sd_card_not_detected"
           "Is SD card not detected?" ["yes"; "no"; "no_sd"] "no_sd").
  - vm_compute. right. now left.
  - cbn. auto.
Defined.

(** X17 at an input that names both kinds of device. *)
Lemma select_device_names_a_partition_witness :
  get_rules_by_device example_kb "computer" = computer_rules example_kb.
Proof.
  destruct (select_device_names_a_partition example_kb "My Windows phone" "computer")
    as [(_ & _ & H & _)|(Habs & _)].
  - vm_compute. reflexivity.
  - exact H.
  - discriminate Habs.
Defined.

(** X19 at the example: "dust" has a supporting rule, so the answer is not
    [(False, [])]. *)
Lemma backward_chain_false_empty_iff_witness :
  fst (backward_chain "dust" (Some "computer") example_state) = Ok (false, []) <->
  supporting_rules example_state "dust" (Some "computer") = [].
Proof.
  apply (backward_chain_false_empty_iff example_state "dust" (Some "computer")).
  vm_compute. repeat constructor; eexists; reflexivity.
Defined.
